(** * Apify MCP server: tool selection, schema adaptation, registry and dispatch

    A shallow embedding of the TypeScript sources of the gateway
    ([src/tools/utils.ts], [src/utils/ttl-lru.ts], [src/utils/tools-loader.ts],
    [src/mcp/server.ts], [src/tools/actor.ts]) together with the properties
    that the design document states about them.

    Conventions.
    - A JavaScript string is a [string]: a sequence of code units.  Every
      function below only compares code units with ASCII literals, so the
      width of a unit plays no role.
    - JavaScript objects and [Map]s used as dictionaries are association
      lists in insertion order with unique keys.
    - A function that may throw returns a [Completion].
    - The times of the cache are JavaScript numbers: binary64 floats.
    - Calls to the platform and to the protocol SDK are not part of the
      sources; their results are supplied by an explicit environment. *)

From Stdlib Require Import String Ascii List Bool Arith ZArith Lia.
From Corelib Require Import PrimFloat.
Import ListNotations.
Set Warnings "-register-all".
Local Open Scope list_scope.
Local Open Scope string_scope.

(* ===================================================================== *)
(** * Part I: the embedding                                               *)
(* ===================================================================== *)

(** ** JavaScript string and dictionary primitives *)

Module Js.

(** [s.startsWith(p)] *)
Fixpoint startsWith (p s : string) : bool :=
  match p, s with
  | EmptyString, _ => true
  | String _ _, EmptyString => false
  | String a p', String b s' => Ascii.eqb a b && startsWith p' s'
  end.

(** [s.endsWith(p)], through the reversed strings. *)
Fixpoint rev (s : string) : string :=
  match s with
  | EmptyString => EmptyString
  | String a r => rev r ++ String a EmptyString
  end.


(** [s.includes(c)] for a single unit [c]. *)
Fixpoint includesChar (c : ascii) (s : string) : bool :=
  match s with
  | EmptyString => false
  | String a r => Ascii.eqb a c || includesChar c r
  end.

(** [s.slice(0, n)] for [0 <= n]. *)
Fixpoint slice0 (n : nat) (s : string) : string :=
  match n, s with
  | O, _ => EmptyString
  | S _, EmptyString => EmptyString
  | S n', String a r => String a (slice0 n' r)
  end.

(** [s.replace(/c/g, tok)] for a pattern made of the single unit [c]. *)
Fixpoint replaceAllChar (c : ascii) (tok : string) (s : string) : string :=
  match s with
  | EmptyString => EmptyString
  | String a r =>
      if Ascii.eqb a c then tok ++ replaceAllChar c tok r
      else String a (replaceAllChar c tok r)
  end.

(** [s.replace(/-dot-/g, '.')]: the matches are found from left to right
    and do not overlap. *)
Fixpoint replaceAllDotToken (s : string) : string :=
  match s with
  | EmptyString => EmptyString
  | String a r =>
      match r with
      | String _ (String _ (String _ (String _ r'))) =>
          if startsWith "-dot-" s then String "." (replaceAllDotToken r')
          else String a (replaceAllDotToken r)
      | _ => String a (replaceAllDotToken r)
      end
  end.

(** [s.split('__')]: the separator is searched from left to right, the
    result always has at least one part. *)
Fixpoint split2u (s : string) : list string :=
  match s with
  | EmptyString => [EmptyString]
  | String a r =>
      match r with
      | String b r' =>
          if Ascii.eqb a "_" && Ascii.eqb b "_" then EmptyString :: split2u r'
          else match split2u r with
               | h :: t => String a h :: t
               | [] => [String a EmptyString]
               end
      | EmptyString => [String a EmptyString]
      end
  end.

(** [c.repeat(n)] for a single unit [c]. *)
Fixpoint repeatChar (c : ascii) (n : nat) : string :=
  match n with
  | O => EmptyString
  | S n' => String c (repeatChar c n')
  end.

(** [s.includes('__')] *)
Fixpoint includes2u (s : string) : bool :=
  match s with
  | EmptyString => false
  | String _ r => startsWith "__" s || includes2u r
  end.

(** White space of [String.prototype.trim] among the units below 256. *)
Definition isSpace (a : ascii) : bool :=
  let n := nat_of_ascii a in
  (((9 <=? n) && (n <=? 13)) || (n =? 32) || (n =? 160))%nat.

Fixpoint trimStart (s : string) : string :=
  match s with
  | EmptyString => EmptyString
  | String a r => if isSpace a then trimStart r else s
  end.

(** [s.trim()] *)
Definition trim (s : string) : string := rev (trimStart (rev (trimStart s))).

(** [l.join(sep)] *)
Fixpoint join (sep : string) (l : list string) : string :=
  match l with
  | [] => EmptyString
  | [x] => x
  | x :: r => x ++ sep ++ join sep r
  end.

(** Dictionaries: [o[k]], [o[k] = v] (an existing key keeps its place),
    [delete o[k]]. *)
Section Dict.
Context {V : Type}.

Fixpoint get (k : string) (o : list (string * V)) : option V :=
  match o with
  | [] => None
  | (k', v) :: r => if String.eqb k' k then Some v else get k r
  end.

Definition has (k : string) (o : list (string * V)) : bool :=
  match get k o with Some _ => true | None => false end.

Fixpoint set (k : string) (v : V) (o : list (string * V)) : list (string * V) :=
  match o with
  | [] => [(k, v)]
  | (k', v') :: r =>
      if String.eqb k' k then (k', v) :: r else (k', v') :: set k v r
  end.

Fixpoint delete (k : string) (o : list (string * V)) : list (string * V) :=
  match o with
  | [] => []
  | (k', v') :: r =>
      if String.eqb k' k then delete k r else (k', v') :: delete k r
  end.

Definition keys (o : list (string * V)) : list string := map fst o.
Definition values (o : list (string * V)) : list V := map snd o.

(** [o[k] = v] on a plain object, one that inherits from
    [Object.prototype]: the name [__proto__] is the accessor of the
    prototype, and an assignment to it calls the setter and makes no own
    property. *)
Definition assignProperty (k : string) (v : V) (o : list (string * V))
  : list (string * V) :=
  if String.eqb k "__proto__" then o else set k v o.
End Dict.

(** What a function call completes with: a value or a thrown exception. *)
Inductive Completion (E A : Type) : Type :=
| Return (a : A)
| Throw (e : E).
Arguments Return {E A} a.
Arguments Throw {E A} e.

Definition bind {E A B} (c : Completion E A) (k : A -> Completion E B)
  : Completion E B :=
  match c with
  | Return a => k a
  | Throw e => Throw e
  end.

End Js.

Notation "x <- c ;; k" := (Js.bind c (fun x => k))
  (at level 61, c at next level, right associativity).

(** ** [src/const.ts] *)

Module Const.
Definition ACTOR_ENUM_MAX_LENGTH : nat := 200.
Definition ACTOR_MAX_DESCRIPTION_LENGTH : nat := 500.
Definition ACTOR_MAX_MEMORY_MBYTES : Z := 4096.
Definition ACTOR_CACHE_MAX_SIZE : Z := 500.
(** [30 * 60], in seconds *)
Definition ACTOR_CACHE_TTL_SECS : float := PrimFloat.mul 30 60.

Module HelperTools.
Definition ACTOR_ADD := "add-actor".
Definition ACTOR_CALL := "call-actor".
Definition ACTOR_GET_DETAILS := "fetch-actor-details".
Definition ACTOR_OUTPUT_GET := "get-actor-output".
Definition ACTOR_RUNS_ABORT := "abort-actor-run".
Definition ACTOR_RUNS_GET := "get-actor-run".
Definition ACTOR_RUNS_LOG := "get-actor-log".
Definition ACTOR_RUN_LIST_GET := "get-actor-run-list".
Definition DATASET_GET := "get-dataset".
Definition DATASET_LIST_GET := "get-dataset-list".
Definition DATASET_GET_ITEMS := "get-dataset-items".
Definition DATASET_SCHEMA_GET := "get-dataset-schema".
Definition KEY_VALUE_STORE_LIST_GET := "get-key-value-store-list".
Definition KEY_VALUE_STORE_GET := "get-key-value-store".
Definition KEY_VALUE_STORE_KEYS_GET := "get-key-value-store-keys".
Definition KEY_VALUE_STORE_RECORD_GET := "get-key-value-store-record".
Definition STORE_SEARCH := "search-actors".
Definition DOCS_SEARCH := "search-apify-docs".
Definition DOCS_FETCH := "fetch-apify-docs".
End HelperTools.

(** [defaults.actors] *)
Definition defaults_actors : list string := ["apify/rag-web-browser"].
End Const.

(** ** [src/tools/utils.ts]: names and the shortening pass *)

Module ToolsUtils.
Import Const.

Definition actorNameToToolName (actorName : string) : string :=
  Js.slice0 64
    (Js.replaceAllChar "." "-dot-" (Js.replaceAllChar "/" "-slash-" actorName)).

(** The body of the loop of [encodeDotPropertyNames]: [key.replace(/\./g, '-dot-')]. *)
Definition encodeKey (key : string) : string := Js.replaceAllChar "." "-dot-" key.

(** The body of the loop of [decodeDotPropertyNames]: [key.replace(/-dot-/g, '.')]. *)
Definition decodeKey (key : string) : string := Js.replaceAllDotToken key.

(** The names on which the placeholder is ambiguous: some position of the
    name reads [-dot-] or [-dot.], so that the encoded name shows a
    placeholder that no dot produced. *)
Definition dotHazardAt (s : string) : bool :=
  Js.startsWith "-dot-" s || Js.startsWith "-dot." s.

Fixpoint dotHazard (s : string) : bool :=
  match s with
  | EmptyString => false
  | String _ r => dotHazardAt s || dotHazard r
  end.

Section PropertyNames.
Context {V : Type}.

(** [properties] lists [Object.entries(properties)]; the result is the
    object [{}] after the assignments [encodedProperties[fixedKey] = value]
    of the loop. *)
Definition encodeDotPropertyNames (properties : list (string * V)) : list (string * V) :=
  fold_left (fun encoded kv => Js.assignProperty (encodeKey (fst kv)) (snd kv) encoded)
            properties [].

Definition decodeDotPropertyNames (properties : list (string * V)) : list (string * V) :=
  fold_left (fun decoded kv => Js.assignProperty (decodeKey (fst kv)) (snd kv) decoded)
            properties [].
End PropertyNames.

(** [ISchemaProperties], with the fields the shortening pass reads or
    writes; [items] is itself a property. *)
Inductive ISchemaProperties : Type :=
  mkProperty {
      type_ : string;
      title : string;
      description : string;
      enum : option (list string);
      items : option ISchemaProperties;
    }.

(** The [filter] callback of [shortenEnum] updates [charCount] for every
    value, kept or not. *)
Fixpoint shortenEnumFilter (charCount : nat) (enumList : list string) : list string :=
  match enumList with
  | [] => []
  | enumValue :: rest =>
      let charCount' := charCount + String.length enumValue in
      if (charCount' <=? ACTOR_ENUM_MAX_LENGTH)%nat
      then enumValue :: shortenEnumFilter charCount' rest
      else shortenEnumFilter charCount' rest
  end.

Definition shortenEnum (enumList : list string) : option (list string) :=
  match shortenEnumFilter 0 enumList with
  | [] => None
  | resultEnumList => Some resultEnumList
  end.

(** [if (e && e.length > 0) e = shortenEnum(e)] *)
Definition shortenEnumField (e : option (list string)) : option (list string) :=
  match e with
  | Some (v :: r) => shortenEnum (v :: r)
  | other => other
  end.

Definition shortenDescription (d : string) : string :=
  if (ACTOR_MAX_DESCRIPTION_LENGTH <? String.length d)%nat
  then Js.slice0 ACTOR_MAX_DESCRIPTION_LENGTH d ++ "..."
  else d.

(** The body of the loop of [shortenProperties]. *)
Definition shortenProperty (property : ISchemaProperties) : ISchemaProperties :=
  {| type_ := type_ property;
     title := title property;
     description := shortenDescription (description property);
     enum := shortenEnumField (enum property);
     items :=
       match items property with
       | Some it =>
           Some {| type_ := type_ it; title := title it;
                   description := description it;
                   enum := shortenEnumField (enum it);
                   items := items it |}
       | None => None
       end |}.

(** [enum.reduce((sum, v) => sum + v.length, 0)] *)
Definition totalLength (l : list string) : nat :=
  fold_left (fun sum v => sum + String.length v) l 0.

Definition shortenProperties (properties : list (string * ISchemaProperties))
  : list (string * ISchemaProperties) :=
  map (fun kv => (fst kv, shortenProperty (snd kv))) properties.

End ToolsUtils.

(** ** [src/utils/ttl-lru.ts] *)

Module TtlLru.

(** The bounded least-recently-used store that [TTLLRUCache] wraps is the
    class [LruCache] of the package [@apify/datastructures], which is not
    part of the sources. *)
Module LruCache.
Section Store.
Context {T : Type}.

(** Modelled from the spec: the store of [LruCache], a bounded sequence of
    entries kept from the least to the most recently used one. *)
Record t : Type := mk { maxLength : Z; entries : list (string * T) }.

(** Modelled from the spec: [LruCache.get], which makes the entry that it
    finds the most recently used one. *)
Definition get (key : string) (c : t) : option T * t :=
  match Js.get key (entries c) with
  | None => (None, c)
  | Some data =>
      (Some data,
       mk (maxLength c) (Js.delete key (entries c) ++ [(key, data)])%list)
  end.

(** Modelled from the spec: [LruCache.add], which refuses a key that is
    present and, on overflow of the capacity, evicts the least recently
    used entry. *)
Definition add (key : string) (value : T) (c : t) : bool * t :=
  if Js.has key (entries c) then (false, c)
  else
    let added := (entries c ++ [(key, value)])%list in
    if (maxLength c <? Z.of_nat (List.length added))%Z
    then (true, mk (maxLength c) (tl added))
    else (true, mk (maxLength c) added).

(** Modelled from the spec: [LruCache.remove]. *)
Definition remove (key : string) (c : t) : t :=
  mk (maxLength c) (Js.delete key (entries c)).
End Store.
Arguments t T : clear implicits.
End LruCache.

Section Cache.
Context {T : Type}.

(** The times are JavaScript numbers, binary64 floats: [Date.now()], the
    time to live and the expiry, with the sum, the product and the
    comparison of such numbers. *)
Record Entry : Type := mkEntry { value : T; expiresAt : float }.

Record TTLLRUCache : Type :=
  mkCache { cache : LruCache.t Entry; ttlMillis : float }.

(** [new TTLLRUCache(maxLength, ttlSecs)] *)
Definition create (maxLength : Z) (ttlSecs : float) : TTLLRUCache :=
  mkCache (LruCache.mk maxLength []) (PrimFloat.mul ttlSecs 1000%float).

(** [set(key, value)], with [now] the value of [Date.now()]. *)
Definition set (now : float) (key : string) (v : T) (c : TTLLRUCache) : TTLLRUCache :=
  let (found, c1) := LruCache.get key (cache c) in
  let c2 := match found with
            | Some _ => LruCache.remove key c1
            | None => c1
            end in
  mkCache (snd (LruCache.add key (mkEntry v (PrimFloat.add now (ttlMillis c))) c2))
          (ttlMillis c).

(** [get(key)], with [now] the value of [Date.now()]; [None] is [null].
    The test is [entry.expiresAt > Date.now()]. *)
Definition get (now : float) (key : string) (c : TTLLRUCache) : option T * TTLLRUCache :=
  let (found, c1) := LruCache.get key (cache c) in
  match found with
  | Some entry =>
      if PrimFloat.ltb now (expiresAt entry)
      then (Some (value entry), mkCache c1 (ttlMillis c))
      else (None, mkCache (LruCache.remove key c1) (ttlMillis c))
  | None => (None, mkCache (LruCache.remove key c1) (ttlMillis c))
  end.

(** The entry stored under a key, if any. *)
Definition stored (key : string) (c : TTLLRUCache) : option Entry :=
  Js.get key (LruCache.entries (cache c)).
End Cache.
Arguments Entry T : clear implicits.
Arguments TTLLRUCache T : clear implicits.

End TtlLru.

(** ** [src/types.ts]: tool entries *)

Module Types.

Inductive ToolType : Type := internal | actor | actor_mcp.

(** [HelperTool]: the handler [call] is code; the dispatcher obtains its
    result from the environment. *)
Record HelperTool : Type := mkHelper { helper_name : string }.

Record ActorTool : Type :=
  mkActorTool { actor_name : string; actorFullName : string; memoryMbytes : Z }.

Record ActorMcpTool : Type :=
  mkMcpTool { mcp_name : string; originToolName : string; actorId : string;
              serverId : string; serverUrl : string }.

(** [ToolEntry]: the discriminator [type] selects the shape of [tool].
    The fields [description], [inputSchema] and [ajvValidate] are common to
    the three shapes; no function below inspects the first two, and the
    result of the validator is supplied by the environment. *)
Inductive ToolEntry : Type :=
| Internal (tool : HelperTool)
| Actor (tool : ActorTool)
| ActorMcp (tool : ActorMcpTool).

Definition type (e : ToolEntry) : ToolType :=
  match e with
  | Internal _ => internal
  | Actor _ => actor
  | ActorMcp _ => actor_mcp
  end.

(** [e.tool.name] *)
Definition name (e : ToolEntry) : string :=
  match e with
  | Internal t => helper_name t
  | Actor t => actor_name t
  | ActorMcp t => mcp_name t
  end.

Definition isActor (e : ToolEntry) : bool :=
  match e with Actor _ => true | _ => false end.

(** JavaScript exceptions that the modelled code throws or catches. *)
Inductive ErrorCode : Type := InvalidParams | InternalError.

Inductive Exn : Type :=
| TypeError (message : string)
| Error (message : string)
| ApifyApiError (message : string)
| McpError (code : ErrorCode) (message : string).

(** [`${error}`] *)
Definition exnToString (e : Exn) : string :=
  match e with
  | TypeError m => "TypeError: " ++ m
  | Error m => "Error: " ++ m
  | ApifyApiError m => "ApifyApiError: " ++ m
  | McpError _ m => "McpError: " ++ m
  end.

Inductive StringOrArray : Type :=
| Str (s : string)
| Arr (l : list string).

Inductive BooleanOrString : Type :=
| Bool (b : bool)
| BoolStr (s : string).

(** [Input], with the fields that the loader reads; [None] is [undefined]. *)
Record Input : Type :=
  mkInput { actors : option StringOrArray;
            enableAddingActors : option BooleanOrString;
            tools : option StringOrArray }.

End Types.

(** ** [src/tools/index.ts] and [src/utils/tools.ts]: the internal tools *)

Module Tools.
Import Types Const.

Definition helper (n : string) : ToolEntry := Internal (mkHelper n).

Definition addTool := helper HelperTools.ACTOR_ADD.
Definition callActor := helper HelperTools.ACTOR_CALL.
Definition fetchActorDetailsTool := helper HelperTools.ACTOR_GET_DETAILS.
Definition searchActors := helper HelperTools.STORE_SEARCH.
Definition searchApifyDocsTool := helper HelperTools.DOCS_SEARCH.
Definition fetchApifyDocsTool := helper HelperTools.DOCS_FETCH.
Definition getActorRun := helper HelperTools.ACTOR_RUNS_GET.
Definition getUserRunsList := helper HelperTools.ACTOR_RUN_LIST_GET.
Definition getActorRunLog := helper HelperTools.ACTOR_RUNS_LOG.
Definition getDataset := helper HelperTools.DATASET_GET.
Definition getDatasetItems := helper HelperTools.DATASET_GET_ITEMS.
Definition getDatasetSchema := helper HelperTools.DATASET_SCHEMA_GET.
Definition getActorOutput := helper HelperTools.ACTOR_OUTPUT_GET.
Definition getKeyValueStore := helper HelperTools.KEY_VALUE_STORE_GET.
Definition getKeyValueStoreKeys := helper HelperTools.KEY_VALUE_STORE_KEYS_GET.
Definition getKeyValueStoreRecord := helper HelperTools.KEY_VALUE_STORE_RECORD_GET.
Definition getUserDatasetsList := helper HelperTools.DATASET_LIST_GET.
Definition getUserKeyValueStoresList := helper HelperTools.KEY_VALUE_STORE_LIST_GET.

(** The object literal [toolCategories]. *)
Definition toolCategories : list (string * list ToolEntry) :=
  [ ("experimental", [addTool]);
    ("actors", [fetchActorDetailsTool; searchActors; callActor]);
    ("docs", [searchApifyDocsTool; fetchApifyDocsTool]);
    ("runs", [getActorRun; getUserRunsList; getActorRunLog]);
    ("storage", [getDataset; getDatasetItems; getDatasetSchema; getActorOutput;
                 getKeyValueStore; getKeyValueStoreKeys; getKeyValueStoreRecord;
                 getUserDatasetsList; getUserKeyValueStoresList]) ].

Definition toolCategoriesEnabledByDefault : list string := ["actors"; "docs"].

(** [toolCategories] is a plain object, so that reading a property also
    finds the members of [Object.prototype]; all of them are truthy and
    none is iterable. *)
Definition objectPrototypeKeys : list string :=
  [ "constructor"; "hasOwnProperty"; "isPrototypeOf"; "propertyIsEnumerable";
    "toLocaleString"; "toString"; "valueOf"; "__proto__";
    "__defineGetter__"; "__defineSetter__"; "__lookupGetter__"; "__lookupSetter__" ].

Inductive Property : Type :=
| Own (categoryTools : list ToolEntry)
| Inherited
| Undefined.

(** [toolCategories[key]] *)
Definition toolCategoriesAt (key : string) : Property :=
  match Js.get key toolCategories with
  | Some categoryTools => Own categoryTools
  | None => if existsb (String.eqb key) objectPrototypeKeys then Inherited else Undefined
  end.

(** [getExpectedToolsByCategories]; its callers pass category keys only. *)
Definition getExpectedToolsByCategories (categories : list string) : list ToolEntry :=
  flat_map (fun category =>
              match Js.get category toolCategories with
              | Some categoryTools => categoryTools
              | None => []
              end) categories.

End Tools.

(** ** [src/utils/tools-loader.ts] *)

Module ToolsLoader.
Import Types Const Tools.

(** [getInternalToolByNameMap()]: a [Map] from the name to the entry, built
    from the tools of all categories. *)
Definition getInternalToolByNameMap : list (string * ToolEntry) :=
  fold_left (fun m entry => Js.set (name entry) entry m)
            (getExpectedToolsByCategories (Js.keys toolCategories)) [].

Definition normalizeSelectors (value : option StringOrArray) : option (list string) :=
  match value with
  | None => None
  | Some v =>
      let l := match v with Arr l => l | Str s => [s] end in
      Some (filter (fun s => negb (String.eqb s "")) (map Js.trim l))
  end.

Definition actorsExplicitlyEmpty (input : Input) : bool :=
  match actors input with
  | Some (Arr []) => true
  | Some (Str "") => true
  | _ => false
  end.

Definition addActorEnabled (input : Input) : bool :=
  match enableAddingActors input with
  | Some (Bool true) => true
  | _ => false
  end.

(** The loop that partitions the selectors, with the two accumulators
    [internalSelections] and [actorSelectorsFromTools].  Spreading a
    member of the prototype throws a [TypeError]; the wording of its
    message is the engine's, and the text below stands for it. *)
Fixpoint partitionSelectors (selectors : list string)
         (internalSelections : list ToolEntry) (actorSelectorsFromTools : list string)
  : Js.Completion Exn (list ToolEntry * list string) :=
  match selectors with
  | [] => Js.Return (internalSelections, actorSelectorsFromTools)
  | selector :: rest =>
      if String.eqb selector "preview"
      then partitionSelectors rest (internalSelections ++ [callActor])%list
                              actorSelectorsFromTools
      else
        match toolCategoriesAt selector with
        | Own categoryTools =>
            partitionSelectors rest (internalSelections ++ categoryTools)%list
                               actorSelectorsFromTools
        | Inherited => Js.Throw (TypeError "categoryTools is not iterable")
        | Undefined =>
            match Js.get selector getInternalToolByNameMap with
            | Some internalByName =>
                partitionSelectors rest (internalSelections ++ [internalByName])%list
                                   actorSelectorsFromTools
            | None =>
                partitionSelectors rest internalSelections
                                   (actorSelectorsFromTools ++ [selector])%list
            end
        end
  end.

(** What the loop does with one selector: the selectors on which it
    throws, the internal tools that a selector stands for, and the
    selectors that are left as candidate Actor names. *)
Definition throwingSelector (selector : string) : bool :=
  negb (String.eqb selector "preview")
  && match toolCategoriesAt selector with Inherited => true | _ => false end.

Definition internalOfSelector (selector : string) : list ToolEntry :=
  if String.eqb selector "preview" then [callActor]
  else match toolCategoriesAt selector with
       | Own categoryTools => categoryTools
       | Inherited => []
       | Undefined =>
           match Js.get selector getInternalToolByNameMap with
           | Some internalByName => [internalByName]
           | None => []
           end
       end.

Definition actorSelector (selector : string) : bool :=
  negb (String.eqb selector "preview")
  && match toolCategoriesAt selector with
     | Undefined =>
         match Js.get selector getInternalToolByNameMap with
         | Some _ => false
         | None => true
         end
     | _ => false
     end.

Definition actorsFromField (input : Input) : option (list string) :=
  match actors input with
  | None => None
  | Some (Arr l) => Some l
  | Some (Str s) => Some [s]
  end.

(** The value of [actorNamesToLoad] once the selectors are partitioned. *)
Definition actorNamesToLoad (input : Input) (selectorsProvided : bool)
           (actorSelectorsFromTools : list string) : list string :=
  match actorsFromField input with
  | Some names => names
  | None =>
      match actorSelectorsFromTools with
      | _ :: _ => actorSelectorsFromTools
      | [] =>
          if negb selectorsProvided
          then (if addActorEnabled input then [] else defaults_actors)
          else []
      end
  end.

(** The internal part of [result], before the Actor tools are pushed. *)
Definition internalPart (input : Input) (selectors : option (list string))
           (internalSelections : list ToolEntry) : list ToolEntry :=
  match selectors with
  | Some sel =>
      let selectorsExplicitEmpty := match sel with [] => true | _ => false end in
      if addActorEnabled input && negb selectorsExplicitEmpty
         && negb (actorsExplicitlyEmpty input)
      then
        if existsb (fun e => String.eqb (name e) (name addTool)) internalSelections
        then internalSelections
        else (internalSelections ++ [addTool])%list
      else internalSelections
  | None =>
      if addActorEnabled input && negb (actorsExplicitlyEmpty input) then [addTool]
      else if negb (actorsExplicitlyEmpty input)
           then getExpectedToolsByCategories toolCategoriesEnabledByDefault
           else []
  end.

(** [result.filter((entry) => !seen.has(entry.tool.name) && seen.add(entry.tool.name))] *)
Fixpoint dedupe (seen : list string) (result : list ToolEntry) : list ToolEntry :=
  match result with
  | [] => []
  | entry :: rest =>
      if existsb (String.eqb (name entry)) seen then dedupe seen rest
      else entry :: dedupe (name entry :: seen) rest
  end.

Definition needsActorOutput (result : list ToolEntry) : bool :=
  let hasCallActor := existsb (fun entry => String.eqb (name entry) "call-actor") result in
  let hasActorTools := existsb isActor result in
  let hasAddActorTool := existsb (fun entry => String.eqb (name entry) "add-actor") result in
  hasCallActor || hasActorTools || hasAddActorTool.

Section Loader.
(** [getActorsAsTools(names, apifyToken)] fetches definitions from the
    platform; its result is given by the environment. *)
Variable getActorsAsTools : list string -> Js.Completion Exn (list ToolEntry).

(** The names for which [getActorsAsTools] is called ([[]] when it is
    not called at all). *)
Definition resolvedActorNames (input : Input) : Js.Completion Exn (list string) :=
  let selectors := normalizeSelectors (tools input) in
  let selectorsProvided := match selectors with Some _ => true | None => false end in
  parts <- partitionSelectors (match selectors with Some l => l | None => [] end) [] [] ;;
  Js.Return (actorNamesToLoad input selectorsProvided (snd parts)).

Definition loadToolsFromInput (input : Input) : Js.Completion Exn (list ToolEntry) :=
  let selectors := normalizeSelectors (tools input) in
  let selectorsProvided := match selectors with Some _ => true | None => false end in
  parts <- partitionSelectors (match selectors with Some l => l | None => [] end) [] [] ;;
  let names := actorNamesToLoad input selectorsProvided (snd parts) in
  let result := internalPart input selectors (fst parts) in
  actorTools <- match names with
                | [] => Js.Return []
                | _ :: _ => getActorsAsTools names
                end ;;
  let result := (result ++ actorTools)%list in
  let result := if needsActorOutput result
                then (result ++ [getActorOutput])%list else result in
  Js.Return (dedupe [] result).
End Loader.

End ToolsLoader.

(** ** Effects: what a handler does besides completing *)

Module Effects.
Import Types.

(** The calls that leave the process, and the log. *)
Inductive Event : Type :=
| LogDebug (message : string)
| LogInfo (message : string)
| LogError (message : string)
| SendLoggingMessage (level data : string)
| ActorStart (actorName : string) (memory : option Z)
| TrackerStart (runId : string)
| TrackerStop
| RunWaitForFinish (runId : string)
| RunAbort (runId : string) (gracefully : bool)
| InternalCall (toolName : string)
| McpConnect (serverUrl : string)
| McpCallTool (originToolName : string)
| McpClose.

(** A computation: the events in the order they happen, and the completion. *)
Definition Eff (A : Type) : Type := (list Event * Js.Completion Exn A)%type.

Definition ret {A} (a : A) : Eff A := ([], Js.Return a).
Definition throw {A} (e : Exn) : Eff A := ([], Js.Throw e).
Definition emit (ev : Event) : Eff unit := ([ev], Js.Return tt).
Definition lift {A} (c : Js.Completion Exn A) : Eff A := ([], c).

Definition bind {A B} (m : Eff A) (k : A -> Eff B) : Eff B :=
  match m with
  | (tr, Js.Return a) => let (tr', r) := k a in ((tr ++ tr')%list, r)
  | (tr, Js.Throw e) => (tr, Js.Throw e)
  end.

(** [try { body } catch (error) { handler }] *)
Definition tryCatch {A} (body : Eff A) (handler : Exn -> Eff A) : Eff A :=
  match body with
  | (tr, Js.Return a) => (tr, Js.Return a)
  | (tr, Js.Throw e) => let (tr', r) := handler e in ((tr ++ tr')%list, r)
  end.

(** [try { body } finally { final }], for a [final] that does not throw. *)
Definition tryFinally {A} (body : Eff A) (final : list Event) : Eff A :=
  ((fst body ++ final)%list, snd body).

Definition isRunAbort (ev : Event) : bool :=
  match ev with RunAbort _ _ => true | _ => false end.

Definition events {A} (m : Eff A) : list Event := fst m.
Definition completion {A} (m : Eff A) : Js.Completion Exn A := snd m.
End Effects.

Declare Scope eff_scope.
Delimit Scope eff_scope with eff.
Notation "x <~ c ;; k" := (Effects.bind c (fun x => k))
  (at level 61, c at next level, right associativity) : eff_scope.
Notation "c ;;; k" := (Effects.bind c (fun _ => k))
  (at level 61, right associativity) : eff_scope.

(** ** [src/tools/actor.ts] *)

Module ActorTools.
Import Types Const Effects.
Local Open Scope eff_scope.

(** The arguments of a call: a JSON object. *)
Inductive Json : Type :=
| JNull
| JBoolean (b : bool)
| JNumber (n : Z)
| JString (s : string)
| JArray (l : list Json)
| JObject (o : list (string * Json)).

Definition Args : Type := list (string * Json).

Record ActorRun : Type := mkRun { id : string; defaultDatasetId : string }.

Record CallActorGetDatasetResult : Type :=
  mkCallResult { runId : string; datasetId : string; itemCount : Z;
                 previewItems : list Json }.

(** What becomes of the [AbortSignal] of a call, seen from
    [callActorGetDataset].  The listener of the [abort] event is added
    once [actorClient.start] has returned; an [abort] event is dispatched
    once, when the signal is aborted, so that a listener added to a signal
    that is aborted already is never called.  [listenerFirst] tells whether
    the listener, which awaits the abort request before it resolves, is
    done before [waitForFinish] settles.  An abort after the race is
    settled has no influence on the result and is left out. *)
Inductive AbortSignal : Type :=
| NotAborted
| AbortedBeforeListening
| AbortedWhileWaiting (listenerFirst : bool).

(** The platform, as seen through [ApifyClient]. *)
Record Platform : Type :=
  mkPlatform {
      start : string -> Args -> option Z -> Js.Completion Exn ActorRun;
      waitForFinish : string -> Js.Completion Exn ActorRun;
      abort : string -> bool -> Js.Completion Exn unit;
      (** [dataset.listItems()], [defaultBuild().get()] and the preview
          computed from them *)
      collectOutput : ActorRun -> ActorRun -> Js.Completion Exn CallActorGetDatasetResult;
    }.

(** The listener of the [abort] event: the abort request, whose failure
    is logged and ignored. *)
Definition abortListener (platform : Platform) (actorRun : ActorRun) : Eff unit :=
  emit (RunAbort (id actorRun) false) ;;;
  match abort platform (id actorRun) false with
  | Js.Return _ => ret tt
  | Js.Throw _ => emit (LogError "Error aborting Actor run")
  end.

Definition processCompletedRun (platform : Platform) (actorRun : ActorRun)
  : Eff (option CallActorGetDatasetResult) :=
  completedRun <~ lift (waitForFinish platform (id actorRun)) ;;
  result <~ lift (collectOutput platform actorRun completedRun) ;;
  ret (Some result).

(** [callActorGetDataset]; [None] is [null]. *)
Definition callActorGetDataset (platform : Platform)
           (actorName : string) (input : Args) (callOptions : option Z)
           (progressTracker : bool) (abortSignal : option AbortSignal)
  : Eff (option CallActorGetDatasetResult) :=
  tryCatch
    (emit (ActorStart actorName callOptions) ;;;
     actorRun <~ lift (start platform actorName input callOptions) ;;
     (if progressTracker then emit (TrackerStart (id actorRun)) else ret tt) ;;;
     emit (RunWaitForFinish (id actorRun)) ;;;
     match abortSignal with
     | Some (AbortedWhileWaiting listenerFirst) =>
         abortListener platform actorRun ;;;
         if listenerFirst
         then emit (LogInfo "Actor run aborted by client") ;;; ret None
         else processCompletedRun platform actorRun
     | Some AbortedBeforeListening
     | Some NotAborted
     | None => processCompletedRun platform actorRun
     end)
    (fun error =>
       emit (LogError "Error calling Actor") ;;;
       throw (Error ("Error calling Actor: " ++ exnToString error))).

(** [ActorDefinitionPruned], with the fields read by [getNormalActorsAsTools]. *)
Record ActorDefinitionPruned : Type :=
  mkDefinition { definition_actorFullName : string;
                 defaultRunOptions_memoryMbytes : option Z }.

Definition actorToolOf (d : ActorDefinitionPruned) : ToolEntry :=
  let memoryMbytes :=
    match defaultRunOptions_memoryMbytes d with
    | Some m => if (m =? 0)%Z then ACTOR_MAX_MEMORY_MBYTES else m
    | None => ACTOR_MAX_MEMORY_MBYTES
    end in
  Actor {| actor_name := ToolsUtils.actorNameToToolName (definition_actorFullName d);
           actorFullName := definition_actorFullName d;
           memoryMbytes := if (ACTOR_MAX_MEMORY_MBYTES <? memoryMbytes)%Z
                           then ACTOR_MAX_MEMORY_MBYTES else memoryMbytes |}.

(** [getNormalActorsAsTools]; [compiles] tells whether [fixedAjvCompile]
    accepts the input schema of a definition, a definition whose schema is
    refused is skipped. *)
Definition getNormalActorsAsTools (compiles : ActorDefinitionPruned -> bool)
           (actorsInfo : list ActorDefinitionPruned) : list ToolEntry :=
  flat_map (fun d => if compiles d then [actorToolOf d] else []) actorsInfo.

End ActorTools.

(** ** [src/mcp/server.ts] *)

Module Server.
Import Types Const Effects ActorTools.
Local Open Scope eff_scope.

(** The registry and the handler of changes.  [handlerCalls] records the
    argument of every call of the handler, the oldest first. *)
Record ActorsMcpServer : Type :=
  mkServer { tools : list (string * ToolEntry);
             toolsChangedHandler : bool;
             handlerCalls : list (list string) }.

Definition listToolNames (s : ActorsMcpServer) : list string := Js.keys (tools s).

Definition listInternalToolNames (s : ActorsMcpServer) : list string :=
  flat_map (fun e => match e with Internal t => [helper_name t] | _ => [] end)
           (Js.values (tools s)).

Definition listActorToolNames (s : ActorsMcpServer) : list string :=
  flat_map (fun e => match e with Actor t => [actorFullName t] | _ => [] end)
           (Js.values (tools s)).

(** [Array.from(new Set(ids))] *)
Fixpoint unique (seen ids : list string) : list string :=
  match ids with
  | [] => []
  | x :: r => if existsb (String.eqb x) seen then unique seen r
              else x :: unique (x :: seen) r
  end.

Definition listActorMcpServerToolIds (s : ActorsMcpServer) : list string :=
  unique [] (flat_map (fun e => match e with ActorMcp t => [actorId t] | _ => [] end)
                      (Js.values (tools s))).

Definition listAllToolNames (s : ActorsMcpServer) : list string :=
  (listInternalToolNames s ++ listActorToolNames s ++ listActorMcpServerToolIds s)%list.

Definition notifyToolsChangedHandler (s : ActorsMcpServer) : ActorsMcpServer :=
  if toolsChangedHandler s
  then mkServer (tools s) true (handlerCalls s ++ [listAllToolNames s])%list
  else s.

Definition upsertTools (entries : list ToolEntry) (shouldNotifyToolsChangedHandler : bool)
           (s : ActorsMcpServer) : ActorsMcpServer :=
  let s' := mkServer (fold_left (fun m wrap => Js.set (name wrap) wrap m) entries (tools s))
                     (toolsChangedHandler s) (handlerCalls s) in
  if shouldNotifyToolsChangedHandler then notifyToolsChangedHandler s' else s'.

Definition removeToolByName (toolName : string) (s : ActorsMcpServer)
  : bool * ActorsMcpServer :=
  if Js.has toolName (tools s)
  then (true, mkServer (Js.delete toolName (tools s))
                       (toolsChangedHandler s) (handlerCalls s))
  else (false, s).

Fixpoint removeLoop (toolNames removedTools : list string) (s : ActorsMcpServer)
  : list string * ActorsMcpServer :=
  match toolNames with
  | [] => (removedTools, s)
  | toolName :: rest =>
      let (removed, s') := removeToolByName toolName s in
      removeLoop rest (if removed then removedTools ++ [toolName] else removedTools)%list s'
  end.

Definition removeToolsByName (toolNames : list string)
           (shouldNotifyToolsChangedHandler : bool) (s : ActorsMcpServer)
  : list string * ActorsMcpServer :=
  let (removedTools, s') := removeLoop toolNames [] s in
  match removedTools with
  | _ :: _ =>
      (removedTools,
       if shouldNotifyToolsChangedHandler then notifyToolsChangedHandler s' else s')
  | [] => (removedTools, s')
  end.

(** *** The handler of [tools/call] *)

Inductive Content : Type := Text (text : string).

(** A result; [{ }] has no [content]. *)
Record CallToolResult : Type := mkResult { content : option (list Content) }.

Record CallToolRequest : Type :=
  mkRequest { request_name : string;
              arguments : option Args;
              progressToken : option string;
              apifyToken : option string }.

(** What the handler obtains from outside the sources. *)
Record Env : Type :=
  mkEnv { APIFY_TOKEN : option string;
          ajvValidate : ToolEntry -> Args -> bool;
          stringifyArgs : Args -> string;
          stringifyErrors : ToolEntry -> Args -> string;
          internalCall : HelperTool -> Args -> Js.Completion Exn CallToolResult;
          connectMCPClient : string -> Js.Completion Exn unit;
          callTool : ActorMcpTool -> Args -> Js.Completion Exn CallToolResult;
          platform : Platform;
          buildActorResponseContent : string -> CallActorGetDatasetResult -> list Content }.

(** [a || b] on optional strings: the empty string is falsy. *)
Definition orElse (a b : option string) : option string :=
  match a with
  | Some (String _ _) => a
  | _ => b
  end.

(** The removal of the prefix that some clients put before the name. *)
Definition normalizeToolName (name : string) : string :=
  if Js.startsWith "local__" name
  then
    let parts := Js.split2u name in
    if (1 <? List.length parts)%nat then last parts name else name
  else name.

(** [Array.from(this.tools.values()).find(...)] *)
Definition findTool (name : string) (s : ActorsMcpServer) : option ToolEntry :=
  find (fun t => String.eqb (Types.name t) name
                 || match t with
                    | Actor a => String.eqb (actorFullName a) name
                    | _ => false
                    end)
       (Js.values (tools s)).

Definition invalidParams {A} (msg : string) : Eff A :=
  emit (LogError msg) ;;;
  emit (SendLoggingMessage "error" msg) ;;;
  throw (McpError InvalidParams msg).

(** [createProgressTracker(progressToken, extra.sendNotification)] is not
    [null] when the token is truthy. *)
Definition createProgressTracker (progressToken : option string) : bool :=
  match progressToken with
  | Some (String _ _) => true
  | _ => false
  end.

(** The body of the [try] block.  The three shapes of an entry are all
    there are, the statements after the block are not reached. *)
Definition callByType (env : Env) (tool : ToolEntry) (args : Args)
           (token : string) (progressToken : option string)
           (signal : option AbortSignal) : Eff CallToolResult :=
  match tool with
  | Internal internalTool =>
      let progressTracker :=
        if String.eqb (helper_name internalTool) "call-actor"
        then createProgressTracker progressToken else false in
      emit (LogInfo "Calling internal tool") ;;;
      emit (InternalCall (helper_name internalTool)) ;;;
      res <~ lift (internalCall env internalTool args) ;;
      (if progressTracker then emit TrackerStop else ret tt) ;;;
      ret res
  | ActorMcp serverTool =>
      emit (McpConnect (serverUrl serverTool)) ;;;
      _ <~ lift (connectMCPClient env (serverUrl serverTool)) ;;
      tryFinally
        (emit (LogInfo "Calling Actor-MCP") ;;;
         emit (McpCallTool (originToolName serverTool)) ;;;
         res <~ lift (callTool env serverTool args) ;;
         ret res)
        [McpClose]
  | Actor actorTool =>
      let progressTracker := createProgressTracker progressToken in
      let callOptions := Some (memoryMbytes actorTool) in
      tryFinally
        (emit (LogInfo "Calling Actor") ;;;
         callResult <~ callActorGetDataset (platform env) (actorFullName actorTool)
                       args callOptions progressTracker signal ;;
         match callResult with
         | None => ret (mkResult None)
         | Some r =>
             ret (mkResult (Some (buildActorResponseContent env (actorFullName actorTool) r)))
         end)
        (if progressTracker then [TrackerStop] else [])
  end.

(** The [catch] clause of the handler. *)
Definition onError (name : string) (error : Exn) : Eff CallToolResult :=
  match error with
  | ApifyApiError message =>
      emit (LogError "Apify API error calling tool") ;;;
      ret (mkResult (Some [Text ("Apify API error calling tool " ++ name ++ ": " ++ message)]))
  | _ =>
      emit (LogError "Error calling tool") ;;;
      throw (McpError InternalError "An error occurred while calling the tool.")
  end.

(** The handler of [CallToolRequestSchema]; [signal] is [extra.signal]. *)
Definition callToolHandler (s : ActorsMcpServer) (env : Env)
           (request : CallToolRequest) (signal : option AbortSignal)
  : Eff CallToolResult :=
  match orElse (apifyToken request) (APIFY_TOKEN env) with
  | None | Some EmptyString =>
      invalidParams "APIFY_TOKEN is required. It must be set in the environment variables or passed as a parameter in the body."
  | Some token =>
      (if Js.startsWith "local__" (request_name request)
       then emit (LogDebug "Tool name with prefix detected") else ret tt) ;;;
      let name := normalizeToolName (request_name request) in
      match findTool name s with
      | None =>
          invalidParams ("Tool " ++ name ++ " not found. Available tools: "
                         ++ Js.join ", " (listToolNames s))
      | Some tool =>
          match arguments request with
          | None => invalidParams ("Missing arguments for tool " ++ name)
          | Some args =>
              let args := ToolsUtils.decodeDotPropertyNames args in
              emit (LogDebug "Validate arguments for tool") ;;;
              if negb (ajvValidate env tool args)
              then invalidParams ("Invalid arguments for tool " ++ Types.name tool
                                  ++ ": args: " ++ stringifyArgs env args
                                  ++ " error: " ++ stringifyErrors env tool args)
              else tryCatch (callByType env tool args token (progressToken request) signal)
                            (onError name)
          end
      end
  end.

End Server.

(** ** A session, for the examples *)

Module Scenario.
Import Types Tools ActorTools Server.

Definition ragWebBrowser : ActorDefinitionPruned :=
  mkDefinition "apify/rag-web-browser" (Some 1024%Z).

(** A server with the default tools and the default Actor. *)
Definition server : ActorsMcpServer :=
  upsertTools (getExpectedToolsByCategories toolCategoriesEnabledByDefault
               ++ getNormalActorsAsTools (fun _ => true) [ragWebBrowser]
               ++ [getActorOutput])%list
              false (mkServer [] false []).

Definition run : ActorRun := mkRun "run-1" "dataset-1".

(** A platform on which the run succeeds with one item. *)
Definition platformOk : Platform :=
  mkPlatform (fun _ _ _ => Js.Return run)
             (fun _ => Js.Return run)
             (fun _ _ => Js.Return tt)
             (fun _ _ => Js.Return (mkCallResult "run-1" "dataset-1" 1 [JString "item"])).

(** A platform that refuses to start the run. *)
Definition platformRefusing : Platform :=
  mkPlatform (fun _ _ _ => Js.Throw (ApifyApiError "By launching this job you will exceed the memory limit"))
             (fun _ => Js.Return run)
             (fun _ _ => Js.Return tt)
             (fun _ _ => Js.Return (mkCallResult "run-1" "dataset-1" 1 [JString "item"])).

Definition envWith (platform : Platform) : Env :=
  mkEnv None (fun _ _ => true) (fun _ => "{}") (fun _ _ => "[]")
        (fun _ _ => Js.Return (mkResult (Some [Text "done"])))
        (fun _ => Js.Return tt)
        (fun _ _ => Js.Return (mkResult (Some [Text "proxied"])))
        platform
        (fun _ result => [Text "preview"; Text "summary"]).

Definition request : CallToolRequest :=
  mkRequest "apify-slash-rag-web-browser" (Some [("query", JString "rocq")])
            None (Some "apify_api_token").

(** Two values of [Date.now()], in milliseconds, and a time to live of
    [2^-40] seconds. *)
Definition earlier : float := 1699999000000%float.
Definition clock : float := 1700000000000%float.
Definition shortTtlSecs : float := 0x1p-40%float.

End Scenario.

(** ** More JavaScript string primitives *)

Module JsText.

(** [s.split(c)] for a separator of one unit; the result has at least one
    part. *)
Fixpoint splitChar (c : ascii) (s : string) : list string :=
  match s with
  | EmptyString => [EmptyString]
  | String a r =>
      if Ascii.eqb a c then EmptyString :: splitChar c r
      else match splitChar c r with
           | h :: t => String a h :: t
           | [] => [String a EmptyString]
           end
  end.

(** [s.toLowerCase()] on the units below 256: the letters [A]-[Z] and the
    capital letters of Latin-1. *)
Definition toLowerUnit (a : ascii) : ascii :=
  let n := nat_of_ascii a in
  if (((65 <=? n) && (n <=? 90))
      || ((192 <=? n) && (n <=? 222) && negb (n =? 215)))%nat
  then ascii_of_nat (n + 32) else a.

Fixpoint toLowerCase (s : string) : string :=
  match s with
  | EmptyString => EmptyString
  | String a r => String (toLowerUnit a) (toLowerCase r)
  end.

(** A string without white space at its start. *)
Definition noLeadingSpace (s : string) : bool :=
  match s with
  | EmptyString => true
  | String a _ => negb (Js.isSpace a)
  end.

End JsText.

(** ** [src/input.ts] *)

Module InputProcessing.

(** A value of unknown type, as far as [toBoolean] tells values apart. *)
Inductive Unknown : Type :=
| UUndefined
| UBoolean (b : bool)
| UString (s : string)
| UOther.

Definition toBoolean (value : Unknown) (defaultValue : bool) : bool :=
  match value with
  | UUndefined => defaultValue
  | UBoolean b => b
  | UString s => String.eqb (JsText.toLowerCase s) "true"
  | UOther => defaultValue
  end.

Definition normalizeList (value : option Types.StringOrArray) : option (list string) :=
  match value with
  | None => None
  | Some (Types.Arr l) =>
      Some (filter (fun s => negb (String.eqb s "")) (map Js.trim l))
  | Some (Types.Str s) =>
      let trimmed := Js.trim s in
      if String.eqb trimmed "" then Some []
      else Some (filter (fun s => negb (String.eqb s ""))
                        (map Js.trim (JsText.splitChar "," trimmed)))
  end.

(** [Partial<Input>], with the fields that [processInput] reads; the other
    fields are copied as they are. *)
Record PartialInput : Type :=
  mkPartial { actors : option Types.StringOrArray;
              enableActorAutoLoading : option Types.BooleanOrString;
              enableAddingActors : option Types.BooleanOrString;
              tools : option Types.StringOrArray }.

Definition unknownOf (v : option Types.BooleanOrString) : Unknown :=
  match v with
  | None => UUndefined
  | Some (Types.Bool b) => UBoolean b
  | Some (Types.BoolStr s) => UString s
  end.

Definition processInput (originalInput : PartialInput) : PartialInput :=
  let actors' := normalizeList (actors originalInput) in
  let enableAddingActors' :=
    match enableAddingActors originalInput, enableActorAutoLoading originalInput with
    | None, Some legacy => toBoolean (unknownOf (Some legacy)) false
    | flag, _ => toBoolean (unknownOf flag) false
    end in
  let tools' := normalizeList (tools originalInput) in
  let tools'' :=
    match actors' with
    | Some (a :: r) =>
        match tools' with
        | None => Some (a :: r)
        | Some currentTools => Some (currentTools ++ a :: r)%list
        end
    | _ => tools'
    end in
  {| actors :=
       match actors', tools'' with
       | Some (_ :: _), Some _ => None
       | _, _ => option_map Types.Arr actors'
       end;
     enableActorAutoLoading := enableActorAutoLoading originalInput;
     enableAddingActors := Some (Types.Bool enableAddingActors');
     tools := option_map Types.Arr tools'' |}.

(** The fields of a processed input that the loader reads. *)
Definition toInput (input : PartialInput) : Types.Input :=
  Types.mkInput (actors input) (enableAddingActors input) (tools input).

End InputProcessing.

(** ** [src/utils/generic.ts] and [src/mcp/actors.ts]: lists of paths *)

Module McpPaths.

Definition MCP_STREAMABLE_ENDPOINT : string := "/mcp".

(** [parseCommaSeparatedList]; [None] is [undefined]. *)
Definition parseCommaSeparatedList (input : option string) : list string :=
  match input with
  | None | Some EmptyString => []
  | Some s =>
      filter (fun x => negb (String.length x =? 0)%nat)
             (map Js.trim (JsText.splitChar "," s))
  end.

(** What [getActorMCPServerPath] returns: its declared type is
    [string | null], and [paths[0]] of an empty list is [undefined]. *)
Inductive ServerPath : Type :=
| PathNull
| PathUndefined
| Path (path : string).

(** [getActorMCPServerPath], from the field [webServerMcpPath] of the
    definition ([None] when the field is absent or not a string). *)
Definition getActorMCPServerPath (webServerMcpPath : option string) : ServerPath :=
  match webServerMcpPath with
  | None => PathNull
  | Some raw =>
      let paths := parseCommaSeparatedList (Some (Js.trim raw)) in
      match paths with
      | [only] => Path only
      | _ =>
          match find (fun path => String.eqb path MCP_STREAMABLE_ENDPOINT) paths with
          | Some (String a r) => Path (String a r)
          | _ =>
              match paths with
              | first :: _ => Path first
              | [] => PathUndefined
              end
          end
      end
  end.

End McpPaths.

(** ** [src/mcp/server.ts]: loading tools by name *)

Module ServerLoading.
Import Types Tools Server.

(** [defaultTools] of [src/tools/index.ts] *)
Definition defaultTools : list ToolEntry :=
  getExpectedToolsByCategories toolCategoriesEnabledByDefault.

(** [new Map([...defaultTools, ...Object.values(toolCategories).flat()]
    .map((tool) => [tool.tool.name, tool]))] *)
Definition internalToolMap : list (string * ToolEntry) :=
  fold_left (fun m tool => Js.set (name tool) tool m)
            (defaultTools ++ concat (Js.values toolCategories))%list [].

(** The loop of [loadToolsByName], with its accumulators [toolsToLoad] and
    [actorsToLoad]. *)
Fixpoint selectMissing (loadedTools toolNames : list string)
         (toolsToLoad : list ToolEntry) (actorsToLoad : list string)
  : list ToolEntry * list string :=
  match toolNames with
  | [] => (toolsToLoad, actorsToLoad)
  | tool :: rest =>
      if existsb (String.eqb tool) loadedTools
      then selectMissing loadedTools rest toolsToLoad actorsToLoad
      else
        match Js.get tool internalToolMap with
        | Some entry =>
            selectMissing loadedTools rest (toolsToLoad ++ [entry])%list actorsToLoad
        | None =>
            selectMissing loadedTools rest toolsToLoad (actorsToLoad ++ [tool])%list
        end
  end.

Section Loading.
Variable getActorsAsTools : list string -> Js.Completion Exn (list ToolEntry).

(** [loadActorsAsTools]: the server afterwards, and the completion. *)
Definition loadActorsAsTools (actorIdsOrNames : list string) (s : ActorsMcpServer)
  : ActorsMcpServer * Js.Completion Exn (list ToolEntry) :=
  match getActorsAsTools actorIdsOrNames with
  | Js.Return actorTools =>
      (match actorTools with
       | _ :: _ => upsertTools actorTools true s
       | [] => s
       end, Js.Return actorTools)
  | Js.Throw e => (s, Js.Throw e)
  end.

(** [loadToolsByName]: the server afterwards, and the completion. *)
Definition loadToolsByName (toolNames : list string) (s : ActorsMcpServer)
  : ActorsMcpServer * Js.Completion Exn unit :=
  let loadedTools := listAllToolNames s in
  let (toolsToLoad, actorsToLoad) := selectMissing loadedTools toolNames [] [] in
  let s1 := match toolsToLoad with
            | _ :: _ => upsertTools toolsToLoad false s
            | [] => s
            end in
  match actorsToLoad with
  | _ :: _ =>
      let (s2, c) := loadActorsAsTools actorsToLoad s1 in
      (s2, _ <- c ;; Js.Return tt)
  | [] => (s1, Js.Return tt)
  end.
End Loading.

End ServerLoading.

(** ** Kinds of events *)

Module Trace.
Import Effects.

(** The events that are a call of a tool: of an internal tool, of an
    Actor, or through a connection to the MCP server of an Actor. *)
Definition isToolCall (ev : Event) : bool :=
  match ev with
  | InternalCall _ | ActorStart _ _ | McpConnect _ | McpCallTool _ => true
  | _ => false
  end.

Definition isMcpClose (ev : Event) : bool :=
  match ev with McpClose => true | _ => false end.

Definition isTrackerStop (ev : Event) : bool :=
  match ev with TrackerStop => true | _ => false end.

Definition isLoggingMessage (ev : Event) : bool :=
  match ev with SendLoggingMessage _ _ => true | _ => false end.

End Trace.

(** ** JavaScript values, for the items of a dataset *)

Module JsValue.

Inductive Value : Type :=
| VUndefined
| VNull
| VBoolean (b : bool)
| VNumber (n : Z)
| VString (s : string)
| VArray (elements : list Value)
| VObject (properties : list (string * Value)).

Definition isUndefined (v : Value) : bool :=
  match v with VUndefined => true | _ => false end.

(** [Array.isArray(v)] *)
Definition isArray (v : Value) : bool :=
  match v with VArray _ => true | _ => false end.

(** [o[k] = v] on an object that was made by [{}] and filled by such
    assignments only: the name [__proto__] reaches the setter of
    [Object.prototype] and makes no property. *)
Definition assign (k : string) (v : Value) (o : list (string * Value))
  : list (string * Value) :=
  if String.eqb k "__proto__" then o else Js.set k v o.

Definition digit (a : ascii) : option nat :=
  let n := nat_of_ascii a in
  if ((48 <=? n) && (n <=? 57))%nat then Some (n - 48) else None.

Fixpoint parseDigits (acc : nat) (s : string) : option nat :=
  match s with
  | EmptyString => Some acc
  | String a r =>
      match digit a with
      | Some d => parseDigits (10 * acc + d) r
      | None => None
      end
  end.

(** The index that a property name of an array stands for: a decimal
    numeral without leading zero. *)
Definition arrayIndex (segment : string) : option nat :=
  match segment with
  | EmptyString => None
  | String a r =>
      if Ascii.eqb a "0"
      then match r with EmptyString => Some 0 | _ => None end
      else parseDigits 0 segment
  end.

(** [current !== null && typeof current === 'object' &&
    Object.prototype.hasOwnProperty.call(current, segment)], and then
    [current[segment]]; [None] when the test fails.  The own properties of
    an array are its indices and [length]. *)
Definition ownProperty (current : Value) (segment : string) : option Value :=
  match current with
  | VObject o => Js.get segment o
  | VArray l =>
      if String.eqb segment "length" then Some (VNumber (Z.of_nat (List.length l)))
      else match arrayIndex segment with
           | Some i => nth_error l i
           | None => None
           end
  | _ => None
  end.

End JsValue.

(** ** [src/utils/generic.ts], [src/utils/actor.ts] and
    [src/tools/get-actor-output.ts]: the output of an Actor *)

Module ActorOutput.
Import JsValue.

(** The inner loop of [getValuesByDotKeys], over the segments of a key. *)
Fixpoint walk (current : Value) (path : list string) : Value :=
  match path with
  | [] => current
  | segment :: rest =>
      match ownProperty current segment with
      | Some v => walk v rest
      | None => VUndefined
      end
  end.

(** The properties of the result are listed in the order in which the
    loop makes them; the engine lists the keys that are array indices
    before the other keys. *)
Definition getValuesByDotKeys (obj : Value) (keys : list string)
  : list (string * Value) :=
  fold_left (fun result key => assign key (walk obj (JsText.splitChar "." key)) result)
            keys [].

(** [result.concat(item)]: an array is spread. *)
Definition concat (result : list Value) (item : Value) : list Value :=
  match item with
  | VArray l => (result ++ l)%list
  | _ => (result ++ [item])%list
  end.

Section Limit.
(** [JSON.stringify(items).length] *)
Variable stringifyLength : list Value -> nat.

(** The last loop of [ensureOutputWithinCharLimit]. *)
Fixpoint fill (charLimit : nat) (sourceItems result : list Value) : list Value :=
  match sourceItems with
  | [] => result
  | item :: rest =>
      if (charLimit <? stringifyLength (concat result item))%nat then result
      else fill charLimit rest (result ++ [item])%list
  end.

Definition ensureOutputWithinCharLimit (items : list Value)
           (importantFields : list string) (charLimit : nat) : list Value :=
  if (stringifyLength items <=? charLimit)%nat then items
  else
    match importantFields with
    | [] => fill charLimit items []
    | _ :: _ =>
        let importantItems :=
          map (fun item => VObject (getValuesByDotKeys item importantFields)) items in
        if (stringifyLength importantItems <=? charLimit)%nat then importantItems
        else fill charLimit importantItems []
    end.
End Limit.

(** [cleanEmptyProperties]; the result [undefined] is [VUndefined]. *)
Fixpoint cleanEmptyProperties (obj : Value) : Value :=
  match obj with
  | VNull | VUndefined => VUndefined
  | VString EmptyString => VUndefined
  | VBoolean _ | VNumber _ | VString _ => obj
  | VArray l =>
      match filter (fun item => negb (isUndefined item)) (map cleanEmptyProperties l) with
      | [] => VUndefined
      | cleaned => VArray cleaned
      end
  | VObject o =>
      match fold_left (fun cleaned kv =>
                         let cleanedValue := cleanEmptyProperties (snd kv) in
                         if isUndefined cleanedValue then cleaned
                         else assign (fst kv) cleanedValue cleaned) o [] with
      | [] => VUndefined
      | cleaned => VObject cleaned
      end
  end.

(** A value without an empty part at any depth: no [null], [undefined],
    empty string, empty array or empty object. *)
Fixpoint noEmpty (v : Value) : bool :=
  match v with
  | VNull | VUndefined => false
  | VString EmptyString => false
  | VBoolean _ | VNumber _ | VString _ => true
  | VArray l => match l with [] => false | _ => forallb noEmpty l end
  | VObject o => match o with [] => false | _ => forallb (fun kv => noEmpty (snd kv)) o end
  end.

Fixpoint distinct (l : list string) : bool :=
  match l with
  | [] => true
  | x :: r => negb (existsb (String.eqb x) r) && distinct r
  end.

(** The objects of the value, at any depth, are such as the assignments
    of [cleanEmptyProperties] can make: the property names are distinct, as
    they are in every JavaScript object, and none of them is [__proto__]. *)
Fixpoint plainObjects (v : Value) : bool :=
  match v with
  | VArray l => forallb plainObjects l
  | VObject o =>
      distinct (Js.keys o)
      && negb (existsb (String.eqb "__proto__") (Js.keys o))
      && forallb (fun kv => plainObjects (snd kv)) o
  | _ => true
  end.

End ActorOutput.

(** ** [src/tools/utils.ts]: the mark of the required properties *)

Module SchemaMarking.
Import ToolsUtils.

Definition markRequired (p : ISchemaProperties) : ISchemaProperties :=
  mkProperty (type_ p) (title p) ("**REQUIRED** " ++ description p) (enum p) (items p).

(** [markInputPropertiesAsRequired]; [required] is [None] when the schema
    has no such field. *)
Definition markInputPropertiesAsRequired (required : option (list string))
           (properties : list (string * ISchemaProperties))
  : list (string * ISchemaProperties) :=
  let required := match required with Some r => r | None => [] end in
  fold_left (fun properties property =>
               if existsb (String.eqb property) required
               then match Js.get property properties with
                    | Some p => Js.set property (markRequired p) properties
                    | None => properties
                    end
               else properties)
            (Js.keys properties) properties.

End SchemaMarking.

(** ** [src/utils/progress.ts] *)

Module Progress.

(** What [client.run(runId).get()] gives of a run. *)
Record RunInfo : Type := mkRunInfo { status : string; statusMessage : option string }.

(** A [ProgressTracker] between two ticks of its interval, with the
    variables [lastStatus] and [lastStatusMessage] of the closure;
    [polling] tells whether [intervalId] is set. *)
Record ProgressTracker : Type :=
  mkTracker { currentProgress : nat;
              polling : bool;
              lastStatus : string;
              lastStatusMessage : string }.

(** A notification: [progress] and [message]. *)
Definition Notification : Type := (nat * string)%type.

Definition startActorRunUpdates (t : ProgressTracker) : ProgressTracker :=
  mkTracker (currentProgress t) true "" "".

Definition stop (t : ProgressTracker) : ProgressTracker :=
  mkTracker (currentProgress t) false (lastStatus t) (lastStatusMessage t).

Definition isFinished (status : string) : bool :=
  String.eqb status "SUCCEEDED" || String.eqb status "FAILED"
  || String.eqb status "ABORTED" || String.eqb status "TIMED-OUT".

(** [statusMessage !== lastStatusMessage] *)
Definition messageChanged (statusMessage : option string) (lastStatusMessage : string)
  : bool :=
  match statusMessage with
  | Some m => negb (String.eqb m lastStatusMessage)
  | None => true
  end.

(** One tick of the interval, for the answer of [client.run(runId).get()];
    a failure of [sendNotification] is swallowed by [updateProgress]. *)
Definition tick (actorName : string) (answer : Js.Completion Types.Exn (option RunInfo))
           (t : ProgressTracker) : list Notification * ProgressTracker :=
  match answer with
  | Js.Throw _ => ([], t)
  | Js.Return None => ([], t)
  | Js.Return (Some run) =>
      if negb (String.eqb (status run) (lastStatus t))
         || messageChanged (statusMessage run) (lastStatusMessage t)
      then
        let lastStatusMessage' :=
          match statusMessage run with
          | Some (String a r) => String a r
          | _ => EmptyString
          end in
        let message :=
          match statusMessage run with
          | Some (String a r) => actorName ++ ": " ++ String a r
          | _ => actorName ++ ": " ++ status run
          end in
        let progress := S (currentProgress t) in
        ([(progress, message)],
         mkTracker progress
                   (if isFinished (status run) then false else polling t)
                   (status run) lastStatusMessage')
      else ([], t)
  end.

(** The ticks of the interval, one after the other, until it is cleared. *)
Fixpoint ticks (actorName : string)
         (answers : list (Js.Completion Types.Exn (option RunInfo)))
         (t : ProgressTracker) : list Notification * ProgressTracker :=
  match answers with
  | [] => ([], t)
  | answer :: rest =>
      if polling t
      then let (sent, t') := tick actorName answer t in
           let (sent', t'') := ticks actorName rest t' in
           ((sent ++ sent')%list, t'')
      else ([], t)
  end.

End Progress.

(** ** [src/tools/helpers.ts]: the tool [add-actor] *)

Module AddActor.
Import Types Server ServerLoading.

Definition text (s : string) : CallToolResult := mkResult (Some [Text s]).

(** What a call of the tool leaves behind: the server, whether
    [notifications/tools/list_changed] was sent, and the completion. *)
Record Outcome : Type :=
  mkOutcome { server : ActorsMcpServer;
              listChanged : bool;
              completion : Js.Completion Exn CallToolResult }.

Section Call.
Variable getActorsAsTools : list string -> Js.Completion Exn (list ToolEntry).
(** [sendNotification] of the request *)
Variable sendNotification : Js.Completion Exn unit.

(** [addTool.tool.call], once the arguments are parsed. *)
Definition call (actor : string) (s : ActorsMcpServer) : Outcome :=
  if existsb (String.eqb actor) (listAllToolNames s)
  then mkOutcome s false
         (Js.Return (text ("Actor " ++ actor
                           ++ " is already available. No new tools were added.")))
  else
    let (s', loaded) := loadActorsAsTools getActorsAsTools [actor] s in
    match loaded with
    | Js.Throw e => mkOutcome s' false (Js.Throw e)
    | Js.Return [] =>
        mkOutcome s' false
          (Js.Return (text ("Actor " ++ actor ++ " not found, no tools were added.")))
    | Js.Return tools =>
        mkOutcome s' true
          (_ <- sendNotification ;;
           Js.Return (text ("Actor " ++ actor ++ " has been added. Newly available tools: "
                            ++ Js.join ", " (map name tools) ++ ".")))
    end.
End Call.

End AddActor.

(** ** [src/mcp/const.ts] and [src/mcp/server.ts]: the level of the log *)

Module Logging.

Definition LOG_LEVEL_MAP : list (string * Z) :=
  [ ("debug", 0%Z); ("info", 1%Z); ("notice", 2%Z); ("warning", 3%Z);
    ("error", 4%Z); ("critical", 5%Z); ("alert", 6%Z); ("emergency", 7%Z) ].

Section Filter.

(** The text that the engine gives for a built-in function, after the word
    [function] with which the text of every function begins; the rest is
    left to the engine. *)
Variable nativeSource : string -> string.

(** [LOG_LEVEL_MAP[level]]: a number, a member of [Object.prototype], or
    [undefined].  [LOG_LEVEL_MAP] is a plain object, so that a level that
    names a member of the prototype finds this member.  A comparison
    takes a member as its text: the member [__proto__] is the prototype
    itself, with the text [[object Object]]; the other members are
    built-in functions. *)
Inductive LevelValue : Type :=
| Level (n : Z)
| Member (text : string)
| Absent.

Definition memberText (level : string) : string :=
  if String.eqb level "__proto__" then "[object Object]"
  else "function" ++ nativeSource level.

Definition levelValue (level : string) : LevelValue :=
  match Js.get level LOG_LEVEL_MAP with
  | Some n => Level n
  | None => if existsb (String.eqb level) Tools.objectPrototypeKeys
            then Member (memberText level) else Absent
  end.

(** The test of the proxy of [sendLoggingMessage]:
    [messageLevelValue >= currentLevelValue].  Two numbers are compared as
    numbers.  Two members are both strings once they are taken as
    primitive values, and strings are compared unit by unit.  A number
    and a member are compared as numbers, and the text of a member is not
    the text of a number: the comparison is false. *)
Definition forwards (currentLogLevel level : string) : bool :=
  let messageLevelValue :=
    match levelValue level with Absent => Level (-1) | v => v end in
  let currentLevelValue :=
    match levelValue currentLogLevel with Absent => Level 1 | v => v end in
  match messageLevelValue, currentLevelValue with
  | Level m, Level c => (c <=? m)%Z
  | Member m, Member c => String.leb c m
  | _, _ => false
  end.

(** The handler of [logging/setLevel]: the level afterwards. *)
Definition setLevel (level currentLogLevel : string) : string :=
  match levelValue level with
  | Absent => currentLogLevel
  | _ => level
  end.

(** The messages that reach the client, of the events of a handler. *)
Definition forwarded (currentLogLevel : string) (trace : list Effects.Event)
  : list Effects.Event :=
  filter (fun ev => match ev with
                    | Effects.SendLoggingMessage level _ => forwards currentLogLevel level
                    | _ => false
                    end) trace.

End Filter.

End Logging.

(** ** [src/tools/get-actor-output.ts]: the tool [get-actor-output] *)

Module GetActorOutput.
Import Types Server JsValue ActorOutput.

#[local] Set Warnings "-abstract-large-number".
Definition TOOL_MAX_OUTPUT_CHARS : nat := 80000.

(** A line feed, and a double quote. *)
Definition LF : string := String (ascii_of_nat 10) EmptyString.
Definition QUOTE : string := String (ascii_of_nat 34) EmptyString.

Definition truncationNotice : string :=
  LF ++ LF ++ "[Output was truncated to 80000 characters to comply with the tool output limits.]".

(** The fields asked from the platform: only top-level fields can be
    filtered there. *)
Definition apiFields (fieldsArray : list string) : option (list string) :=
  let hasDot := existsb (Js.includesChar ".") fieldsArray in
  match fieldsArray with
  | _ :: _ => if negb hasDot then Some fieldsArray else None
  | [] => None
  end.

(** The items of the answer, reduced to the fields and cleaned. *)
Definition cleanedItems (fieldsArray : list string) (items : list Value) : list Value :=
  let items :=
    match fieldsArray with
    | _ :: _ => map (fun item => VObject (getValuesByDotKeys item fieldsArray)) items
    | [] => items
    end in
  filter (fun item => negb (isUndefined item)) (map cleanEmptyProperties items).

Section Call.
(** [JSON.stringify] *)
Variable stringify : list Value -> string.
(** [client.dataset(datasetId).listItems({ offset, limit, fields, clean })];
    [None] is a falsy answer. *)
Variable listItems : string -> Z -> Z -> option (list string)
                     -> Js.Completion Exn (option (list Value)).

(** [getActorOutput.tool.call], once the arguments are parsed. *)
Definition call (datasetId : string) (fields : option string) (offset limit : Z)
  : Js.Completion Exn CallToolResult :=
  let fieldsArray := McpPaths.parseCommaSeparatedList fields in
  response <- listItems datasetId offset limit (apiFields fieldsArray) ;;
  match response with
  | None =>
      Js.Return (mkResult (Some [Text ("Dataset '" ++ datasetId ++ "' not found.")]))
  | Some items =>
      let outputText := stringify (cleanedItems fieldsArray items) in
      Js.Return
        (mkResult
           (Some [Text (if (TOOL_MAX_OUTPUT_CHARS <? String.length outputText)%nat
                        then Js.slice0 TOOL_MAX_OUTPUT_CHARS outputText ++ truncationNotice
                        else outputText)]))
  end.
End Call.

End GetActorOutput.

(** ** [src/tools/actor.ts]: the tool [call-actor] *)

Module CallActorTool.
Import Types Effects ActorTools Server.
Local Open Scope eff_scope.

Inductive Step : Type := info | call.

(** The arguments once parsed; of [callOptions], the memory. *)
Record CallActorArgs : Type :=
  mkArgs { actor : string;
           step : Step;
           input : option Args;
           callOptions : option Z }.

Definition text (s : string) : CallToolResult := mkResult (Some [Text s]).

Section Call.
(** [fetchActorDetails], of which the tool reads
    [JSON.stringify(details.inputSchema, null, 0)]; [None] is [null]. *)
Variable fetchActorDetails : string -> Js.Completion Exn (option string).
Variable getActorsAsTools : list string -> Js.Completion Exn (list ToolEntry).
(** [actor.tool.ajvValidate(input)] and, of its [errors], the messages
    (none when [errors] is [null]) *)
Variable validate : ToolEntry -> Args -> bool.
Variable errorMessages : ToolEntry -> Args -> list string.
(** [JSON.stringify(actor.tool.inputSchema)] *)
Variable schemaText : ToolEntry -> string.
(** [error instanceof Error ? error.message : String(error)] *)
Variable messageOf : Exn -> string.
Variable platform : Platform.
Variable buildActorResponseContent : string -> CallActorGetDatasetResult -> list Content.

(** [callActor.tool.call], once the arguments are parsed. *)
Definition callActorCall (args : CallActorArgs) (progressTracker : bool)
           (signal : option AbortSignal) : Eff CallToolResult :=
  let actorName := actor args in
  tryCatch
    (match step args with
     | info =>
         details <~ lift (fetchActorDetails actorName) ;;
         match details with
         | None =>
             ret (text ("Actor information for '" ++ actorName
                        ++ "' was not found. Please check the Actor ID or name and ensure the Actor exists."))
         | Some inputSchema =>
             ret (text ("**Input Schema:**" ++ GetActorOutput.LF ++ inputSchema))
         end
     | call =>
         match input args with
         | None =>
             ret (text ("Input is required when step=" ++ GetActorOutput.QUOTE ++ "call"
                        ++ GetActorOutput.QUOTE
                        ++ ". Please provide the input parameter based on the Actor's input schema."))
         | Some input =>
             tools <~ lift (getActorsAsTools [actorName]) ;;
             match tools with
             | [] => ret (text ("Actor '" ++ actorName ++ "' not found."))
             | actorTool :: _ =>
                 match validate actorTool input, errorMessages actorTool input with
                 | false, e :: errors =>
                     ret (mkResult
                            (Some [Text ("Input validation failed for Actor '" ++ actorName
                                         ++ "': " ++ Js.join ", " (e :: errors));
                                   Text ("Input Schema:" ++ GetActorOutput.LF
                                         ++ schemaText actorTool)]))
                 | _, _ =>
                     callResult <~ callActorGetDataset platform actorName input
                                   (callOptions args) progressTracker signal ;;
                     match callResult with
                     | None => ret (mkResult None)
                     | Some r =>
                         ret (mkResult (Some (buildActorResponseContent actorName r)))
                     end
                 end
             end
         end
     end)
    (fun error =>
       emit (LogError "Error with Actor operation") ;;;
       ret (text ("Error with Actor operation: " ++ messageOf error))).
End Call.

End CallActorTool.

(** ** [src/tools/actor.ts]: from the names of Actors to tools *)

Module ActorLoading.
Import Types ActorTools McpPaths.

(** [ActorInfo] *)
Record ActorInfo : Type :=
  mkInfo { actorDefinitionPruned : ActorDefinitionPruned;
           webServerMcpPath : ServerPath }.

(** [actorInfo.webServerMcpPath], as a condition. *)
Definition hasMcpPath (i : ActorInfo) : bool :=
  match webServerMcpPath i with
  | Path (String _ _) => true
  | _ => false
  end.

Section Fetch.
(** The definition of an Actor, from the cache or from
    [getActorDefinition], with its field [webServerMcpPath] when it is a
    string; [None] when the Actor is not found. *)
Variable definitionOf : string -> Js.Completion Exn (option (ActorDefinitionPruned * option string)).
Variable compiles : ActorDefinitionPruned -> bool.
(** The tools of the MCP server of an Actor: [getActorMCPServerURL],
    [connectMCPClient], [getMCPServerTools], and the connection closed. *)
Variable serverTools : ActorInfo -> Js.Completion Exn (list ToolEntry).

(** The [Promise.all] over the names; when several definitions fail, the
    failure of the first name is the one taken. *)
Fixpoint fetchAll (actorIdsOrNames : list string)
  : Js.Completion Exn (list (option ActorInfo)) :=
  match actorIdsOrNames with
  | [] => Js.Return []
  | actorIdOrName :: rest =>
      found <- definitionOf actorIdOrName ;;
      others <- fetchAll rest ;;
      Js.Return (match found with
                 | Some (definition, path) =>
                     Some (mkInfo definition (getActorMCPServerPath path))
                 | None => None
                 end :: others)
  end.

(** [getMCPServersAsTools] *)
Fixpoint getMCPServersAsTools (actorsInfo : list ActorInfo)
  : Js.Completion Exn (list ToolEntry) :=
  match actorsInfo with
  | [] => Js.Return []
  | actorInfo :: rest =>
      if hasMcpPath actorInfo
      then
        tools <- serverTools actorInfo ;;
        others <- getMCPServersAsTools rest ;;
        Js.Return (tools ++ others)%list
      else getMCPServersAsTools rest
  end.

Definition getActorsAsTools (actorIdsOrNames : list string)
  : Js.Completion Exn (list ToolEntry) :=
  actorsInfo <- fetchAll actorIdsOrNames ;;
  let found := flat_map (fun i => match i with Some i => [i] | None => [] end)
                        actorsInfo in
  let actorMCPServersInfo := filter hasMcpPath found in
  let normalActorsInfo := filter (fun i => negb (hasMcpPath i)) found in
  let normalTools :=
    getNormalActorsAsTools compiles (map actorDefinitionPruned normalActorsInfo) in
  mcpServerTools <- getMCPServersAsTools actorMCPServersInfo ;;
  Js.Return (normalTools ++ mcpServerTools)%list.
End Fetch.

End ActorLoading.

(* ===================================================================== *)
(** * Part II: properties                                                 *)
(* ===================================================================== *)

(** ** Strings *)

Section JsStringFacts.

Lemma startsWith_app (p x : string) : Js.startsWith p (p ++ x) = true.
Proof.
  induction p as [|a p IH]; simpl; [reflexivity|].
  now rewrite Ascii.eqb_refl, IH.
Qed.

Lemma startsWith_app_l (p q s : string) :
  Js.startsWith (p ++ q) (p ++ s) = Js.startsWith q s.
Proof.
  induction p as [|a p IH]; simpl; [reflexivity|].
  now rewrite Ascii.eqb_refl, IH.
Qed.

Lemma rev_app (x y : string) : Js.rev (x ++ y) = Js.rev y ++ Js.rev x.
Proof.
  induction x as [|a x IH]; simpl.
  - induction (Js.rev y) as [|b z IHz]; simpl; [reflexivity | now rewrite <- IHz].
  - rewrite IH. clear IH.
    induction (Js.rev y) as [|b z IHz]; simpl; [reflexivity | now rewrite IHz].
Qed.


Lemma length_app (x y : string) :
  String.length (x ++ y) = String.length x + String.length y.
Proof. induction x as [|a x IH]; simpl; [reflexivity | now rewrite IH]. Qed.

Lemma length_slice0 (n : nat) (s : string) :
  String.length (Js.slice0 n s) = Nat.min n (String.length s).
Proof.
  revert s; induction n as [|n IH]; intros [|a s]; simpl; try reflexivity.
  now rewrite IH.
Qed.

Lemma includesChar_app (c : ascii) (x y : string) :
  Js.includesChar c (x ++ y) = Js.includesChar c x || Js.includesChar c y.
Proof.
  induction x as [|a x IH]; simpl; [reflexivity|].
  now rewrite IH, orb_assoc.
Qed.

Lemma includesChar_slice0 (c : ascii) (n : nat) (s : string) :
  Js.includesChar c s = false -> Js.includesChar c (Js.slice0 n s) = false.
Proof.
  revert s; induction n as [|n IH]; intros [|a s]; simpl; try reflexivity.
  intros H. apply orb_false_iff in H as [Ha Hs].
  now rewrite Ha, (IH _ Hs).
Qed.

(** After [replace(/c/g, tok)] no unit [c] is left, when [tok] has none. *)
Lemma includesChar_replaceAllChar_same (c : ascii) (tok s : string) :
  Js.includesChar c tok = false ->
  Js.includesChar c (Js.replaceAllChar c tok s) = false.
Proof.
  intros Htok. induction s as [|a s IH]; simpl; [reflexivity|].
  destruct (Ascii.eqb a c) eqn:E.
  - now rewrite includesChar_app, Htok, IH.
  - simpl. now rewrite E, IH.
Qed.

(** Replacing the unit [c] does not bring in a unit [d] that neither the
    string nor the token has. *)
Lemma includesChar_replaceAllChar_other (c d : ascii) (tok s : string) :
  Js.includesChar d tok = false ->
  Js.includesChar d s = false ->
  Js.includesChar d (Js.replaceAllChar c tok s) = false.
Proof.
  intros Htok. induction s as [|a s IH]; simpl; [reflexivity|].
  intros H. apply orb_false_iff in H as [Ha Hs].
  destruct (Ascii.eqb a c).
  - now rewrite includesChar_app, Htok, IH.
  - simpl. now rewrite Ha, IH.
Qed.

End JsStringFacts.

(** ** The placeholder for dots in property names *)

Section DotPlaceholder.
Import ToolsUtils.

Lemma decodeKey_token (x : string) :
  decodeKey ("-dot-" ++ x) = String "." (decodeKey x).
Proof. reflexivity. Qed.

Lemma decodeKey_cons (a : ascii) (x : string) :
  Js.startsWith "-dot-" (String a x) = false ->
  decodeKey (String a x) = String a (decodeKey x).
Proof.
  intros H. unfold decodeKey.
  destruct x as [|b [|c [|d [|e x]]]]; try reflexivity.
  cbn [Js.replaceAllDotToken]. now rewrite H.
Qed.

(** A unit of the encoded name that is neither [-] nor [.] is a unit of
    the name. *)
Lemma startsWith_encodeKey_plain (c : ascii) (p r : string) :
  Ascii.eqb c "-" = false ->
  Js.startsWith (String c p) (encodeKey r) = true ->
  exists r', r = String c r' /\ Js.startsWith p (encodeKey r') = true.
Proof.
  intros Hc. unfold encodeKey.
  destruct r as [|a r]; cbn [Js.replaceAllChar Js.startsWith]; [discriminate|].
  destruct (Ascii.eqb a ".") eqn:E; cbn [append Js.startsWith].
  - rewrite Hc. discriminate.
  - intros H. apply andb_true_iff in H as [H1 H2].
    apply Ascii.eqb_eq in H1. subst a. now exists r.
Qed.

Lemma startsWith_encodeKey_dash (r : string) :
  Js.startsWith "-" (encodeKey r) = true ->
  Js.startsWith "-" r = true \/ Js.startsWith "." r = true.
Proof.
  unfold encodeKey.
  destruct r as [|a r]; cbn [Js.replaceAllChar Js.startsWith]; [discriminate|].
  destruct (Ascii.eqb a ".") eqn:E; cbn [append Js.startsWith].
  - apply Ascii.eqb_eq in E. subst a. now right.
  - intros H. left. apply andb_true_iff in H as [H _].
    apply Ascii.eqb_eq in H. subst a. reflexivity.
Qed.

(** A placeholder that starts on a unit other than a dot betrays a hazard. *)
Lemma spurious_token (a : ascii) (r : string) :
  Js.startsWith "-dot-" (String a (encodeKey r)) = true ->
  dotHazardAt (String a r) = true.
Proof.
  intros H.
  change (Ascii.eqb "-" a && Js.startsWith "dot-" (encodeKey r) = true) in H.
  apply andb_true_iff in H as [Ha H]. apply Ascii.eqb_eq in Ha. subst a.
  apply startsWith_encodeKey_plain in H as (r1 & -> & H); [|reflexivity].
  apply startsWith_encodeKey_plain in H as (r2 & -> & H); [|reflexivity].
  apply startsWith_encodeKey_plain in H as (r3 & -> & H); [|reflexivity].
  unfold dotHazardAt.
  change (Js.startsWith ("-dot" ++ "-") ("-dot" ++ r3)
          || Js.startsWith ("-dot" ++ ".") ("-dot" ++ r3) = true).
  rewrite !startsWith_app_l.
  apply startsWith_encodeKey_dash in H as [H|H]; rewrite H;
    [reflexivity | apply orb_true_r].
Qed.

Lemma decode_encode_key (name : string) :
  dotHazard name = false -> decodeKey (encodeKey name) = name.
Proof.
  induction name as [|a r IH]; [reflexivity|].
  cbn [dotHazard]. intros H. apply orb_false_iff in H as [Hat Hr].
  unfold encodeKey in *. cbn [Js.replaceAllChar].
  destruct (Ascii.eqb a ".") eqn:E.
  - apply Ascii.eqb_eq in E. subst a.
    rewrite decodeKey_token. now rewrite (IH Hr).
  - rewrite decodeKey_cons.
    + now rewrite (IH Hr).
    + destruct (Js.startsWith "-dot-" (String a (Js.replaceAllChar "." "-dot-" r))) eqn:S;
        [|reflexivity].
      apply spurious_token in S. congruence.
Qed.

End DotPlaceholder.

Section DotPlaceholderExact.
Import ToolsUtils.

Lemma startsWith_split (p s : string) :
  Js.startsWith p s = true -> exists x, s = p ++ x.
Proof.
  revert s; induction p as [|a p IH]; intros s H.
  - now exists s.
  - destruct s as [|b s]; [discriminate|].
    cbn [Js.startsWith] in H. apply andb_true_iff in H as [E H].
    apply Ascii.eqb_eq in E. subst b.
    destruct (IH _ H) as [x ->]. now exists x.
Qed.

(** Conversely a hazard of the name shows as a placeholder at the same
    place of the encoded name. *)
Lemma hazard_token (a : ascii) (r : string) :
  dotHazardAt (String a r) = true ->
  Js.startsWith "-dot-" (String a (encodeKey r)) = true.
Proof.
  unfold dotHazardAt. intros H.
  apply orb_true_iff in H as [H|H];
    apply startsWith_split in H as [x E]; injection E as -> ->; reflexivity.
Qed.

Lemma decode_encode_key_hazard (name : string) :
  dotHazard name = true -> decodeKey (encodeKey name) <> name.
Proof.
  induction name as [|a r IH]; [discriminate|].
  cbn [dotHazard]. intros H.
  destruct (dotHazardAt (String a r)) eqn:Hat.
  - pose proof (hazard_token _ _ Hat) as T.
    assert (Ha : a = "-"%char).
    { unfold dotHazardAt in Hat. apply orb_true_iff in Hat as [S|S];
        apply startsWith_split in S as [x E]; now injection E. }
    subst a. unfold encodeKey in *. cbn [Js.replaceAllChar].
    change (Ascii.eqb "-" ".") with false. cbv iota.
    apply startsWith_split in T as [x E]. rewrite E.
    rewrite decodeKey_token. intros C. discriminate C.
  - simpl in H. specialize (IH H).
    unfold encodeKey in *. cbn [Js.replaceAllChar].
    destruct (Ascii.eqb a ".") eqn:E.
    + rewrite decodeKey_token. intros C. injection C as _ C. now apply IH.
    + rewrite decodeKey_cons.
      * intros C. injection C as C. now apply IH.
      * destruct (Js.startsWith "-dot-" (String a (Js.replaceAllChar "." "-dot-" r))) eqn:S;
          [|reflexivity].
        apply spurious_token in S. congruence.
Qed.

End DotPlaceholderExact.

(** ** The shortening pass *)

Section Shortening.
Import ToolsUtils Const.

Lemma totalLength_from (l : list string) (n : nat) :
  fold_left (fun sum v => sum + String.length v) l n = n + totalLength l.
Proof.
  unfold totalLength. revert n; induction l as [|v l IH]; intros n; simpl.
  - lia.
  - rewrite IH, (IH (String.length v)). lia.
Qed.

Lemma totalLength_cons (v : string) (l : list string) :
  totalLength (v :: l) = String.length v + totalLength l.
Proof. unfold totalLength at 1. simpl. apply totalLength_from. Qed.

(** Once the running count has left the budget nothing more is kept. *)
Lemma shortenEnumFilter_spent (charCount : nat) (l : list string) :
  ACTOR_ENUM_MAX_LENGTH < charCount -> shortenEnumFilter charCount l = [].
Proof.
  revert charCount; induction l as [|v l IH]; intros c Hc; simpl; [reflexivity|].
  destruct (Nat.leb_spec (c + String.length v) ACTOR_ENUM_MAX_LENGTH); [lia|].
  apply IH. lia.
Qed.

Lemma shortenEnumFilter_budget (charCount : nat) (l : list string) :
  charCount <= ACTOR_ENUM_MAX_LENGTH ->
  charCount + totalLength (shortenEnumFilter charCount l) <= ACTOR_ENUM_MAX_LENGTH.
Proof.
  revert charCount; induction l as [|v l IH]; intros c Hc; simpl.
  - unfold totalLength; simpl; lia.
  - destruct (Nat.leb_spec (c + String.length v) ACTOR_ENUM_MAX_LENGTH) as [Hle|Hgt].
    + rewrite totalLength_cons. specialize (IH _ Hle). lia.
    + rewrite shortenEnumFilter_spent by lia. unfold totalLength; simpl; lia.
Qed.

(** What is kept is an initial segment: values are dropped from the tail. *)
Lemma shortenEnumFilter_prefix (charCount : nat) (l : list string) :
  exists dropped, l = (shortenEnumFilter charCount l ++ dropped)%list.
Proof.
  revert charCount; induction l as [|v l IH]; intros c; simpl.
  - now exists [].
  - destruct (Nat.leb_spec (c + String.length v) ACTOR_ENUM_MAX_LENGTH) as [Hle|Hgt].
    + destruct (IH (c + String.length v)) as [d E]. exists d. simpl. now f_equal.
    + rewrite shortenEnumFilter_spent by lia. now exists (v :: l).
Qed.

Lemma shortenEnumField_spec (e : option (list string)) :
  match shortenEnumField e with
  | Some kept =>
      totalLength kept <= ACTOR_ENUM_MAX_LENGTH /\
      exists dropped, e = Some (kept ++ dropped)%list
  | None =>
      e = None \/
      exists v rest, e = Some (v :: rest) /\ ACTOR_ENUM_MAX_LENGTH < String.length v
  end.
Proof.
  destruct e as [[|v r]|]; simpl.
  - split; [unfold totalLength; simpl; lia | now exists []].
  - unfold shortenEnum.
    pose proof (shortenEnumFilter_budget 0 (v :: r) (Nat.le_0_l _)) as B.
    destruct (shortenEnumFilter_prefix 0 (v :: r)) as [d P].
    destruct (shortenEnumFilter 0 (v :: r)) as [|k ks] eqn:F.
    + right. exists v, r. split; [reflexivity|].
      simpl in F.
      destruct (Nat.leb_spec (String.length v) ACTOR_ENUM_MAX_LENGTH); [discriminate|lia].
    + split; [simpl in B; exact B | exists d; now rewrite P].
  - now left.
Qed.


End Shortening.

(** ** Dictionaries *)

Section DictFacts.
Context {V : Type}.
Implicit Types (o : list (string * V)) (k : string).

Lemma get_delete_same k o : Js.get k (Js.delete k o) = None.
Proof.
  induction o as [|[k' v'] o IH]; simpl; [reflexivity|].
  destruct (String.eqb k' k) eqn:E; [exact IH|]. simpl. now rewrite E.
Qed.

Lemma delete_absent k o : Js.get k o = None -> Js.delete k o = o.
Proof.
  induction o as [|[k' v'] o IH]; simpl; [reflexivity|].
  destruct (String.eqb k' k); [discriminate|]. intros H. now rewrite IH.
Qed.

Lemma get_app k o o' :
  Js.get k (o ++ o')%list =
  match Js.get k o with Some v => Some v | None => Js.get k o' end.
Proof.
  induction o as [|[k' v'] o IH]; simpl; [reflexivity|].
  now destruct (String.eqb k' k).
Qed.

Lemma delete_app k o o' :
  Js.delete k (o ++ o')%list = (Js.delete k o ++ Js.delete k o')%list.
Proof.
  induction o as [|[k' v'] o IH]; simpl; [reflexivity|].
  destruct (String.eqb k' k); [exact IH|]. simpl. now rewrite IH.
Qed.

Lemma get_tl_absent k o : Js.get k o = None -> Js.get k (tl o) = None.
Proof.
  destruct o as [|[k' v'] o]; simpl; [reflexivity|].
  now destruct (String.eqb k' k).
Qed.

Lemma get_singleton k (v : V) : Js.get k [(k, v)] = Some v.
Proof. simpl. now rewrite String.eqb_refl. Qed.

Lemma keys_app o o' : Js.keys (o ++ o')%list = (Js.keys o ++ Js.keys o')%list.
Proof. apply map_app. Qed.

Lemma absent_not_in_keys k o : Js.get k o = None -> ~ In k (Js.keys o).
Proof.
  induction o as [|[k' v'] o IH]; simpl; [tauto|].
  destruct (String.eqb_spec k' k) as [->|N]; [discriminate|].
  intros H [E|I]; [congruence | now apply IH].
Qed.

Lemma in_keys_tl k o : In k (Js.keys (tl o)) -> In k (Js.keys o).
Proof. destruct o; simpl; tauto. Qed.

Lemma get_set_same k (v : V) o : Js.get k (Js.set k v o) = Some v.
Proof.
  induction o as [|[k' v'] o IH]; simpl.
  - now rewrite String.eqb_refl.
  - destruct (String.eqb k' k) eqn:E; simpl; now rewrite E.
Qed.

Lemma get_set_other k k' (v : V) o :
  k' <> k -> Js.get k (Js.set k' v o) = Js.get k o.
Proof.
  intros N. induction o as [|[k2 v2] o IH]; simpl.
  - destruct (String.eqb_spec k' k); congruence.
  - destruct (String.eqb_spec k2 k') as [->|N2]; simpl.
    + now destruct (String.eqb_spec k' k).
    + now rewrite IH.
Qed.

Lemma set_present k (v : V) o :
  Js.get k o = Some v -> Js.set k v o = o.
Proof.
  induction o as [|[k' v'] o IH]; simpl; [discriminate|].
  destruct (String.eqb_spec k' k) as [->|N].
  - now intros [= ->].
  - intros H. now rewrite IH.
Qed.

Lemma keys_set k (v : V) o :
  Js.keys (Js.set k v o) =
  if Js.has k o then Js.keys o else (Js.keys o ++ [k])%list.
Proof.
  unfold Js.has.
  induction o as [|[k' v'] o IH]; simpl; [reflexivity|].
  destruct (String.eqb_spec k' k) as [->|N]; simpl; [reflexivity|].
  rewrite IH. now destruct (Js.get k o).
Qed.

End DictFacts.

(** ** The cache *)

Section CacheFacts.
Import TtlLru.
Context {T : Type}.
Implicit Types (c : TTLLRUCache T) (k : string) (v : T).

(** The store that [set] hands to [add] does not hold the key. *)
Lemma set_clears_key k c :
  let (found, c1) := LruCache.get k (cache c) in
  Js.get k (LruCache.entries
              (match found with
               | Some _ => LruCache.remove k c1
               | None => c1
               end)) = None.
Proof.
  unfold LruCache.get.
  destruct (Js.get k (LruCache.entries (cache c))) eqn:G; simpl.
  - apply get_delete_same.
  - exact G.
Qed.

Lemma add_absent_stored k (e : Entry T) (s : LruCache.t (Entry T)) :
  (1 <= LruCache.maxLength s)%Z ->
  Js.get k (LruCache.entries s) = None ->
  Js.get k (LruCache.entries (snd (LruCache.add k e s))) = Some e /\
  count_occ string_dec (Js.keys (LruCache.entries (snd (LruCache.add k e s)))) k = 1.
Proof.
  intros Hmax Habs. unfold LruCache.add, Js.has. rewrite Habs.
  assert (Hcount : count_occ string_dec (Js.keys (LruCache.entries s ++ [(k, e)])%list) k = 1).
  { rewrite keys_app, count_occ_app. simpl.
    destruct (string_dec k k); [|congruence].
    apply absent_not_in_keys in Habs.
    apply (count_occ_not_In string_dec) in Habs. lia. }
  destruct (Z.ltb_spec (LruCache.maxLength s)
              (Z.of_nat (List.length (LruCache.entries s ++ [(k, e)])%list))) as [Hov|Hfit];
    simpl.
  - destruct (LruCache.entries s) as [|[k0 e0] es] eqn:Es.
    + simpl in Hov. lia.
    + simpl in Habs |- *.
      destruct (String.eqb_spec k0 k) as [->|N]; [discriminate|].
      split.
      * now rewrite get_app, Habs, get_singleton.
      * simpl in Hcount. destruct (string_dec k0 k); [congruence | exact Hcount].
  - split; [|exact Hcount].
    now rewrite get_app, Habs, get_singleton.
Qed.

Lemma set_stored now k v c :
  (1 <= LruCache.maxLength (cache c))%Z ->
  stored k (set now k v c) = Some (mkEntry v (PrimFloat.add now (ttlMillis c))) /\
  count_occ string_dec (Js.keys (LruCache.entries (cache (set now k v c)))) k = 1.
Proof.
  intros Hmax. unfold stored, set.
  pose proof (set_clears_key k c) as Hclear.
  destruct (LruCache.get k (cache c)) as [found c1] eqn:G.
  assert (Hm : LruCache.maxLength
                 (match found with
                  | Some _ => LruCache.remove k c1
                  | None => c1
                  end) = LruCache.maxLength (cache c)).
  { unfold LruCache.get in G.
    destruct (Js.get k (LruCache.entries (cache c))); injection G as <- <-; reflexivity. }
  cbn [cache]. apply add_absent_stored; [now rewrite Hm | exact Hclear].
Qed.

(** A [get] is decided by the stored entry and the clock. *)
Lemma get_by_stored now k c :
  fst (get now k c) =
  match stored k c with
  | Some e => if PrimFloat.ltb now (expiresAt e) then Some (value e) else None
  | None => None
  end.
Proof.
  unfold get, stored, LruCache.get.
  destruct (Js.get k (LruCache.entries (cache c))) as [e|]; [|reflexivity].
  now destruct (PrimFloat.ltb now (expiresAt e)).
Qed.

(** After a miss the key is not stored. *)
Lemma get_miss_evicts now k c :
  fst (get now k c) = None -> stored k (snd (get now k c)) = None.
Proof.
  unfold get, stored, LruCache.get.
  destruct (Js.get k (LruCache.entries (cache c))) as [e|] eqn:G.
  - destruct (PrimFloat.ltb now (expiresAt e)); [discriminate|].
    intros _. cbn. apply get_delete_same.
  - intros _. cbn. apply get_delete_same.
Qed.

End CacheFacts.

(** ** Splitting a name at [__] *)

Section SplitFacts.

Lemma string_ind2 (P : string -> Prop) :
  P "" ->
  (forall a, P (String a "")) ->
  (forall a b r, P r -> P (String b r) -> P (String a (String b r))) ->
  forall s, P s.
Proof.
  intros H0 H1 H2 s.
  assert (H : P s /\ forall a, P (String a s)).
  { induction s as [|b r [IHr IHbr]].
    - split; [exact H0 | exact H1].
    - split; [apply IHbr | intros a; apply H2; [exact IHr | apply IHbr]]. }
  apply H.
Qed.

Lemma split2u_local (x : string) :
  Js.split2u ("local__" ++ x) = "local" :: Js.split2u x.
Proof. reflexivity. Qed.

Lemma split2u_cons2 (a b : ascii) (r : string) :
  Js.split2u (String a (String b r)) =
  if Ascii.eqb a "_" && Ascii.eqb b "_" then "" :: Js.split2u r
  else match Js.split2u (String b r) with
       | h :: t => String a h :: t
       | [] => [String a ""]
       end.
Proof. reflexivity. Qed.

(** The parts hold no separator, and a first part that starts with [_]
    comes from a string that starts with a single [_]. *)
Lemma split2u_parts (s : string) :
  exists h t,
    Js.split2u s = h :: t /\
    Js.includes2u h = false /\
    Forall (fun p => Js.includes2u p = false) t /\
    (Js.startsWith "_" h = true -> Js.startsWith "_" s = true).
Proof.
  induction s as [|a|a b r IHr IHbr] using string_ind2.
  - exists "", []. repeat split; auto.
  - exists (String a ""), []. repeat split; auto.
    simpl. now rewrite andb_false_r.
  - rewrite split2u_cons2.
    destruct (Ascii.eqb a "_" && Ascii.eqb b "_") eqn:E.
    + destruct IHr as (h & t & -> & Hh & Ht & _).
      exists "", (h :: t). repeat split; auto. discriminate.
    + destruct IHbr as (h & t & -> & Hh & Ht & Hu).
      exists (String a h), t. split; [reflexivity|]. split; [|split; [exact Ht|]].
      * cbn [Js.includes2u]. rewrite Hh, orb_false_r.
        change (Js.startsWith "__" (String a h))
          with (Ascii.eqb "_" a && Js.startsWith "_" h).
        destruct (Ascii.eqb "_" a) eqn:Ea; [|reflexivity].
        destruct (Js.startsWith "_" h) eqn:Eh; [|reflexivity].
        specialize (Hu eq_refl).
        change (Js.startsWith "_" (String b r)) with (Ascii.eqb "_" b && true) in Hu.
        rewrite andb_true_r in Hu.
        rewrite (Ascii.eqb_sym a), (Ascii.eqb_sym b), Ea, Hu in E. discriminate.
      * intros H. change (Ascii.eqb "_" a && true = true) in H.
        exact H.
Qed.

Lemma split2u_no_separator (s : string) :
  Forall (fun p => Js.includes2u p = false) (Js.split2u s).
Proof.
  destruct (split2u_parts s) as (h & t & -> & Hh & Ht & _). now constructor.
Qed.

Lemma last_in {A} (l : list A) (d : A) : l <> [] -> In (last l d) l.
Proof.
  induction l as [|x [|y l] IH]; intros H; [congruence | now left |].
  right. apply IH. discriminate.
Qed.

Lemma last_part_no_separator (s d : string) :
  Js.includes2u (last (Js.split2u s) d) = false.
Proof.
  pose proof (split2u_no_separator s) as F.
  rewrite Forall_forall in F. apply F. apply last_in.
  destruct (split2u_parts s) as (h & t & -> & _). discriminate.
Qed.

Lemma no_separator_no_prefix (p : string) :
  Js.includes2u p = false -> Js.startsWith "local__" p = false.
Proof.
  intros H. destruct (Js.startsWith "local__" p) eqn:E; [|reflexivity].
  apply startsWith_split in E as [x ->]. simpl in H. discriminate.
Qed.

End SplitFacts.

(** ** The registry *)

Section RegistryFacts.
Import Types Server.

Lemma removeLoop_absent (toolNames removedTools : list string) (s : ActorsMcpServer) :
  (forall n, In n toolNames -> Js.has n (tools s) = false) ->
  removeLoop toolNames removedTools s = (removedTools, s).
Proof.
  revert removedTools. induction toolNames as [|n ns IH]; intros acc H; simpl.
  - reflexivity.
  - unfold removeToolByName. rewrite (H n (or_introl eq_refl)).
    apply IH. intros m Hm. apply H. now right.
Qed.

Lemma has_set_same {V} (k : string) (v : V) (o : list (string * V)) :
  Js.has k (Js.set k v o) = true.
Proof. unfold Js.has. now rewrite get_set_same. Qed.

Lemma count_keys_set {V} (k : string) (v : V) (o : list (string * V)) :
  NoDup (Js.keys o) ->
  count_occ string_dec (Js.keys (Js.set k v o)) k = 1.
Proof.
  intros ND. rewrite keys_set. unfold Js.has.
  destruct (Js.get k o) eqn:G.
  - assert (I : In k (Js.keys o)).
    { clear ND. induction o as [|[k' v'] o IH]; simpl in *; [discriminate|].
      destruct (String.eqb_spec k' k); [now left | right; auto]. }
    pose proof (proj1 (NoDup_count_occ string_dec _) ND k) as Hle.
    apply (count_occ_In string_dec) in I. lia.
  - apply absent_not_in_keys in G. apply (count_occ_not_In string_dec) in G.
    rewrite count_occ_app, G. simpl. destruct (string_dec k k); congruence.
Qed.

Lemma NoDup_keys_set {V} (k : string) (v : V) (o : list (string * V)) :
  NoDup (Js.keys o) -> NoDup (Js.keys (Js.set k v o)).
Proof.
  intros ND. rewrite keys_set. unfold Js.has.
  destruct (Js.get k o) eqn:G; [exact ND|].
  apply absent_not_in_keys in G.
  apply NoDup_app; [exact ND | repeat constructor; simpl; tauto |].
  intros x Hx [<-|[]]. contradiction.
Qed.

Lemma set_set_same {V} (k : string) (v : V) (o : list (string * V)) :
  Js.set k v (Js.set k v o) = Js.set k v o.
Proof. apply set_present, get_set_same. Qed.

End RegistryFacts.

(** ** The loader *)

Section LoaderFacts.
Import Types Tools ToolsLoader.

Lemma existsb_eqb_in (x : string) (l : list string) :
  existsb (String.eqb x) l = true <-> In x l.
Proof.
  rewrite existsb_exists. split.
  - intros (y & Hy & E). apply String.eqb_eq in E. now subst.
  - intros H. exists x. split; [exact H | apply String.eqb_refl].
Qed.

(** One turn of the loop. *)
Lemma partitionSelectors_step (selector : string) (rest : list string)
      (internalSelections : list ToolEntry) (actorSelectorsFromTools : list string) :
  partitionSelectors (selector :: rest) internalSelections actorSelectorsFromTools =
  if throwingSelector selector
  then Js.Throw (TypeError "categoryTools is not iterable")
  else partitionSelectors rest
         (internalSelections ++ internalOfSelector selector)%list
         (actorSelectorsFromTools ++ if actorSelector selector then [selector] else [])%list.
Proof.
  cbn [partitionSelectors].
  unfold throwingSelector, internalOfSelector, actorSelector.
  destruct (String.eqb selector "preview").
  - cbn [negb andb]. now rewrite app_nil_r.
  - destruct (toolCategoriesAt selector); cbn [negb andb].
    + now rewrite app_nil_r.
    + reflexivity.
    + destruct (Js.get selector getInternalToolByNameMap); now rewrite app_nil_r.
Qed.

(** The loop, when it does not throw, is a pass over the selectors. *)
Lemma partitionSelectors_spec (selectors : list string)
      (internalSelections : list ToolEntry) (actorSelectorsFromTools : list string) :
  existsb throwingSelector selectors = false ->
  partitionSelectors selectors internalSelections actorSelectorsFromTools =
  Js.Return ((internalSelections ++ flat_map internalOfSelector selectors)%list,
             (actorSelectorsFromTools ++ filter actorSelector selectors)%list).
Proof.
  revert internalSelections actorSelectorsFromTools.
  induction selectors as [|sel rest IH]; intros i a H.
  - cbn. now rewrite !app_nil_r.
  - cbn [existsb] in H. apply orb_false_iff in H as [Hs Hrest].
    rewrite partitionSelectors_step, Hs, (IH _ _ Hrest).
    cbn [flat_map filter]. rewrite <- !app_assoc.
    now destruct (actorSelector sel).
Qed.

(** The loop throws exactly when it meets a throwing selector. *)
Lemma partitionSelectors_throws (selectors : list string)
      (internalSelections : list ToolEntry) (actorSelectorsFromTools : list string) :
  existsb throwingSelector selectors = true ->
  partitionSelectors selectors internalSelections actorSelectorsFromTools =
  Js.Throw (TypeError "categoryTools is not iterable").
Proof.
  revert internalSelections actorSelectorsFromTools.
  induction selectors as [|sel rest IH]; intros i a H; [discriminate|].
  cbn [existsb] in H. rewrite partitionSelectors_step.
  destruct (throwingSelector sel); [reflexivity | now apply IH].
Qed.

Lemma dedupe_in (seen : list string) (l : list ToolEntry) (e : ToolEntry) :
  In e (dedupe seen l) -> In e l.
Proof.
  revert seen; induction l as [|x l IH]; intros seen; simpl; [tauto|].
  destruct (existsb (String.eqb (name x)) seen).
  - intros H. right. eapply IH, H.
  - intros [->|H]; [now left | right; eapply IH, H].
Qed.

Lemma dedupe_fresh (seen : list string) (l : list ToolEntry) (n : string) :
  In n (map name (dedupe seen l)) -> ~ In n seen.
Proof.
  revert seen; induction l as [|x l IH]; intros seen; simpl; [tauto|].
  destruct (existsb (String.eqb (name x)) seen) eqn:E.
  - apply IH.
  - intros [<-|H].
    + intros I. apply existsb_eqb_in in I. congruence.
    + intros I. apply (IH _ H). now right.
Qed.

Lemma dedupe_NoDup (seen : list string) (l : list ToolEntry) :
  NoDup (map name (dedupe seen l)).
Proof.
  revert seen; induction l as [|x l IH]; intros seen; simpl; [constructor|].
  destruct (existsb (String.eqb (name x)) seen) eqn:E; [apply IH|].
  simpl. constructor; [|apply IH].
  intros I. apply dedupe_fresh in I. apply I. now left.
Qed.

Lemma dedupe_keeps (seen : list string) (l : list ToolEntry) (n : string) :
  In n (map name l) -> ~ In n seen -> In n (map name (dedupe seen l)).
Proof.
  revert seen; induction l as [|x l IH]; intros seen; simpl; [tauto|].
  intros [<-|H] Hs.
  - destruct (existsb (String.eqb (name x)) seen) eqn:E.
    + apply existsb_eqb_in in E. contradiction.
    + simpl. now left.
  - destruct (existsb (String.eqb (name x)) seen) eqn:E.
    + now apply IH.
    + simpl. destruct (string_dec (name x) n) as [E'|N]; [now left|].
      right. apply IH; [exact H|]. intros [C|C]; [congruence | contradiction].
Qed.

Lemma needsActorOutput_intro (result : list ToolEntry) (e : ToolEntry) :
  In e result ->
  name e = "call-actor" \/ type e = actor \/ name e = "add-actor" ->
  needsActorOutput result = true.
Proof.
  intros I H. unfold needsActorOutput.
  destruct H as [H|[H|H]].
  - apply orb_true_iff; left. apply orb_true_iff; left.
    apply existsb_exists. exists e. split; [exact I|]. now apply String.eqb_eq.
  - apply orb_true_iff; left. apply orb_true_iff; right.
    apply existsb_exists. exists e. split; [exact I|]. now destruct e.
  - apply orb_true_iff; right.
    apply existsb_exists. exists e. split; [exact I|]. now apply String.eqb_eq.
Qed.

End LoaderFacts.

(** ** The dispatcher *)

Section DispatchFacts.
Import Types Effects ActorTools Server.
Local Open Scope eff_scope.

Lemma bind_emit {A} (ev : Event) (k : unit -> Eff A) :
  Effects.bind (emit ev) k = (ev :: events (k tt), completion (k tt)).
Proof. unfold Effects.bind, emit, events, completion. now destruct (k tt). Qed.

Lemma bind_ret {A B} (a : A) (k : A -> Eff B) : Effects.bind (ret a) k = k a.
Proof. unfold Effects.bind, ret. now destruct (k a). Qed.

Lemma completion_bind_quiet {A} (b : bool) (ev : Event) (k : unit -> Eff A) :
  completion (Effects.bind (if b then emit ev else ret tt) k) = completion (k tt).
Proof. destruct b; [now rewrite bind_emit | now rewrite bind_ret]. Qed.

Lemma completion_tryCatch {A} (body : Eff A) (handler : Exn -> Eff A) :
  completion (tryCatch body handler) =
  match completion body with
  | Js.Return a => Js.Return a
  | Js.Throw e => completion (handler e)
  end.
Proof.
  unfold tryCatch, completion. destruct body as [tr [a|e]]; simpl; [reflexivity|].
  now destruct (handler e).
Qed.

Lemma completion_tryFinally {A} (body : Eff A) (final : list Event) :
  completion (tryFinally body final) = completion body.
Proof. reflexivity. Qed.

Lemma completion_bind {A B} (m : Eff A) (k : A -> Eff B) :
  completion (Effects.bind m k) =
  match completion m with
  | Js.Return a => completion (k a)
  | Js.Throw e => Js.Throw e
  end.
Proof.
  unfold Effects.bind, completion. destruct m as [tr [a|e]]; simpl; [|reflexivity].
  now destruct (k a).
Qed.

(** A request with a credential, a known tool and valid arguments reaches
    the [try] block, with the decoded arguments. *)
Lemma handler_reaches_try (s : ActorsMcpServer) (env : Env) (request : CallToolRequest)
      (signal : option AbortSignal) (c : ascii) (r : string)
      (tool : ToolEntry) (args : Args) :
  orElse (apifyToken request) (APIFY_TOKEN env) = Some (String c r) ->
  findTool (normalizeToolName (request_name request)) s = Some tool ->
  arguments request = Some args ->
  ajvValidate env tool (ToolsUtils.decodeDotPropertyNames args) = true ->
  completion (callToolHandler s env request signal) =
  completion (tryCatch (callByType env tool (ToolsUtils.decodeDotPropertyNames args)
                                   (String c r) (progressToken request) signal)
                       (onError (normalizeToolName (request_name request)))).
Proof.
  intros Htok Hfind Hargs Hval. unfold callToolHandler.
  rewrite Htok, completion_bind_quiet, Hfind, Hargs, bind_emit, Hval.
  reflexivity.
Qed.

(** Arguments that the validator refuses once decoded are refused. *)
Lemma handler_validates_decoded (s : ActorsMcpServer) (env : Env)
      (request : CallToolRequest) (signal : option AbortSignal) (c : ascii) (r : string)
      (tool : ToolEntry) (args : Args) :
  orElse (apifyToken request) (APIFY_TOKEN env) = Some (String c r) ->
  findTool (normalizeToolName (request_name request)) s = Some tool ->
  arguments request = Some args ->
  ajvValidate env tool (ToolsUtils.decodeDotPropertyNames args) = false ->
  exists msg,
    completion (callToolHandler s env request signal) =
    Js.Throw (McpError InvalidParams msg).
Proof.
  intros Htok Hfind Hargs Hval. unfold callToolHandler.
  rewrite Htok, completion_bind_quiet, Hfind, Hargs, bind_emit, Hval.
  eexists. reflexivity.
Qed.

(** The [catch] clause: an error of the platform becomes a result, any
    other exception the generic internal error. *)
Lemma onError_platform (name message : string) :
  completion (onError name (ApifyApiError message)) =
  Js.Return (mkResult (Some [Text ("Apify API error calling tool " ++ name
                                   ++ ": " ++ message)])).
Proof. reflexivity. Qed.

Lemma onError_other (name : string) (error : Exn) :
  (forall message, error <> ApifyApiError message) ->
  completion (onError name error) =
  Js.Throw (McpError InternalError "An error occurred while calling the tool.").
Proof. intros H. destruct error; try reflexivity. now destruct (H message). Qed.

(** [callActorGetDataset] rethrows every exception as a plain [Error]. *)
Lemma callActorGetDataset_rethrows (platform : Platform) (actorName : string)
      (input : Args) (callOptions : option Z) (progressTracker : bool)
      (abortSignal : option AbortSignal) (e : Exn) :
  completion (callActorGetDataset platform actorName input callOptions
                                  progressTracker abortSignal) = Js.Throw e ->
  exists message, e = Error message.
Proof.
  unfold callActorGetDataset. rewrite completion_tryCatch.
  match goal with |- context [completion ?b] => destruct (completion b) as [a|e'] end.
  - discriminate.
  - rewrite bind_emit. cbn. intros [= <-]. eauto.
Qed.

Lemma callActorGetDataset_start_fails (platform : Platform) (actorName : string)
      (input : Args) (callOptions : option Z) (progressTracker : bool)
      (abortSignal : option AbortSignal) (e : Exn) :
  start platform actorName input callOptions = Js.Throw e ->
  completion (callActorGetDataset platform actorName input callOptions
                                  progressTracker abortSignal) =
  Js.Throw (Error ("Error calling Actor: " ++ exnToString e)).
Proof.
  intros H. unfold callActorGetDataset.
  rewrite completion_tryCatch, bind_emit. cbn [completion snd].
  rewrite completion_bind. unfold lift at 1. cbn [completion snd]. rewrite H.
  rewrite bind_emit. reflexivity.
Qed.

End DispatchFacts.

(* ===================================================================== *)
(** * Part III: the properties of the design document                     *)
(* ===================================================================== *)

Section Contract.
Import Types Const Tools ToolsUtils ToolsLoader Effects ActorTools Server.

(** ** Schema adaptation *)

(** C3, as stated, fails: the name [a.-dot-b] contains a dot and does not
    come back from encoding and decoding. *)
Lemma dot_round_trip_counterexample :
  Js.includesChar "." "a.-dot-b" = true /\
  decodeKey (encodeKey "a.-dot-b") <> "a.-dot-b".
Proof. split; [reflexivity | discriminate]. Qed.

(** C3, amended: encoding a property name (every [.] becomes [-dot-]) and
    then decoding it (every [-dot-] becomes [.]) yields the original name
    exactly when no position of the name reads [-dot-] or [-dot.]; in
    particular [a.b.c] is exported as [a-dot-b-dot-c] and an argument
    object keyed [a-dot-b-dot-c] is decoded back to [a.b.c], and the
    dispatcher validates the decoded arguments. *)
Theorem dot_round_trip :
  (forall name : string,
      decodeKey (encodeKey name) = name <-> dotHazard name = false) /\
  encodeKey "a.b.c" = "a-dot-b-dot-c" /\
  (forall (V : Type) (v : V),
      encodeDotPropertyNames [("a.b.c", v)] = [("a-dot-b-dot-c", v)] /\
      decodeDotPropertyNames [("a-dot-b-dot-c", v)] = [("a.b.c", v)]) /\
  (forall s env request signal c r tool args,
      orElse (apifyToken request) (APIFY_TOKEN env) = Some (String c r) ->
      findTool (normalizeToolName (request_name request)) s = Some tool ->
      arguments request = Some args ->
      ajvValidate env tool (decodeDotPropertyNames args) = false ->
      exists msg,
        completion (callToolHandler s env request signal) =
        Js.Throw (McpError InvalidParams msg)).
Proof.
  split; [|split; [reflexivity|split]].
  - intros name. split.
    + intros H. destruct (dotHazard name) eqn:E; [|reflexivity].
      now apply decode_encode_key_hazard in E.
    + apply decode_encode_key.
  - intros V v. split; reflexivity.
  - intros. eapply handler_validates_decoded; eassumption.
Qed.

Lemma dot_round_trip_witness :
  decodeKey (encodeKey "crawl.status-code.value") = "crawl.status-code.value".
Proof. apply (proj1 dot_round_trip "crawl.status-code.value"). reflexivity. Defined.




(** The pass on a property with a long description: the description is cut to 503
    units and the third value of the enum is dropped. *)
Example shortening_example :
  let q := shortenProperty
             (mkProperty "string" "Property 1" (Js.repeatChar "a" 600)
                         (Some ["one"; Js.repeatChar "b" 197; "three"]) None) in
  String.length (description q) = 503 /\
  enum q = Some ["one"; Js.repeatChar "b" 197].
Proof. vm_compute. split; reflexivity. Qed.

(** ** The cache *)

(** C8: in a cache with room for one entry at least, after [set(k, v)] at
    the time [now] the key holds exactly one entry, with the value [v] and
    the expiry [now + ttlMillis] as the arithmetic of the code computes
    it, whatever was stored before.  A [get(k)] at a time that is below
    this expiry returns [v]; so the [get(k)] right after the [set]
    returns [v] exactly when [now] is below [now + ttlMillis].  A
    [get(k)] at any other time returns a miss and removes the entry, and
    every later [get(k)] of that cache is a miss. *)
Theorem cache_ttl (T : Type) (c : TtlLru.TTLLRUCache T)
        (now : float) (k : string) (v : T) :
  (1 <= TtlLru.LruCache.maxLength (TtlLru.cache c))%Z ->
  let c1 := TtlLru.set now k v c in
  let expiry := PrimFloat.add now (TtlLru.ttlMillis c) in
  TtlLru.stored k c1 = Some (TtlLru.mkEntry v expiry) /\
  count_occ string_dec (Js.keys (TtlLru.LruCache.entries (TtlLru.cache c1))) k = 1 /\
  (fst (TtlLru.get now k c1) = Some v <-> PrimFloat.ltb now expiry = true) /\
  (forall t, PrimFloat.ltb t expiry = true -> fst (TtlLru.get t k c1) = Some v) /\
  (forall t, PrimFloat.ltb t expiry = false ->
     let (answer, c2) := TtlLru.get t k c1 in
     answer = None /\
     TtlLru.stored k c2 = None /\
     forall t', fst (TtlLru.get t' k c2) = None).
Proof.
  intros Hmax c1 expiry.
  destruct (set_stored now k v c Hmax) as [Hst Hcount].
  fold c1 in Hst, Hcount. fold expiry in Hst.
  assert (Hit : forall t, PrimFloat.ltb t expiry = true ->
                          fst (TtlLru.get t k c1) = Some v).
  { intros t Ht. rewrite get_by_stored, Hst. cbn [TtlLru.expiresAt TtlLru.value]. now rewrite Ht. }
  split; [exact Hst|]. split; [exact Hcount|]. split; [|split; [exact Hit|]].
  - split; [|apply Hit].
    rewrite get_by_stored, Hst. cbn [TtlLru.expiresAt TtlLru.value].
    destruct (PrimFloat.ltb now expiry); [reflexivity | discriminate].
  - intros t Ht.
    assert (Hmiss : fst (TtlLru.get t k c1) = None).
    { rewrite get_by_stored, Hst. cbn [TtlLru.expiresAt TtlLru.value]. now rewrite Ht. }
    pose proof (get_miss_evicts t k c1 Hmiss) as Hev.
    destruct (TtlLru.get t k c1) as [answer c2]. cbn [fst snd] in *.
    split; [exact Hmiss|]. split; [exact Hev|].
    intros t'. now rewrite get_by_stored, Hev.
Qed.

Lemma cache_ttl_witness :
  fst (TtlLru.get Scenario.clock "a"
         (TtlLru.set Scenario.clock "a" "valueA2"
            (TtlLru.set Scenario.earlier "a" "valueA"
               (TtlLru.create Const.ACTOR_CACHE_MAX_SIZE Const.ACTOR_CACHE_TTL_SECS))))
  = Some "valueA2".
Proof.
  refine (proj2 (proj1 (proj2 (proj2
            (cache_ttl string
               (TtlLru.set Scenario.earlier "a" "valueA"
                  (TtlLru.create Const.ACTOR_CACHE_MAX_SIZE Const.ACTOR_CACHE_TTL_SECS))
               Scenario.clock "a" "valueA2" _)))) _).
  - vm_compute. discriminate.
  - vm_compute. reflexivity.
Defined.

(** A positive time to live does not make the [get(k)] right after
    [set(k, v)] a hit.  A cache of capacity 0 with a time to live of 60
    seconds keeps no entry: the store evicts what [set] adds.  And in a
    cache of capacity 500 whose time to live is [2^-40] seconds, a positive
    number, the expiry [Date.now() + ttlMillis] is [Date.now()] itself as
    the sum is rounded, so that the entry has expired when it is stored. *)
Lemma cache_ttl_counterexample :
  PrimFloat.ltb 0 (TtlLru.ttlMillis (TtlLru.create (T := string) 0 60)) = true /\
  fst (TtlLru.get Scenario.clock "k"
         (TtlLru.set Scenario.clock "k" "v" (TtlLru.create 0 60))) = None /\
  PrimFloat.ltb 0 (TtlLru.ttlMillis (TtlLru.create (T := string) 500 Scenario.shortTtlSecs))
  = true /\
  fst (TtlLru.get Scenario.clock "k"
         (TtlLru.set Scenario.clock "k" "v" (TtlLru.create 500 Scenario.shortTtlSecs)))
  = None.
Proof. vm_compute. repeat split. Qed.

(** The tests of the cache: a value is found before its expiry and not
    after it, and the least recently used entry makes room. *)
Example cache_examples :
  let c := TtlLru.set 0 "a" "valueA" (TtlLru.create 2 1) in
  fst (TtlLru.get 999 "a" c) = Some "valueA" /\
  fst (TtlLru.get 1000 "a" c) = None /\
  fst (TtlLru.get 0 "a" (snd (TtlLru.get 1100 "a" c))) = None /\
  let full := TtlLru.set 0 "c" "valueC" (TtlLru.set 0 "b" "valueB" c) in
  fst (TtlLru.get 1 "a" full) = None /\
  fst (TtlLru.get 1 "b" full) = Some "valueB" /\
  fst (TtlLru.get 1 "c" full) = Some "valueC".
Proof. vm_compute. repeat split. Qed.

(** ** The registry *)

(** C7: in a registry whose names are distinct, upserting an entry and
    then the same entry again leaves exactly one entry under its name, the
    entry itself, and the second upsert changes nothing in the map; and
    removing names none of which is registered returns no removed name
    and leaves the server as it is: the map is unchanged and the handler
    of changes is not called, whatever the notification flag. *)
Theorem registry_idempotence (s : ActorsMcpServer) (e : ToolEntry)
        (notify1 notify2 notify3 : bool) (toolNames : list string) :
  NoDup (listToolNames s) ->
  (forall n, In n toolNames -> Js.has n (tools s) = false) ->
  let s1 := upsertTools [e] notify1 s in
  let s2 := upsertTools [e] notify2 s1 in
  tools s2 = tools s1 /\
  Js.get (name e) (tools s2) = Some e /\
  count_occ string_dec (listToolNames s2) (name e) = 1 /\
  tools (upsertTools [e; e] notify1 s) = tools s1 /\
  removeToolsByName toolNames notify3 s = ([], s).
Proof.
  intros ND Habs s1 s2.
  assert (T1 : tools s1 = Js.set (name e) e (tools s)).
  { unfold s1, upsertTools, notifyToolsChangedHandler. cbn [fold_left].
    destruct notify1; [destruct (toolsChangedHandler _)|]; reflexivity. }
  assert (T2 : tools s2 = Js.set (name e) e (tools s1)).
  { unfold s2, upsertTools, notifyToolsChangedHandler. cbn [fold_left].
    destruct notify2; [destruct (toolsChangedHandler _)|]; reflexivity. }
  assert (E : tools s2 = tools s1).
  { rewrite T2, T1. apply set_set_same. }
  split; [exact E|].
  split; [rewrite E, T1; apply get_set_same|].
  split.
  - unfold listToolNames. rewrite E, T1. now apply count_keys_set.
  - split.
    + rewrite T1. unfold upsertTools, notifyToolsChangedHandler. cbn [fold_left].
      rewrite set_set_same.
      destruct notify1; [destruct (toolsChangedHandler _)|]; reflexivity.
    + unfold removeToolsByName. now rewrite removeLoop_absent.
Qed.

Lemma registry_idempotence_witness :
  let s := mkServer [("search-actors", searchActors)] true [] in
  removeToolsByName ["call-actor"; "add-actor"] true s = ([], s).
Proof.
  apply (registry_idempotence
           (mkServer [("search-actors", searchActors)] true [])
           callActor true true true ["call-actor"; "add-actor"]).
  - repeat constructor. simpl. tauto.
  - intros n [<-|[<-|[]]]; reflexivity.
Defined.

(** A removal that finds a name reports it and calls the handler. *)
Example registry_removal_example :
  removeToolsByName ["call-actor"; "search-actors"] true
    (mkServer [("search-actors", searchActors)] true []) =
  (["search-actors"], mkServer [] true [[]]).
Proof. reflexivity. Qed.

(** C10: the tool built from an Actor definition is named by the full
    name of the Actor in which every [/] is replaced by [-slash-] and every
    [.] by [-dot-], cut to its first 64 units; the name has at most 64
    units and neither [/] nor [.]; two definitions with different full
    names can get the same tool name, and then an upsert of both keeps one
    entry under that name, the one written last. *)
Theorem actor_tool_names :
  (forall compiles actorsInfo e,
      In e (getNormalActorsAsTools compiles actorsInfo) ->
      exists d, In d actorsInfo /\ e = actorToolOf d) /\
  (forall d : ActorDefinitionPruned,
      let n := name (actorToolOf d) in
      n = Js.slice0 64 (Js.replaceAllChar "." "-dot-"
                          (Js.replaceAllChar "/" "-slash-" (definition_actorFullName d))) /\
      String.length n <= 64 /\
      Js.includesChar "/" n = false /\
      Js.includesChar "." n = false) /\
  (exists d1 d2,
      definition_actorFullName d1 <> definition_actorFullName d2 /\
      name (actorToolOf d1) = name (actorToolOf d2)) /\
  (forall s d1 d2 notify,
      name (actorToolOf d1) = name (actorToolOf d2) ->
      NoDup (listToolNames s) ->
      let s' := upsertTools (getNormalActorsAsTools (fun _ => true) [d1; d2]) notify s in
      Js.get (name (actorToolOf d1)) (tools s') = Some (actorToolOf d2) /\
      count_occ string_dec (listToolNames s') (name (actorToolOf d1)) = 1).
Proof.
  split; [|split; [|split]].
  - intros compiles actorsInfo e H. unfold getNormalActorsAsTools in H.
    apply in_flat_map in H as (d & Hd & He). exists d. split; [exact Hd|].
    destruct (compiles d); [|contradiction]. now destruct He as [<-|[]].
  - intros d n. unfold n. cbn [name actorToolOf actor_name].
    unfold actorNameToToolName. split; [reflexivity|]. split; [|split].
    + rewrite length_slice0. apply Nat.le_min_l.
    + apply includesChar_slice0, includesChar_replaceAllChar_other; [reflexivity|].
      now apply includesChar_replaceAllChar_same.
    + apply includesChar_slice0. now apply includesChar_replaceAllChar_same.
  - exists (mkDefinition "john.doe/scraper" None),
           (mkDefinition "john-dot-doe/scraper" None).
    split; [discriminate | reflexivity].
  - intros s d1 d2 notify E ND s'.
    assert (T : tools s' =
                Js.set (name (actorToolOf d1)) (actorToolOf d2)
                       (Js.set (name (actorToolOf d1)) (actorToolOf d1) (tools s))).
    { unfold s', upsertTools, notifyToolsChangedHandler, getNormalActorsAsTools.
      cbn [flat_map app fold_left]. rewrite <- E.
      destruct notify; [destruct (toolsChangedHandler _)|]; reflexivity. }
    unfold listToolNames. rewrite T. split.
    + apply get_set_same.
    + apply count_keys_set. now apply NoDup_keys_set.
Qed.

Lemma actor_tool_names_witness :
  let d1 := mkDefinition "john.doe/scraper" None in
  let d2 := mkDefinition "john-dot-doe/scraper" (Some 1024%Z) in
  Js.get "john-dot-doe-slash-scraper"
         (tools (upsertTools (getNormalActorsAsTools (fun _ => true) [d1; d2]) false
                             (mkServer [] false []))) = Some (actorToolOf d2).
Proof.
  refine (proj1 (proj2 (proj2 (proj2 actor_tool_names))
                   (mkServer [] false [])
                   (mkDefinition "john.doe/scraper" None)
                   (mkDefinition "john-dot-doe/scraper" (Some 1024%Z))
                   false _ _)).
  - reflexivity.
  - constructor.
Defined.

(** The names of the unit tests of [actorNameToToolName]. *)
Example actorNameToToolName_examples :
  actorNameToToolName "apify/web-scraper" = "apify-slash-web-scraper" /\
  actorNameToToolName "my.actor.name" = "my-dot-actor-dot-name" /\
  actorNameToToolName "" = "" /\
  actorNameToToolName "actor/name.with/multiple.parts"
    = "actor-slash-name-dot-with-slash-multiple-dot-parts" /\
  actorNameToToolName (Js.repeatChar "a" 70) = Js.repeatChar "a" 64.
Proof. vm_compute. repeat split. Qed.

(** ** The loader *)

(** C2 fails on a selector that is the name of a member of
    [Object.prototype], such as [constructor]: [toolCategories[selector]] is
    then truthy and not iterable, and the loader throws a [TypeError] where
    the selector should have been a candidate Actor name.  On every other
    input C2 holds: the Actor names that the loader resolves are, in this
    order of priority, the names of the [actors] field when the field is
    present (none when it is the empty list), else the selectors that are
    neither a category nor an internal tool when there are any, else, when
    no selectors were given, the default Actors, or none when adding Actors
    is enabled, and none when selectors were given; the platform is asked
    for these names only.  Without selectors, [actors] field and adding of
    Actors the result is made of the default categories, the default Actors
    and the tool that retrieves the output; with the empty list of selectors
    and no [actors] field the result is empty. *)
Theorem backend_name_priority
        (getActorsAsTools : list string -> Js.Completion Exn (list ToolEntry))
        (input : Input) :
  let selectors := normalizeSelectors (Types.tools input) in
  let sel := match selectors with Some l => l | None => [] end in
  let names :=
    match actorsFromField input with
    | Some fromField => fromField
    | None =>
        match filter actorSelector sel with
        | _ :: _ => filter actorSelector sel
        | [] =>
            match selectors with
            | None => if addActorEnabled input then [] else defaults_actors
            | Some _ => []
            end
        end
    end in
  (existsb throwingSelector sel = true ->
   resolvedActorNames input = Js.Throw (TypeError "categoryTools is not iterable") /\
   loadToolsFromInput getActorsAsTools input
   = Js.Throw (TypeError "categoryTools is not iterable")) /\
  (existsb throwingSelector sel = false ->
   resolvedActorNames input = Js.Return names /\
   (forall getActorsAsTools',
       (names <> [] -> getActorsAsTools' names = getActorsAsTools names) ->
       loadToolsFromInput getActorsAsTools' input
       = loadToolsFromInput getActorsAsTools input) /\
   (actors input = Some (Arr []) -> names = []) /\
   (actors input = None -> selectors = None -> addActorEnabled input = false ->
    names = defaults_actors /\
    loadToolsFromInput getActorsAsTools input =
    (actorTools <- getActorsAsTools defaults_actors ;;
     Js.Return (dedupe [] (getExpectedToolsByCategories toolCategoriesEnabledByDefault
                           ++ actorTools ++ [getActorOutput])%list))) /\
   (actors input = None -> selectors = None -> addActorEnabled input = true ->
    names = []) /\
   (actors input = None -> selectors = Some [] ->
    names = [] /\ loadToolsFromInput getActorsAsTools input = Js.Return [])).
Proof.
  intros selectors sel names. split.
  { intros Hthrow. unfold resolvedActorNames, loadToolsFromInput.
    fold selectors. fold sel.
    rewrite (partitionSelectors_throws sel [] [] Hthrow). split; reflexivity. }
  intros Hok.
  assert (Hpart : partitionSelectors sel [] [] =
                  Js.Return (flat_map internalOfSelector sel, filter actorSelector sel)).
  { now rewrite partitionSelectors_spec. }
  assert (Hnames : actorNamesToLoad input
                     (match selectors with Some _ => true | None => false end)
                     (filter actorSelector sel) = names).
  { unfold actorNamesToLoad, names.
    destruct (actorsFromField input); [reflexivity|].
    destruct (filter actorSelector sel); [|reflexivity].
    now destruct selectors. }
  assert (Hload : forall G,
             loadToolsFromInput G input =
             (actorTools <- match names with [] => Js.Return [] | _ :: _ => G names end ;;
              let result := (internalPart input selectors (flat_map internalOfSelector sel)
                             ++ actorTools)%list in
              Js.Return (dedupe [] (if needsActorOutput result
                                    then (result ++ [getActorOutput])%list
                                    else result)))).
  { intros G. unfold loadToolsFromInput. fold selectors. fold sel.
    rewrite Hpart. cbn [Js.bind fst snd]. rewrite Hnames. reflexivity. }
  split; [|split; [|split; [|split; [|split]]]].
  - unfold resolvedActorNames. fold selectors. fold sel.
    rewrite Hpart. cbn [Js.bind snd]. now rewrite Hnames.
  - intros G' HG. rewrite !Hload.
    destruct names; [reflexivity|]. rewrite HG; [reflexivity | discriminate].
  - intros Ha. unfold names, actorsFromField. now rewrite Ha.
  - intros Ha Hs Hadd.
    assert (Hn : names = defaults_actors).
    { unfold names, actorsFromField, sel. now rewrite Ha, Hs, Hadd. }
    split; [exact Hn|].
    rewrite Hload, Hn. unfold defaults_actors.
    destruct (getActorsAsTools ["apify/rag-web-browser"]) as [actorTools|e];
      [|reflexivity].
    cbn [Js.bind]. unfold sel. rewrite Hs. cbn [flat_map].
    unfold internalPart, actorsExplicitlyEmpty. rewrite Ha, Hadd. cbn [andb negb].
    assert (Hneed : needsActorOutput
                      (getExpectedToolsByCategories toolCategoriesEnabledByDefault
                       ++ actorTools)%list = true).
    { apply needsActorOutput_intro with (e := callActor).
      - apply in_or_app. left. vm_compute. tauto.
      - now left. }
    rewrite Hneed. now rewrite <- app_assoc.
  - intros Ha Hs Hadd. unfold names, actorsFromField, sel. now rewrite Ha, Hs, Hadd.
  - intros Ha Hs.
    assert (Hn : names = []).
    { unfold names, actorsFromField, sel. now rewrite Ha, Hs. }
    split; [exact Hn|].
    rewrite Hload, Hn. cbn [Js.bind]. unfold sel. rewrite Hs. cbn [flat_map].
    unfold internalPart. rewrite andb_false_r. reflexivity.
Qed.

Lemma backend_name_priority_witness :
  loadToolsFromInput (fun _ => Js.Return [])
                     (mkInput None None (Some (Arr ["docs"; "constructor"])))
  = Js.Throw (TypeError "categoryTools is not iterable").
Proof.
  exact (proj2 (proj1 (backend_name_priority
                         (fun _ => Js.Return [])
                         (mkInput None None (Some (Arr ["docs"; "constructor"]))))
                      eq_refl)).
Defined.

(** The loader on some inputs; the platform answers with one plain Actor
    tool for every name. *)
Example loader_examples :
  let platform := fun names =>
    Js.Return (getNormalActorsAsTools (fun _ => true)
                 (map (fun n => mkDefinition n None) names)) in
  let load := fun input => loadToolsFromInput platform input in
  let names := fun input =>
    match load input with
    | Js.Return l => Js.Return (map name l)
    | Js.Throw e => Js.Throw e
    end in
  names (mkInput None None None)
  = Js.Return ["fetch-actor-details"; "search-actors"; "call-actor"; "search-apify-docs";
               "fetch-apify-docs"; "apify-slash-rag-web-browser"; "get-actor-output"] /\
  names (mkInput None (Some (Bool true)) None)
  = Js.Return ["add-actor"; "get-actor-output"] /\
  names (mkInput None (Some (Bool true)) (Some (Arr []))) = Js.Return [] /\
  names (mkInput (Some (Arr [])) None None) = Js.Return [] /\
  names (mkInput (Some (Arr [])) None (Some (Arr ["docs"; "apify/web-scraper"])))
  = Js.Return ["search-apify-docs"; "fetch-apify-docs"] /\
  names (mkInput None None (Some (Arr [" docs "; "apify/web-scraper"; "get-dataset"])))
  = Js.Return ["search-apify-docs"; "fetch-apify-docs"; "get-dataset";
               "apify-slash-web-scraper"; "get-actor-output"] /\
  names (mkInput None None (Some (Arr ["storage"; "preview"; "get-actor-output"])))
  = Js.Return ["get-dataset"; "get-dataset-items"; "get-dataset-schema"; "get-actor-output";
               "get-key-value-store"; "get-key-value-store-keys";
               "get-key-value-store-record"; "get-dataset-list";
               "get-key-value-store-list"; "call-actor"] /\
  names (mkInput None None (Some (Arr ["docs"; "constructor"])))
  = Js.Throw (TypeError "categoryTools is not iterable").
Proof. vm_compute. repeat split. Qed.

(** C4: when the list returned by the loader holds the tool [call-actor],
    an entry of type [actor] or the tool [add-actor], exactly one of its
    entries is named [get-actor-output]. *)
Theorem actor_output_tool_once
        (getActorsAsTools : list string -> Js.Completion Exn (list ToolEntry))
        (input : Input) (result : list ToolEntry) :
  loadToolsFromInput getActorsAsTools input = Js.Return result ->
  (exists e, In e result /\
             (name e = "call-actor" \/ type e = actor \/ name e = "add-actor")) ->
  count_occ string_dec (map name result) "get-actor-output" = 1.
Proof.
  unfold loadToolsFromInput.
  destruct (partitionSelectors _ [] []) as [parts|]; [|discriminate].
  cbn [Js.bind].
  match goal with |- context [Js.bind ?c _] => destruct c as [actorTools|] end;
    [|discriminate].
  cbn [Js.bind].
  set (R := (internalPart input (normalizeSelectors (Types.tools input)) (fst parts)
             ++ actorTools)%list).
  intros [= <-] (e & I & H).
  assert (Hneed : needsActorOutput R = true).
  { destruct (needsActorOutput R) eqn:N; [reflexivity|].
    apply dedupe_in in I. now rewrite (needsActorOutput_intro R e I H) in N. }
  rewrite Hneed in *.
  assert (Hin : In "get-actor-output" (map name (dedupe [] (R ++ [getActorOutput])%list))).
  { apply dedupe_keeps; [|tauto].
    rewrite map_app. apply in_or_app. right. now left. }
  pose proof (dedupe_NoDup [] (R ++ [getActorOutput])%list) as ND.
  pose proof (proj1 (NoDup_count_occ string_dec _) ND "get-actor-output") as Hle.
  apply (count_occ_In string_dec) in Hin. lia.
Qed.

Lemma actor_output_tool_once_witness :
  count_occ string_dec
    ["get-dataset"; "get-dataset-items"; "get-dataset-schema"; "get-actor-output";
     "get-key-value-store"; "get-key-value-store-keys"; "get-key-value-store-record";
     "get-dataset-list"; "get-key-value-store-list"; "call-actor"]
    "get-actor-output" = 1.
Proof.
  refine (actor_output_tool_once
            (fun _ => Js.Return [])
            (mkInput None None (Some (Arr ["storage"; "preview"; "get-actor-output"])))
            _ eq_refl _).
  exists callActor. split; [|now left].
  vm_compute. tauto.
Defined.

(** ** The dispatcher *)

(** C6, as stated, fails: only the prefix [local__] is removed.  In a
    registry that holds [my-tool], a call for [remote__ns__my-tool] does
    not resolve to the tool that a call for [my-tool] resolves to. *)
Lemma prefix_stripping_counterexample :
  findTool (normalizeToolName "remote__ns__my-tool")
           (mkServer [("my-tool", helper "my-tool")] false [])
  <> findTool (normalizeToolName "my-tool")
              (mkServer [("my-tool", helper "my-tool")] false []).
Proof. discriminate. Qed.

(** C6, amended: when the requested name starts with [local__], the
    dispatcher replaces it by its last segment between [__] before the
    resolution, so that the call resolves to the same tool and completes in
    the same way as a call for that segment; a name that does not start
    with [local__] is resolved as it is.  In particular a call for
    [local__ns__my-tool] resolves as a call for [my-tool]. *)
Theorem prefix_stripping :
  (forall s env request signal,
      Js.startsWith "local__" (request_name request) = true ->
      let realname := last (Js.split2u (request_name request)) "" in
      let request' := mkRequest realname (arguments request)
                                (progressToken request) (apifyToken request) in
      normalizeToolName (request_name request) = realname /\
      Js.includes2u realname = false /\
      findTool (normalizeToolName (request_name request)) s
      = findTool (normalizeToolName realname) s /\
      completion (callToolHandler s env request signal)
      = completion (callToolHandler s env request' signal)) /\
  (forall name, Js.startsWith "local__" name = false -> normalizeToolName name = name) /\
  normalizeToolName "local__ns__my-tool" = "my-tool".
Proof.
  split; [|split; [|reflexivity]].
  - intros s env request signal Hp realname request'.
    assert (Hn : normalizeToolName (request_name request) = realname).
    { unfold normalizeToolName, realname. rewrite Hp.
      apply startsWith_split in Hp as [x ->]. rewrite split2u_local.
      destruct (split2u_parts x) as (h & t & -> & _). cbn [List.length].
      cbn [Nat.ltb Nat.leb].
      clear. revert h. induction t as [|y t IH]; intros h; [reflexivity|].
      change (last ("local" :: h :: y :: t) ("local__" ++ x))
        with (last ("local" :: y :: t) ("local__" ++ x)).
      change (last ("local" :: h :: y :: t) "") with (last ("local" :: y :: t) "").
      apply IH. }
    assert (Hs : Js.includes2u realname = false)
      by apply last_part_no_separator.
    assert (Hr : normalizeToolName realname = realname).
    { unfold normalizeToolName. now rewrite (no_separator_no_prefix _ Hs). }
    split; [exact Hn|]. split; [exact Hs|]. split; [now rewrite Hn, Hr|].
    unfold callToolHandler. subst request'.
    cbn [request_name arguments progressToken apifyToken].
    destruct (orElse (apifyToken request) (APIFY_TOKEN env)) as [[|c r]|];
      try reflexivity.
    now rewrite !completion_bind_quiet, Hn, Hr.
  - intros name H. unfold normalizeToolName. now rewrite H.
Qed.

Lemma prefix_stripping_witness :
  findTool (normalizeToolName "local__apify-actors__my-tool")
           (mkServer [("my-tool", helper "my-tool")] false [])
  = findTool (normalizeToolName "my-tool")
             (mkServer [("my-tool", helper "my-tool")] false []).
Proof.
  exact (proj1 (proj2 (proj2
           (proj1 prefix_stripping
              (mkServer [("my-tool", helper "my-tool")] false [])
              (mkEnv None (fun _ _ => true) (fun _ => "") (fun _ _ => "")
                     (fun _ _ => Js.Return (mkResult None))
                     (fun _ => Js.Return tt)
                     (fun _ _ => Js.Return (mkResult None))
                     (mkPlatform (fun _ _ _ => Js.Throw (Error ""))
                                 (fun _ => Js.Throw (Error ""))
                                 (fun _ _ => Js.Return tt)
                                 (fun _ _ => Js.Throw (Error "")))
                     (fun _ _ => []))
              (mkRequest "local__apify-actors__my-tool" None None None)
              None eq_refl)))).
Defined.

(** The [catch] clause: of the exceptions that reach it, an error of the
    platform becomes a result with a text, every other one the internal
    error with the fixed message. *)
Lemma catch_clause_conversion (s : ActorsMcpServer) (env : Env)
      (request : CallToolRequest) (signal : option AbortSignal)
      (c : ascii) (r : string) (tool : ToolEntry) (args : Args) (error : Exn) :
  orElse (apifyToken request) (APIFY_TOKEN env) = Some (String c r) ->
  findTool (normalizeToolName (request_name request)) s = Some tool ->
  arguments request = Some args ->
  ajvValidate env tool (decodeDotPropertyNames args) = true ->
  completion (callByType env tool (decodeDotPropertyNames args) (String c r)
                         (progressToken request) signal) = Js.Throw error ->
  completion (callToolHandler s env request signal) =
  match error with
  | ApifyApiError message =>
      Js.Return (mkResult (Some [Text ("Apify API error calling tool "
                                       ++ normalizeToolName (request_name request)
                                       ++ ": " ++ message)]))
  | _ => Js.Throw (McpError InternalError "An error occurred while calling the tool.")
  end.
Proof.
  intros Htok Hfind Hargs Hval Hthrow.
  rewrite (handler_reaches_try s env request signal c r tool args) by assumption.
  rewrite completion_tryCatch, Hthrow. now destruct error.
Qed.

(** An internal tool that lets an error of the platform through gets it
    back as a result. *)
Lemma internal_tool_platform_error (s : ActorsMcpServer) (env : Env)
      (request : CallToolRequest) (signal : option AbortSignal)
      (c : ascii) (r : string) (t : HelperTool) (args : Args) (message : string) :
  orElse (apifyToken request) (APIFY_TOKEN env) = Some (String c r) ->
  findTool (normalizeToolName (request_name request)) s = Some (Internal t) ->
  arguments request = Some args ->
  ajvValidate env (Internal t) (decodeDotPropertyNames args) = true ->
  internalCall env t (decodeDotPropertyNames args) = Js.Throw (ApifyApiError message) ->
  completion (callToolHandler s env request signal) =
  Js.Return (mkResult (Some [Text ("Apify API error calling tool "
                                   ++ normalizeToolName (request_name request)
                                   ++ ": " ++ message)])).
Proof.
  intros Htok Hfind Hargs Hval Hcall.
  rewrite (catch_clause_conversion s env request signal c r (Internal t) args
                                   (ApifyApiError message)); try assumption.
  - reflexivity.
  - cbn [callByType]. rewrite !bind_emit. cbn [completion snd].
    rewrite completion_bind. unfold lift. cbn [completion snd]. now rewrite Hcall.
Qed.

(** C5 does not hold for Actor tools: an error of the platform
    ([ApifyApiError]) that is thrown when the run of an Actor tool is
    started is rethrown by [callActorGetDataset] as a plain [Error], so that
    the dispatcher answers with the generic internal error and not with a
    result that describes the error. *)
Theorem actor_tool_platform_error (s : ActorsMcpServer) (env : Env)
        (request : CallToolRequest) (signal : option AbortSignal)
        (c : ascii) (r : string) (t : ActorTool) (args : Args) (message : string) :
  orElse (apifyToken request) (APIFY_TOKEN env) = Some (String c r) ->
  findTool (normalizeToolName (request_name request)) s = Some (Actor t) ->
  arguments request = Some args ->
  ajvValidate env (Actor t) (decodeDotPropertyNames args) = true ->
  start (platform env) (actorFullName t) (decodeDotPropertyNames args)
        (Some (memoryMbytes t)) = Js.Throw (ApifyApiError message) ->
  completion (callToolHandler s env request signal) =
  Js.Throw (McpError InternalError "An error occurred while calling the tool.").
Proof.
  intros Htok Hfind Hargs Hval Hstart.
  rewrite (catch_clause_conversion
             s env request signal c r (Actor t) args
             (Error ("Error calling Actor: " ++ exnToString (ApifyApiError message))));
    try assumption.
  - reflexivity.
  - cbn [callByType]. rewrite completion_tryFinally, bind_emit. cbn [completion snd].
    rewrite completion_bind.
    now rewrite (callActorGetDataset_start_fails _ _ _ _ _ _ _ Hstart).
Qed.

(** The call of an Actor tool: the events and the completion of the
    handler, from those of [callActorGetDataset]. *)
Lemma handler_actor_tool (s : ActorsMcpServer) (env : Env)
      (request : CallToolRequest) (signal : option AbortSignal)
      (c : ascii) (r : string) (t : ActorTool) (args : Args) :
  orElse (apifyToken request) (APIFY_TOKEN env) = Some (String c r) ->
  findTool (normalizeToolName (request_name request)) s = Some (Actor t) ->
  arguments request = Some args ->
  ajvValidate env (Actor t) (decodeDotPropertyNames args) = true ->
  let call := callActorGetDataset (platform env) (actorFullName t)
                (decodeDotPropertyNames args) (Some (memoryMbytes t))
                (createProgressTracker (progressToken request)) signal in
  let before :=
    ((if Js.startsWith "local__" (request_name request)
      then [LogDebug "Tool name with prefix detected"] else [])
     ++ [LogDebug "Validate arguments for tool"; LogInfo "Calling Actor"])%list in
  let after :=
    if createProgressTracker (progressToken request) then [TrackerStop] else [] in
  callToolHandler s env request signal =
  match completion call with
  | Js.Return None =>
      ((before ++ events call ++ after)%list, Js.Return (mkResult None))
  | Js.Return (Some result) =>
      ((before ++ events call ++ after)%list,
       Js.Return (mkResult (Some (buildActorResponseContent env (actorFullName t) result))))
  | Js.Throw _ =>
      ((before ++ (events call ++ after) ++ [LogError "Error calling tool"])%list,
       Js.Throw (McpError InternalError "An error occurred while calling the tool."))
  end.
Proof.
  intros Htok Hfind Hargs Hval call before after.
  pose proof (callActorGetDataset_rethrows
                (platform env) (actorFullName t) (decodeDotPropertyNames args)
                (Some (memoryMbytes t)) (createProgressTracker (progressToken request))
                signal) as Hre.
  fold call in Hre. subst before after.
  unfold callToolHandler. rewrite Htok, Hfind, Hargs.
  cbn [callByType]. fold call.
  destruct call as [tr [[result|]|e]]; cbn [completion events fst snd] in *.
  - destruct (Js.startsWith "local__" (request_name request));
      cbn; rewrite Hval; cbn; now rewrite ?app_nil_r.
  - destruct (Js.startsWith "local__" (request_name request));
      cbn; rewrite Hval; cbn; now rewrite ?app_nil_r.
  - destruct (Hre e eq_refl) as [m ->].
    destruct (Js.startsWith "local__" (request_name request));
      cbn; rewrite Hval; cbn; now rewrite ?app_nil_r.
Qed.

Lemma actor_tool_platform_error_witness :
  completion (callToolHandler Scenario.server (Scenario.envWith Scenario.platformRefusing)
                              Scenario.request (Some NotAborted)) =
  Js.Throw (McpError InternalError "An error occurred while calling the tool.").
Proof.
  refine (actor_tool_platform_error
            Scenario.server (Scenario.envWith Scenario.platformRefusing)
            Scenario.request (Some NotAborted) "a" "pify_api_token"
            (mkActorTool "apify-slash-rag-web-browser" "apify/rag-web-browser" 1024)
            [("query", JString "rocq")]
            "By launching this job you will exceed the memory limit"
            _ _ _ _ _); reflexivity.
Defined.

(** ** Cancellation *)

Lemma callActorGetDataset_before_listening (platform : Platform) (actorName : string)
      (input : Args) (callOptions : option Z) (progressTracker : bool)
      (actorRun completedRun : ActorRun) (result : CallActorGetDatasetResult) :
  start platform actorName input callOptions = Js.Return actorRun ->
  waitForFinish platform (id actorRun) = Js.Return completedRun ->
  collectOutput platform actorRun completedRun = Js.Return result ->
  callActorGetDataset platform actorName input callOptions progressTracker
                      (Some AbortedBeforeListening) =
  (ActorStart actorName callOptions
     :: (if progressTracker then [TrackerStart (id actorRun)] else [])
     ++ [RunWaitForFinish (id actorRun)],
   Js.Return (Some result))%list.
Proof.
  intros Hstart Hwait Hcollect.
  unfold callActorGetDataset, processCompletedRun. rewrite Hstart.
  destruct progressTracker; cbn; rewrite Hwait; cbn; rewrite Hcollect; reflexivity.
Qed.

Lemma callActorGetDataset_aborted (platform : Platform) (actorName : string)
      (input : Args) (callOptions : option Z) (progressTracker : bool)
      (actorRun : ActorRun) :
  start platform actorName input callOptions = Js.Return actorRun ->
  callActorGetDataset platform actorName input callOptions progressTracker
                      (Some (AbortedWhileWaiting true)) =
  (ActorStart actorName callOptions
     :: (if progressTracker then [TrackerStart (id actorRun)] else [])
     ++ [RunWaitForFinish (id actorRun); RunAbort (id actorRun) false]
     ++ match abort platform (id actorRun) false with
        | Js.Return _ => []
        | Js.Throw _ => [LogError "Error aborting Actor run"]
        end
     ++ [LogInfo "Actor run aborted by client"],
   Js.Return None)%list.
Proof.
  intros Hstart.
  unfold callActorGetDataset, abortListener. rewrite Hstart.
  destruct progressTracker; cbn;
    destruct (abort platform (id actorRun) false); reflexivity.
Qed.

(** When the signal is aborted while the dispatcher waits for the run and
    the listener is done first, the run is aborted without grace, a failure
    of the abort request is logged and ignored, and the handler returns the
    empty result. *)
Lemma cancellation_while_waiting (s : ActorsMcpServer) (env : Env)
      (request : CallToolRequest) (c : ascii) (r : string) (t : ActorTool)
      (args : Args) (actorRun : ActorRun) :
  orElse (apifyToken request) (APIFY_TOKEN env) = Some (String c r) ->
  findTool (normalizeToolName (request_name request)) s = Some (Actor t) ->
  arguments request = Some args ->
  ajvValidate env (Actor t) (decodeDotPropertyNames args) = true ->
  start (platform env) (actorFullName t) (decodeDotPropertyNames args)
        (Some (memoryMbytes t)) = Js.Return actorRun ->
  let m := callToolHandler s env request (Some (AbortedWhileWaiting true)) in
  In (RunAbort (id actorRun) false) (events m) /\
  (forall runId, ~ In (RunAbort runId true) (events m)) /\
  (forall e, abort (platform env) (id actorRun) false = Js.Throw e ->
             In (LogError "Error aborting Actor run") (events m)) /\
  completion m = Js.Return (mkResult None).
Proof.
  intros Htok Hfind Hargs Hval Hstart m. subst m.
  rewrite (handler_actor_tool s env request _ c r t args Htok Hfind Hargs Hval).
  rewrite (callActorGetDataset_aborted _ _ _ _ _ _ Hstart).
  cbn [completion events fst snd].
  split; [|split; [|split; [|reflexivity]]].
  - destruct (Js.startsWith "local__" (request_name request));
      destruct (createProgressTracker (progressToken request));
      destruct (abort (platform env) (id actorRun) false);
      cbn; intuition.
  - intros runId.
    destruct (Js.startsWith "local__" (request_name request));
      destruct (createProgressTracker (progressToken request));
      destruct (abort (platform env) (id actorRun) false);
      cbn; intuition discriminate.
  - intros e He. rewrite He.
    destruct (Js.startsWith "local__" (request_name request));
      destruct (createProgressTracker (progressToken request));
      cbn; intuition.
Qed.

(** C1 does not hold for a signal that is aborted before the listener of
    its [abort] event is added, that is while the start of the run is
    pending: the listener is never called, so that no abort request is
    sent; the dispatcher waits for the run and returns its content. *)
Theorem cancellation_before_listening (s : ActorsMcpServer) (env : Env)
        (request : CallToolRequest) (c : ascii) (r : string) (t : ActorTool)
        (args : Args) (actorRun completedRun : ActorRun)
        (result : CallActorGetDatasetResult) :
  orElse (apifyToken request) (APIFY_TOKEN env) = Some (String c r) ->
  findTool (normalizeToolName (request_name request)) s = Some (Actor t) ->
  arguments request = Some args ->
  ajvValidate env (Actor t) (decodeDotPropertyNames args) = true ->
  start (platform env) (actorFullName t) (decodeDotPropertyNames args)
        (Some (memoryMbytes t)) = Js.Return actorRun ->
  waitForFinish (platform env) (id actorRun) = Js.Return completedRun ->
  collectOutput (platform env) actorRun completedRun = Js.Return result ->
  let m := callToolHandler s env request (Some AbortedBeforeListening) in
  existsb isRunAbort (events m) = false /\
  completion m =
  Js.Return (mkResult (Some (buildActorResponseContent env (actorFullName t) result))).
Proof.
  intros Htok Hfind Hargs Hval Hstart Hwait Hcollect m. subst m.
  rewrite (handler_actor_tool s env request _ c r t args Htok Hfind Hargs Hval).
  rewrite (callActorGetDataset_before_listening _ _ _ _ _ _ _ _ Hstart Hwait Hcollect).
  cbn [completion events fst snd]. split; [|reflexivity].
  destruct (Js.startsWith "local__" (request_name request));
    destruct (createProgressTracker (progressToken request)); reflexivity.
Qed.

Lemma cancellation_before_listening_witness :
  callToolHandler Scenario.server (Scenario.envWith Scenario.platformOk)
                  Scenario.request (Some AbortedBeforeListening) =
  ([LogDebug "Validate arguments for tool"; LogInfo "Calling Actor";
    ActorStart "apify/rag-web-browser" (Some 1024%Z); RunWaitForFinish "run-1"],
   Js.Return (mkResult (Some [Text "preview"; Text "summary"]))) /\
  existsb isRunAbort
          (events (callToolHandler Scenario.server (Scenario.envWith Scenario.platformOk)
                                   Scenario.request (Some AbortedBeforeListening))) = false.
Proof.
  split; [reflexivity|].
  refine (proj1 (cancellation_before_listening
            Scenario.server (Scenario.envWith Scenario.platformOk)
            Scenario.request "a" "pify_api_token"
            (mkActorTool "apify-slash-rag-web-browser" "apify/rag-web-browser" 1024)
            [("query", JString "rocq")] Scenario.run Scenario.run
            (mkCallResult "run-1" "dataset-1" 1 [JString "item"])
            _ _ _ _ _ _ _)); reflexivity.
Defined.

(** The same call when the signal is aborted during the wait. *)
Example cancellation_while_waiting_example :
  callToolHandler Scenario.server (Scenario.envWith Scenario.platformOk)
                  Scenario.request (Some (AbortedWhileWaiting true)) =
  ([LogDebug "Validate arguments for tool"; LogInfo "Calling Actor";
    ActorStart "apify/rag-web-browser" (Some 1024%Z); RunWaitForFinish "run-1";
    RunAbort "run-1" false; LogInfo "Actor run aborted by client"],
   Js.Return (mkResult None)).
Proof. reflexivity. Qed.

End Contract.

(* ===================================================================== *)
(** * Part IV: further properties of the modelled code                    *)
(* ===================================================================== *)

(** ** Names of Actor tools *)

Section ToolNameFacts.
Import ToolsUtils.

Lemma replaceAllChar_absent (c : ascii) (tok s : string) :
  Js.includesChar c s = false -> Js.replaceAllChar c tok s = s.
Proof.
  induction s as [|a s IH]; simpl; [reflexivity|].
  intros H. apply orb_false_iff in H as [Ha Hs]. now rewrite Ha, IH.
Qed.

Lemma slice0_short (n : nat) (s : string) :
  String.length s <= n -> Js.slice0 n s = s.
Proof.
  revert s; induction n as [|n IH]; intros [|a s]; simpl; try reflexivity.
  - lia.
  - intros H. rewrite IH; [reflexivity | lia].
Qed.

Lemma slice0_app_exact (x y : string) :
  Js.slice0 (String.length x) (x ++ y) = x.
Proof. induction x as [|a x IH]; simpl; [now destruct y | now rewrite IH]. Qed.

(** A name that is already a tool name (at most 64 units, neither [/]
    nor [.]) is left as it is, so that naming is idempotent: the name of a
    tool, taken as the name of an Actor, gives the same tool name. *)
Theorem actorNameToToolName_idempotent :
  (forall n : string,
      String.length n <= 64 ->
      Js.includesChar "/" n = false ->
      Js.includesChar "." n = false ->
      actorNameToToolName n = n) /\
  (forall n : string,
      actorNameToToolName (actorNameToToolName n) = actorNameToToolName n).
Proof.
  assert (Hid : forall n : string,
             String.length n <= 64 ->
             Js.includesChar "/" n = false ->
             Js.includesChar "." n = false ->
             actorNameToToolName n = n).
  { intros n Hlen Hs Hd. unfold actorNameToToolName.
    rewrite (replaceAllChar_absent "/" _ n Hs), (replaceAllChar_absent "." _ n Hd).
    now apply slice0_short. }
  split; [exact Hid|].
  intros n. apply Hid; unfold actorNameToToolName.
  - rewrite length_slice0. apply Nat.le_min_l.
  - apply includesChar_slice0, includesChar_replaceAllChar_other; [reflexivity|].
    now apply includesChar_replaceAllChar_same.
  - apply includesChar_slice0. now apply includesChar_replaceAllChar_same.
Qed.

Lemma actorNameToToolName_idempotent_witness :
  actorNameToToolName "apify-slash-rag-web-browser" = "apify-slash-rag-web-browser".
Proof.
  apply (proj1 actorNameToToolName_idempotent); [vm_compute; lia | reflexivity | reflexivity].
Defined.

End ToolNameFacts.

(** ** Renaming the keys of an object *)

Section RenameFacts.
Context {V : Type}.
Variable f : string -> string.
Implicit Types (o acc : list (string * V)) (props : list (string * V)).

Lemma not_in_keys_absent (k : string) o : ~ In k (Js.keys o) -> Js.get k o = None.
Proof.
  clear f. induction o as [|[k' v'] o IH]; simpl; [reflexivity|].
  intros H. destruct (String.eqb_spec k' k) as [->|N]; [tauto|].
  apply IH. tauto.
Qed.

Lemma present_in_keys (k : string) (v : V) o : Js.get k o = Some v -> In k (Js.keys o).
Proof.
  induction o as [|[k' v'] o IH]; simpl; [discriminate|].
  destruct (String.eqb_spec k' k) as [->|N]; [now left | right; auto].
Qed.

Lemma get_in (k : string) (v : V) o : Js.get k o = Some v -> In (k, v) o.
Proof.
  induction o as [|[k' v'] o IH]; simpl; [discriminate|].
  destruct (String.eqb_spec k' k) as [->|N].
  - intros [= ->]. now left.
  - right. auto.
Qed.

Lemma set_fresh (k : string) (v : V) o :
  Js.get k o = None -> Js.set k v o = (o ++ [(k, v)])%list.
Proof.
  induction o as [|[k' v'] o IH]; simpl; [reflexivity|].
  destruct (String.eqb k' k); [discriminate|]. intros H. now rewrite IH.
Qed.

(** The loop of [encodeDotPropertyNames] and [decodeDotPropertyNames], for
    a renaming [f] of the keys. *)
Lemma rename_keys_NoDup props acc :
  NoDup (Js.keys acc) ->
  NoDup (Js.keys (fold_left (fun a kv => Js.set (f (fst kv)) (snd kv) a) props acc)).
Proof.
  revert acc; induction props as [|[k v] props IH]; intros acc H; simpl; [exact H|].
  apply IH. now apply NoDup_keys_set.
Qed.

Lemma rename_keys_in (k : string) props acc :
  In k (Js.keys (fold_left (fun a kv => Js.set (f (fst kv)) (snd kv) a) props acc)) <->
  In k (Js.keys acc) \/ exists k0, In k0 (Js.keys props) /\ f k0 = k.
Proof.
  revert acc; induction props as [|[k1 v1] props IH]; intros acc; simpl.
  - split; [tauto | intros [H|(k0 & [] & _)]; exact H].
  - rewrite IH, keys_set. cbn [fst snd]. split.
    + intros [H|(k0 & H0 & E)].
      * destruct (Js.has (f k1) acc); [now left|].
        apply in_app_or in H as [H|[<-|[]]]; [now left|].
        right. exists k1. split; [now left | reflexivity].
      * right. exists k0. split; [now right | exact E].
    + intros [H|(k0 & [<-|H0] & E)].
      * left. destruct (Js.has (f k1) acc); [exact H | apply in_or_app; now left].
      * left. subst k. unfold Js.has.
        destruct (Js.get (f k1) acc) eqn:G.
        -- eapply present_in_keys, G.
        -- apply in_or_app. right. now left.
      * right. now exists k0.
Qed.

Lemma rename_keys_get (k : string) (v : V) props acc :
  Js.get k (fold_left (fun a kv => Js.set (f (fst kv)) (snd kv) a) props acc) = Some v ->
  Js.get k acc = Some v \/ exists k0, In (k0, v) props /\ f k0 = k.
Proof.
  revert acc; induction props as [|[k1 v1] props IH]; intros acc; simpl; [tauto|].
  intros H. apply IH in H as [H|(k0 & H0 & E)].
  - cbn [fst snd] in H. destruct (String.eqb_spec (f k1) k) as [E|N].
    + subst k. rewrite get_set_same in H. injection H as <-.
      right. exists k1. split; [now left | reflexivity].
    + rewrite get_set_other in H by exact N. now left.
  - right. exists k0. split; [now right | exact E].
Qed.

(** When the renamed keys are distinct the loop is a [map]. *)
Lemma rename_keys_map props acc :
  NoDup (Js.keys acc ++ map f (Js.keys props))%list ->
  fold_left (fun a kv => Js.set (f (fst kv)) (snd kv) a) props acc =
  (acc ++ map (fun kv => (f (fst kv), snd kv)) props)%list.
Proof.
  revert acc; induction props as [|[k v] props IH]; intros acc H; simpl.
  - now rewrite app_nil_r.
  - cbn [fst snd]. simpl in H.
    assert (Hfresh : Js.get (f k) acc = None).
    { apply not_in_keys_absent. intros I.
      apply NoDup_remove_2 in H. apply H. apply in_or_app. now left. }
    rewrite (set_fresh _ _ _ Hfresh), IH.
    + now rewrite <- app_assoc.
    + rewrite keys_app. simpl. rewrite <- app_assoc. simpl.
      apply NoDup_remove_1 in H as H1.
      apply NoDup_remove_2 in H as H2.
      clear - H1 H2.
      induction (Js.keys acc) as [|a l IHl]; simpl in *.
      * constructor; [exact H2 | exact H1].
      * inversion H1 as [|x y Hx Hy]; subst. constructor.
        -- intros I. apply Hx. apply in_app_or in I as [I|[I|I]].
           ++ apply in_or_app. now left.
           ++ subst a. exfalso. apply H2. now left.
           ++ apply in_or_app. now right.
        -- apply IHl; [exact Hy | intros I; apply H2; now right].
Qed.

(** The loop with the assignments of a plain object: the entries whose
    renamed key is [__proto__] take no part in it. *)
Lemma assign_keys_filter props acc :
  fold_left (fun a kv => Js.assignProperty (f (fst kv)) (snd kv) a) props acc =
  fold_left (fun a kv => Js.set (f (fst kv)) (snd kv) a)
            (filter (fun kv => negb (String.eqb (f (fst kv)) "__proto__")) props) acc.
Proof.
  revert acc; induction props as [|[k v] props IH]; intros acc; simpl; [reflexivity|].
  cbn [fst snd].
  change (Js.assignProperty (f k) v acc)
    with (if String.eqb (f k) "__proto__" then acc else Js.set (f k) v acc).
  destruct (String.eqb (f k) "__proto__"); simpl; apply IH.
Qed.

Lemma in_filtered_keys (p : string -> bool) (k : string) props :
  In k (Js.keys (filter (fun kv => p (fst kv)) props)) <->
  In k (Js.keys props) /\ p k = true.
Proof.
  clear f. induction props as [|[k1 v1] props IH]; simpl; [tauto|].
  destruct (p k1) eqn:P; simpl; rewrite IH; split.
  - intros [<-|[H1 H2]]; [split; [now left | exact P] | split; [now right | exact H2]].
  - intros [[<-|H1] H2]; [now left | right; now split].
  - intros [H1 H2]. split; [now right | exact H2].
  - intros [[<-|H1] H2]; [congruence | now split].
Qed.

Lemma NoDup_keys_filter (p : string -> bool) props :
  NoDup (Js.keys props) -> NoDup (Js.keys (filter (fun kv => p (fst kv)) props)).
Proof.
  clear f. induction props as [|[k1 v1] props IH]; simpl; [constructor|].
  intros ND. inversion ND as [|x y Hx Hy]; subst.
  destruct (p k1) eqn:P; simpl; [|now apply IH].
  constructor; [|now apply IH].
  intros I. apply in_filtered_keys in I as [I _]. contradiction.
Qed.

Lemma filter_all (p : string * V -> bool) props :
  (forall kv, In kv props -> p kv = true) -> filter p props = props.
Proof.
  clear f. induction props as [|kv props IH]; simpl; [reflexivity|].
  intros H. rewrite (H kv) by now left. f_equal. apply IH. intros kv' I. apply H. now right.
Qed.

End RenameFacts.

Section PropertyNameFacts.
Import ToolsUtils.
Context {V : Type}.

(** A name with a dot has the letter of the placeholder in its encoding. *)
Lemma encodeKey_letter (k : string) :
  Js.includesChar "." k = true -> Js.includesChar "d" (encodeKey k) = true.
Proof.
  unfold encodeKey. induction k as [|a r IH]; simpl; [discriminate|].
  destruct (Ascii.eqb a ".") eqn:E; simpl.
  - reflexivity.
  - intros H. rewrite (IH H). apply orb_true_r.
Qed.

(** Only the name [__proto__] is encoded as [__proto__]. *)
Lemma encodeKey_proto (k : string) :
  String.eqb (encodeKey k) "__proto__" = String.eqb k "__proto__".
Proof.
  destruct (Js.includesChar "." k) eqn:D.
  - apply encodeKey_letter in D.
    destruct (String.eqb_spec (encodeKey k) "__proto__") as [E|_].
    + rewrite E in D. discriminate.
    + destruct (String.eqb_spec k "__proto__") as [->|_]; [discriminate | reflexivity].
  - unfold encodeKey. now rewrite (replaceAllChar_absent _ _ _ D).
Qed.

(** The exported schema has no dot in a property name, no name twice and
    no property [__proto__]; each of its properties is a property of the
    input under the encoded name, and the encoded name of every input
    property other than [__proto__] is there (with the value of the last
    input property that has this encoded name).  An input property named
    [__proto__] is lost: the assignment to this name makes no property in
    the object of the result. *)
Theorem encodeDotPropertyNames_keys (properties : list (string * V)) :
  let encoded := encodeDotPropertyNames properties in
  NoDup (Js.keys encoded) /\
  (forall k, In k (Js.keys encoded) -> Js.includesChar "." k = false) /\
  (forall k0, In k0 (Js.keys properties) -> k0 <> "__proto__" ->
              In (encodeKey k0) (Js.keys encoded)) /\
  (forall k v, Js.get k encoded = Some v ->
               exists k0, In (k0, v) properties /\ encodeKey k0 = k) /\
  ~ In "__proto__" (Js.keys encoded).
Proof.
  unfold encodeDotPropertyNames. rewrite assign_keys_filter.
  split; [|split; [|split; [|split]]].
  - apply rename_keys_NoDup. constructor.
  - intros k H. apply rename_keys_in in H as [[]|(k0 & _ & <-)].
    now apply includesChar_replaceAllChar_same.
  - intros k0 H N. apply rename_keys_in. right. exists k0. split; [|reflexivity].
    apply (in_filtered_keys (fun k => negb (String.eqb (encodeKey k) "__proto__"))).
    split; [exact H|]. rewrite encodeKey_proto.
    destruct (String.eqb_spec k0 "__proto__"); [contradiction | reflexivity].
  - intros k v H. apply rename_keys_get in H as [H|(k0 & I & E)]; [discriminate|].
    exists k0. split; [|exact E]. apply filter_In in I. apply I.
  - intros H. apply rename_keys_in in H as [[]|(k0 & I & E)].
    apply (in_filtered_keys (fun k => negb (String.eqb (encodeKey k) "__proto__"))) in I
      as [_ I].
    rewrite E in I. discriminate.
Qed.

Lemma encodeKey_injective (k1 k2 : string) :
  dotHazard k1 = false -> dotHazard k2 = false ->
  encodeKey k1 = encodeKey k2 -> k1 = k2.
Proof.
  intros H1 H2 E.
  rewrite <- (decode_encode_key k1 H1), <- (decode_encode_key k2 H2). now rewrite E.
Qed.

Lemma NoDup_map_injective {A B} (g : A -> B) (l : list A) :
  (forall x y, In x l -> In y l -> g x = g y -> x = y) ->
  NoDup l -> NoDup (map g l).
Proof.
  induction l as [|a l IH]; intros Hinj ND; simpl; [constructor|].
  inversion ND as [|x y Hx Hy]; subst. constructor.
  - intros I. apply in_map_iff in I as (b & E & Ib).
    assert (b = a) by (apply Hinj; [now right | now left | exact E]).
    subst b. contradiction.
  - apply IH; [|exact Hy]. intros x y Ix Iy. apply Hinj; now right.
Qed.

(** The round trip on objects whose names are distinct and unambiguous,
    none of them reading [-dot-] or [-dot.] at some position. *)
Lemma decode_encode_own (properties : list (string * V)) :
  NoDup (Js.keys properties) ->
  (forall k, In k (Js.keys properties) -> dotHazard k = false) ->
  decodeDotPropertyNames (encodeDotPropertyNames properties) =
  filter (fun kv => negb (String.eqb (fst kv) "__proto__")) properties.
Proof.
  intros ND0 Hz0.
  unfold encodeDotPropertyNames. rewrite assign_keys_filter.
  rewrite (filter_ext (fun kv : string * V => negb (String.eqb (encodeKey (fst kv)) "__proto__"))
                      (fun kv => negb (String.eqb (fst kv) "__proto__")))
    by (intros kv; now rewrite encodeKey_proto).
  assert (ND : NoDup (Js.keys (filter (fun kv : string * V =>
                                         negb (String.eqb (fst kv) "__proto__")) properties)))
    by apply (NoDup_keys_filter (fun k => negb (String.eqb k "__proto__"))), ND0.
  assert (Hz : forall k, In k (Js.keys (filter (fun kv : string * V =>
                                         negb (String.eqb (fst kv) "__proto__")) properties)) ->
                         dotHazard k = false /\ String.eqb k "__proto__" = false).
  { intros k I.
    apply (in_filtered_keys (fun k => negb (String.eqb k "__proto__"))) in I as [I P].
    split; [now apply Hz0 | now apply negb_true_iff]. }
  clear ND0 Hz0.
  set (own := filter (fun kv : string * V => negb (String.eqb (fst kv) "__proto__"))
                     properties) in *.
  clearbody own. clear properties.
  rewrite rename_keys_map.
  2:{ simpl. apply NoDup_map_injective; [|exact ND].
      intros x y Ix Iy. apply encodeKey_injective; now apply Hz. }
  simpl. unfold decodeDotPropertyNames. rewrite assign_keys_filter.
  rewrite filter_all.
  2:{ intros [k v] I. apply in_map_iff in I as ([k0 v0] & E & I).
      cbn [fst snd] in E. injection E as <- <-. cbn [fst].
      assert (Ik : In k0 (Js.keys own)) by (apply in_map_iff; now exists (k0, v0)).
      destruct (Hz k0 Ik) as [Hh Hp].
      now rewrite (decode_encode_key k0 Hh), Hp. }
  assert (Hkeys : map decodeKey
                      (Js.keys (map (fun kv : string * V => (encodeKey (fst kv), snd kv))
                                    own)) = Js.keys own).
  { unfold Js.keys. rewrite !map_map. cbn [fst].
    clear ND. induction own as [|[k v] ps IH]; simpl; [reflexivity|].
    rewrite decode_encode_key by (apply Hz; now left).
    f_equal. apply IH. intros k' Hk'. apply Hz. now right. }
  rewrite rename_keys_map.
  - simpl. rewrite map_map. cbn [fst snd].
    clear ND Hkeys. induction own as [|[k v] ps IH]; simpl; [reflexivity|].
    rewrite decode_encode_key by (apply Hz; now left).
    f_equal. apply IH. intros k' Hk'. apply Hz. now right.
  - simpl. rewrite Hkeys. exact ND.
Qed.

(** The round trip on objects: when the property names are distinct and
    none of them reads [-dot-] or [-dot.] at some position, decoding the
    encoded object gives back the properties other than [__proto__], in
    the same order; a property named [__proto__] is lost, as an
    assignment to this name makes no property in a fresh object.  So
    the round trip gives the object back when, in addition, no property
    is named [__proto__]. *)
Theorem decode_encode_properties (properties : list (string * V)) :
  NoDup (Js.keys properties) ->
  (forall k, In k (Js.keys properties) -> dotHazard k = false) ->
  decodeDotPropertyNames (encodeDotPropertyNames properties) =
  filter (fun kv => negb (String.eqb (fst kv) "__proto__")) properties /\
  (~ In "__proto__" (Js.keys properties) ->
   decodeDotPropertyNames (encodeDotPropertyNames properties) = properties).
Proof.
  intros ND Hz. split; [now apply decode_encode_own|].
  intros N. rewrite decode_encode_own by assumption.
  apply filter_all. intros [k v] I. cbn [fst].
  destruct (String.eqb_spec k "__proto__") as [->|_]; [|reflexivity].
  exfalso. apply N. apply in_map_iff. now exists ("__proto__", v).
Qed.

End PropertyNameFacts.

Lemma decode_encode_properties_witness :
  ToolsUtils.decodeDotPropertyNames
    (ToolsUtils.encodeDotPropertyNames [("crawl.depth", 1%Z); ("start-urls", 2%Z); ("a.b.c", 3%Z)])
  = [("crawl.depth", 1%Z); ("start-urls", 2%Z); ("a.b.c", 3%Z)].
Proof.
  refine (proj1 (decode_encode_properties
                   [("crawl.depth", 1%Z); ("start-urls", 2%Z); ("a.b.c", 3%Z)] _ _)).
  - repeat constructor; simpl; intuition discriminate.
  - intros k [<-|[<-|[<-|[]]]]; reflexivity.
Defined.

(** A property named [__proto__] does not survive either pass; the other
    properties do. *)
Example renaming_proto :
  ToolsUtils.encodeDotPropertyNames [("a.b", 1%Z); ("__proto__", 2%Z); ("c", 3%Z)]
  = [("a-dot-b", 1%Z); ("c", 3%Z)] /\
  ToolsUtils.decodeDotPropertyNames [("a-dot-b", 1%Z); ("__proto__", 2%Z); ("c", 3%Z)]
  = [("a.b", 1%Z); ("c", 3%Z)].
Proof. split; reflexivity. Qed.

(** Two properties whose names encode to the same name collapse into one,
    with the value of the later one. *)
Example encodeDotPropertyNames_collision :
  ToolsUtils.encodeDotPropertyNames [("a.b", 1%Z); ("x", 2%Z); ("a-dot-b", 3%Z)]
  = [("a-dot-b", 3%Z); ("x", 2%Z)].
Proof. reflexivity. Qed.

(** ** The shortening pass, applied again *)

Section ShorteningAgain.
Import ToolsUtils Const.

Lemma shortenEnumFilter_within (charCount : nat) (l : list string) :
  charCount + totalLength l <= ACTOR_ENUM_MAX_LENGTH ->
  shortenEnumFilter charCount l = l.
Proof.
  revert charCount; induction l as [|v l IH]; intros c H; simpl; [reflexivity|].
  rewrite totalLength_cons in H.
  destruct (Nat.leb_spec (c + String.length v) ACTOR_ENUM_MAX_LENGTH); [|lia].
  rewrite IH; [reflexivity | lia].
Qed.

Lemma shortenEnumField_within (e : option (list string)) :
  match e with
  | Some l => totalLength l <= ACTOR_ENUM_MAX_LENGTH
  | None => True
  end ->
  shortenEnumField e = e.
Proof.
  destruct e as [[|v r]|]; simpl; try reflexivity.
  intros H. unfold shortenEnum.
  now rewrite (shortenEnumFilter_within 0 (v :: r)) by exact H.
Qed.

Lemma shortenEnumField_idempotent (e : option (list string)) :
  shortenEnumField (shortenEnumField e) = shortenEnumField e.
Proof.
  apply shortenEnumField_within.
  pose proof (shortenEnumField_spec e) as S.
  destruct (shortenEnumField e); [apply S | exact I].
Qed.

Lemma shortenDescription_idempotent (d : string) :
  shortenDescription (shortenDescription d) = shortenDescription d.
Proof.
  unfold shortenDescription at 2 3.
  destruct (Nat.ltb_spec ACTOR_MAX_DESCRIPTION_LENGTH (String.length d)) as [L|L].
  - unfold shortenDescription.
    assert (Hl : String.length (Js.slice0 ACTOR_MAX_DESCRIPTION_LENGTH d)
                 = ACTOR_MAX_DESCRIPTION_LENGTH).
    { rewrite length_slice0. lia. }
    destruct (Nat.ltb_spec ACTOR_MAX_DESCRIPTION_LENGTH
                (String.length (Js.slice0 ACTOR_MAX_DESCRIPTION_LENGTH d ++ "..."))) as [L'|L'].
    + f_equal. rewrite <- Hl at 1. apply slice0_app_exact.
    + rewrite length_app, Hl in L'. change (String.length "...") with 3 in L'. lia.
  - unfold shortenDescription.
    destruct (Nat.ltb_spec ACTOR_MAX_DESCRIPTION_LENGTH (String.length d)); [lia | reflexivity].
Qed.

(** The pass is idempotent: a schema that went through it is not changed
    by a second pass, although a cut description has 503 units. *)
Theorem shortenProperties_idempotent (properties : list (string * ISchemaProperties)) :
  shortenProperties (shortenProperties properties) = shortenProperties properties.
Proof.
  unfold shortenProperties. rewrite map_map. apply map_ext.
  intros [k p]. cbn [fst snd]. f_equal.
  unfold shortenProperty. cbn [type_ title description enum items].
  rewrite shortenDescription_idempotent, shortenEnumField_idempotent.
  destruct (items p) as [it|]; [|reflexivity].
  cbn [type_ title description enum items].
  now rewrite shortenEnumField_idempotent.
Qed.

(** The pass leaves a schema as it is when every description has at most
    500 units and the values of every [enum] and [items.enum] have at most
    200 units in total. *)
Theorem shortenProperties_within_limits (properties : list (string * ISchemaProperties)) :
  (forall k p, In (k, p) properties ->
     String.length (description p) <= ACTOR_MAX_DESCRIPTION_LENGTH /\
     match enum p with
     | Some l => totalLength l <= ACTOR_ENUM_MAX_LENGTH
     | None => True
     end /\
     match items p with
     | Some it => match enum it with
                  | Some l => totalLength l <= ACTOR_ENUM_MAX_LENGTH
                  | None => True
                  end
     | None => True
     end) ->
  shortenProperties properties = properties.
Proof.
  intros H. unfold shortenProperties.
  rewrite <- (map_id properties) at 2. apply map_ext_in.
  intros [k p] I. cbn [fst snd]. f_equal.
  destruct (H k p I) as (Hd & He & Hi).
  destruct p as [ty ti d e it]. cbn [description enum items] in *.
  unfold shortenProperty. cbn [type_ title description enum items].
  unfold shortenDescription.
  destruct (Nat.ltb_spec ACTOR_MAX_DESCRIPTION_LENGTH (String.length d)); [lia|].
  rewrite (shortenEnumField_within e He).
  destruct it as [[ty' ti' d' e' it']|]; [|reflexivity].
  cbn [type_ title description enum items] in *.
  now rewrite (shortenEnumField_within e' Hi).
Qed.

End ShorteningAgain.

Lemma shortenProperties_within_limits_witness :
  ToolsUtils.shortenProperties
    [("query", ToolsUtils.mkProperty "string" "Query" "Search term"
                 (Some ["web"; "news"]) None)]
  = [("query", ToolsUtils.mkProperty "string" "Query" "Search term"
                 (Some ["web"; "news"]) None)].
Proof.
  apply shortenProperties_within_limits.
  intros k p [E|[]]. injection E as <- <-.
  repeat split; vm_compute; lia.
Defined.

(** ** Trimming and splitting *)

Section TextFacts.

Lemma app_empty_r (s : string) : s ++ "" = s.
Proof. induction s as [|a s IH]; simpl; [reflexivity | now rewrite IH]. Qed.

Lemma app_assoc_string (x y z : string) : (x ++ y) ++ z = x ++ (y ++ z).
Proof. induction x as [|a x IH]; simpl; [reflexivity | now rewrite IH]. Qed.

Lemma rev_involutive (s : string) : Js.rev (Js.rev s) = s.
Proof.
  induction s as [|a s IH]; simpl; [reflexivity|].
  now rewrite rev_app, IH.
Qed.

Lemma includesChar_rev (c : ascii) (s : string) :
  Js.includesChar c (Js.rev s) = Js.includesChar c s.
Proof.
  induction s as [|a s IH]; simpl; [reflexivity|].
  rewrite includesChar_app, IH. simpl. rewrite orb_false_r. apply orb_comm.
Qed.

(** [trimStart] removes an initial segment. *)
Lemma trimStart_suffix (s : string) : exists p, s = p ++ Js.trimStart s.
Proof.
  induction s as [|a s [p IH]]; simpl.
  - now exists "".
  - destruct (Js.isSpace a).
    + exists (String a p). simpl. now rewrite <- IH.
    + now exists "".
Qed.

Lemma trimStart_noLeadingSpace (s : string) :
  JsText.noLeadingSpace (Js.trimStart s) = true.
Proof.
  induction s as [|a s IH]; simpl; [reflexivity|].
  destruct (Js.isSpace a) eqn:E; [exact IH|]. simpl. now rewrite E.
Qed.

Lemma trimStart_fixed (s : string) :
  JsText.noLeadingSpace s = true -> Js.trimStart s = s.
Proof.
  destruct s as [|a s]; simpl; [reflexivity|].
  now destruct (Js.isSpace a).
Qed.

Lemma noLeadingSpace_prefix (x y : string) :
  JsText.noLeadingSpace (x ++ y) = true -> JsText.noLeadingSpace x = true.
Proof. destruct x; simpl; auto. Qed.

(** [trim] gives a string without white space at either end. *)
Lemma trim_ends (s : string) :
  JsText.noLeadingSpace (Js.trim s) = true /\
  JsText.noLeadingSpace (Js.rev (Js.trim s)) = true.
Proof.
  unfold Js.trim. rewrite rev_involutive. split.
  - destruct (trimStart_suffix (Js.rev (Js.trimStart s))) as [p E].
    apply (f_equal Js.rev) in E. rewrite rev_involutive, rev_app in E.
    apply noLeadingSpace_prefix with (y := Js.rev p). rewrite <- E.
    apply trimStart_noLeadingSpace.
  - apply trimStart_noLeadingSpace.
Qed.

Lemma trim_fixed (s : string) :
  JsText.noLeadingSpace s = true ->
  JsText.noLeadingSpace (Js.rev s) = true ->
  Js.trim s = s.
Proof.
  intros H1 H2. unfold Js.trim.
  now rewrite (trimStart_fixed s H1), (trimStart_fixed _ H2), rev_involutive.
Qed.

Lemma trim_idempotent (s : string) : Js.trim (Js.trim s) = Js.trim s.
Proof. destruct (trim_ends s). now apply trim_fixed. Qed.

(** [trim] does not bring in a unit that the string does not have. *)
Lemma includesChar_trimStart (c : ascii) (s : string) :
  Js.includesChar c s = false -> Js.includesChar c (Js.trimStart s) = false.
Proof.
  destruct (trimStart_suffix s) as [p E]. intros H. rewrite E in H.
  rewrite includesChar_app in H. now apply orb_false_iff in H.
Qed.

Lemma includesChar_trim (c : ascii) (s : string) :
  Js.includesChar c s = false -> Js.includesChar c (Js.trim s) = false.
Proof.
  intros H. unfold Js.trim. rewrite includesChar_rev.
  apply includesChar_trimStart. rewrite includesChar_rev.
  now apply includesChar_trimStart.
Qed.

(** The parts of a split do not hold the separator. *)
Lemma splitChar_parts (c : ascii) (s : string) :
  Forall (fun part => Js.includesChar c part = false) (JsText.splitChar c s).
Proof.
  induction s as [|a s IH]; simpl.
  - repeat constructor.
  - destruct (Ascii.eqb a c) eqn:E.
    + constructor; [reflexivity | exact IH].
    + destruct (JsText.splitChar c s) as [|h t]; [repeat constructor; simpl; now rewrite E|].
      inversion IH as [|x y Hx Hy]; subst. constructor; [|exact Hy].
      simpl. now rewrite E, Hx.
Qed.

Lemma splitChar_nonempty (c : ascii) (s : string) : JsText.splitChar c s <> [].
Proof.
  destruct s as [|a s]; simpl; [discriminate|].
  destruct (Ascii.eqb a c); [discriminate|].
  destruct (JsText.splitChar c s); discriminate.
Qed.

(** Joining the parts with the separator gives the string back. *)
Lemma splitChar_join (c : ascii) (s : string) :
  Js.join (String c "") (JsText.splitChar c s) = s.
Proof.
  induction s as [|a s IH]; simpl; [reflexivity|].
  pose proof (splitChar_nonempty c s) as NE.
  destruct (Ascii.eqb_spec a c) as [->|N].
  - destruct (JsText.splitChar c s) as [|h t] eqn:E; [congruence|].
    change (Js.join (String c "") ("" :: h :: t))
      with ("" ++ String c "" ++ Js.join (String c "") (h :: t)).
    now rewrite IH.
  - destruct (JsText.splitChar c s) as [|h t] eqn:E; [congruence|].
    destruct t as [|h' t']; simpl in *; now rewrite <- IH.
Qed.

End TextFacts.

(** ** Input processing *)

Section InputFacts.
Import Types InputProcessing.

(** An entry of a normalised list: not empty, and without white space at
    its ends. *)
Lemma filter_trim_clean (l : list string) :
  Forall (fun s => s <> "" /\ Js.trim s = s)
         (filter (fun s => negb (String.eqb s "")) (map Js.trim l)).
Proof.
  induction l as [|a l IH]; simpl; [constructor|].
  destruct (String.eqb_spec (Js.trim a) ""); simpl; [exact IH|].
  constructor; [|exact IH]. split; [assumption | apply trim_idempotent].
Qed.

Lemma filter_trim_fixed (l : list string) :
  Forall (fun s => s <> "" /\ Js.trim s = s) l ->
  filter (fun s => negb (String.eqb s "")) (map Js.trim l) = l.
Proof.
  induction 1 as [|a l [Ha Ht] _ IH]; simpl; [reflexivity|].
  rewrite Ht. destruct (String.eqb_spec a ""); [contradiction|].
  simpl. now rewrite IH.
Qed.

Lemma filter_trim_no_separator (c : ascii) (l : list string) :
  Forall (fun s => Js.includesChar c s = false) l ->
  Forall (fun s => Js.includesChar c s = false)
         (filter (fun s => negb (String.eqb s "")) (map Js.trim l)).
Proof.
  induction 1 as [|a l Ha _ IH]; simpl; [constructor|].
  destruct (negb (Js.trim a =? "")); [|exact IH].
  constructor; [now apply includesChar_trim | exact IH].
Qed.

Lemma normalizeList_entries (value : option StringOrArray) (l : list string) :
  normalizeList value = Some l ->
  Forall (fun s => s <> "" /\ Js.trim s = s) l.
Proof.
  destruct value as [[raw|l0]|]; cbn [normalizeList]; [| |discriminate].
  - destruct (Js.trim raw =? ""); intros [= <-]; [constructor | apply filter_trim_clean].
  - intros [= <-]. apply filter_trim_clean.
Qed.

Lemma normalizeList_Arr_clean (l : list string) :
  Forall (fun s => s <> "" /\ Js.trim s = s) l ->
  normalizeList (Some (Arr l)) = Some l.
Proof. intros H. cbn [normalizeList]. f_equal. now apply filter_trim_fixed. Qed.

(** [normalizeList] answers [undefined] for [undefined] only.  The entries
    of the list that it returns are not empty and have no white space at
    their ends, so that the list is a fixed point of [normalizeList]; the
    entries made from a string have no comma. *)
Theorem normalizeList_clean (value : option StringOrArray) :
  match normalizeList value with
  | None => value = None
  | Some l =>
      Forall (fun s => s <> "" /\ Js.trim s = s) l /\
      normalizeList (Some (Arr l)) = Some l /\
      (forall raw, value = Some (Str raw) ->
                   Forall (fun s => Js.includesChar "," s = false) l)
  end.
Proof.
  destruct (normalizeList value) as [l|] eqn:E.
  - pose proof (normalizeList_entries value l E) as C.
    split; [exact C|]. split; [now apply normalizeList_Arr_clean|].
    intros raw ->. cbn [normalizeList] in E.
    destruct (Js.trim raw =? ""); injection E as <-; [constructor|].
    apply filter_trim_no_separator, splitChar_parts.
  - destruct value as [[raw|l0]|]; cbn [normalizeList] in E; [| |reflexivity].
    + destruct (Js.trim raw =? ""); discriminate.
    + discriminate.
Qed.

(** A record of the shape that [processInput] returns is not changed by
    [processInput]. *)
Lemma processInput_fixed (A : option StringOrArray)
      (legacy : option BooleanOrString) (b : bool) (merged : option (list string)) :
  A = None \/ A = Some (Arr []) ->
  match merged with
  | Some l => Forall (fun s => s <> "" /\ Js.trim s = s) l
  | None => True
  end ->
  processInput (mkPartial A legacy (Some (Bool b)) (option_map Arr merged))
  = mkPartial A legacy (Some (Bool b)) (option_map Arr merged).
Proof.
  intros HA Hm. unfold processInput.
  cbn [actors enableActorAutoLoading enableAddingActors tools unknownOf toBoolean].
  assert (Ht : normalizeList (option_map Arr merged) = merged).
  { destruct merged as [l|]; [|reflexivity]. now apply normalizeList_Arr_clean. }
  rewrite Ht. destruct HA as [->| ->]; reflexivity.
Qed.

(** The shape of a processed input: [actors] is [undefined] or the empty
    list, the flag is a boolean, and [tools] holds the normalised
    selectors followed by the normalised Actor names. *)
Lemma processInput_shape (raw : PartialInput) :
  exists (A : option StringOrArray) (b : bool) (merged : option (list string)),
    processInput raw
    = mkPartial A (enableActorAutoLoading raw) (Some (Bool b)) (option_map Arr merged) /\
    (A = None \/ A = Some (Arr [])) /\
    (A = Some (Arr []) <-> normalizeList (actors raw) = Some []) /\
    merged = match normalizeList (actors raw) with
             | Some (a :: r) =>
                 Some (match normalizeList (tools raw) with
                       | Some t => t
                       | None => []
                       end ++ a :: r)%list
             | _ => normalizeList (tools raw)
             end /\
    match merged with
    | Some l => Forall (fun s => s <> "" /\ Js.trim s = s) l
    | None => True
    end.
Proof.
  exists (match normalizeList (actors raw) with
          | Some [] => Some (Arr [])
          | _ => None
          end).
  exists (match enableAddingActors raw, enableActorAutoLoading raw with
          | None, Some legacy => toBoolean (unknownOf (Some legacy)) false
          | flag, _ => toBoolean (unknownOf flag) false
          end).
  exists (match normalizeList (actors raw) with
          | Some (a :: r) =>
              Some (match normalizeList (tools raw) with
                    | Some t => t
                    | None => []
                    end ++ a :: r)%list
          | _ => normalizeList (tools raw)
          end).
  unfold processInput.
  destruct (normalizeList (actors raw)) as [[|a r]|] eqn:Ea;
    destruct (normalizeList (tools raw)) as [t|] eqn:Et;
    cbn [option_map];
    (split; [reflexivity|]);
    (split; [(now left) || (now right)|]);
    (split; [split; intros; (discriminate || reflexivity)|]);
    (split; [reflexivity|]);
    try exact I;
    try (apply Forall_app; split);
    try (apply normalizeList_entries with (1 := Et));
    try (apply normalizeList_entries with (1 := Ea));
    try apply Forall_nil.
Qed.

(** [processInput] gives a canonical input: the field [actors] is
    [undefined] or the empty list (the second exactly when the given
    [actors] normalise to the empty list), [enableAddingActors] is a
    boolean, [tools] holds the normalised selectors followed by the
    normalised Actor names, and processing the result again changes
    nothing. *)
Theorem processInput_idempotent (raw : PartialInput) :
  let out := processInput raw in
  (actors out = None \/ actors out = Some (Arr [])) /\
  (actors out = Some (Arr []) <-> normalizeList (actors raw) = Some []) /\
  (exists b, enableAddingActors out = Some (Bool b)) /\
  tools out
  = option_map Arr
      match normalizeList (actors raw) with
      | Some (a :: r) =>
          Some (match normalizeList (tools raw) with
                | Some t => t
                | None => []
                end ++ a :: r)%list
      | _ => normalizeList (tools raw)
      end /\
  processInput out = out.
Proof.
  destruct (processInput_shape raw) as (A & b & merged & E & HA & Hiff & Hm & Hc).
  cbn zeta. rewrite E. cbn [actors enableAddingActors tools].
  split; [exact HA|]. split; [exact Hiff|]. split; [now exists b|].
  split; [now rewrite Hm|].
  now apply processInput_fixed.
Qed.

(** An explicit [enableAddingActors] wins over the deprecated flag; the
    deprecated flag counts only when [enableAddingActors] is absent, and a
    string counts as true only if it reads [true], in any letter case. *)
Lemma processInput_flag (raw : PartialInput) :
  enableAddingActors (processInput raw)
  = Some (Bool match enableAddingActors raw, enableActorAutoLoading raw with
               | Some (Bool b), _ => b
               | Some (BoolStr s), _ => String.eqb (JsText.toLowerCase s) "true"
               | None, Some (Bool b) => b
               | None, Some (BoolStr s) => String.eqb (JsText.toLowerCase s) "true"
               | None, None => false
               end).
Proof.
  unfold processInput. cbn [enableAddingActors].
  destruct (enableAddingActors raw) as [[b|s]|];
    destruct (enableActorAutoLoading raw) as [[b'|s']|]; reflexivity.
Qed.

End InputFacts.

(** ** The loader: where the returned tools come from *)

Section LoaderProvenance.
Import Types Const Tools ToolsLoader.

(** Every tool of a category is in the catalog of the internal tools. *)
Lemma category_in_catalog (category : string) (categoryTools : list ToolEntry)
      (e : ToolEntry) :
  Js.get category toolCategories = Some categoryTools ->
  In e categoryTools ->
  In e (getExpectedToolsByCategories (Js.keys toolCategories)).
Proof.
  intros G I. apply get_in in G.
  unfold toolCategories in G. simpl in G.
  repeat (destruct G as [G|G];
          [injection G as <- <-; simpl in I; vm_compute; tauto|]).
  contradiction.
Qed.

Lemma byName_in_catalog (selector : string) (e : ToolEntry) :
  Js.get selector getInternalToolByNameMap = Some e ->
  In e (getExpectedToolsByCategories (Js.keys toolCategories)).
Proof.
  intros G. apply get_in in G.
  apply (in_map snd) in G. cbn [snd] in G.
  revert G. generalize e. vm_compute. tauto.
Qed.

Lemma internalOfSelector_catalog (selector : string) (e : ToolEntry) :
  In e (internalOfSelector selector) ->
  In e (getExpectedToolsByCategories (Js.keys toolCategories)).
Proof.
  unfold internalOfSelector, toolCategoriesAt.
  destruct (String.eqb selector "preview").
  - intros [<-|[]]. vm_compute. tauto.
  - destruct (Js.get selector toolCategories) as [categoryTools|] eqn:G.
    + now apply category_in_catalog with (category := selector).
    + destruct (existsb (String.eqb selector) objectPrototypeKeys); [intros []|].
      destruct (Js.get selector getInternalToolByNameMap) as [byName|] eqn:N;
        [|intros []].
      intros [<-|[]]. now apply byName_in_catalog with (selector := selector).
Qed.

Lemma internalPart_catalog (input : Input) (selectors : option (list string))
      (sel : list string) (e : ToolEntry) :
  In e (internalPart input selectors (flat_map internalOfSelector sel)) ->
  In e (getExpectedToolsByCategories (Js.keys toolCategories)).
Proof.
  assert (Hsel : In e (flat_map internalOfSelector sel) ->
                 In e (getExpectedToolsByCategories (Js.keys toolCategories))).
  { intros I. apply in_flat_map in I as (x & _ & I).
    now apply internalOfSelector_catalog with (selector := x). }
  assert (Hadd : In addTool (getExpectedToolsByCategories (Js.keys toolCategories))).
  { vm_compute. tauto. }
  unfold internalPart. destruct selectors as [l|].
  - destruct (addActorEnabled input && _ && _); [|exact Hsel].
    destruct (existsb _ _); [exact Hsel|].
    intros I. apply in_app_or in I as [I|[<-|[]]]; [now apply Hsel | exact Hadd].
  - destruct (addActorEnabled input && _).
    + intros [<-|[]]. exact Hadd.
    + destruct (negb _); [|intros []].
      intros I. revert I. generalize e. vm_compute. tauto.
Qed.

(** The outcome of the partition, whatever the selectors are. *)
Lemma partitionSelectors_cases (sel : list string) :
  (existsb throwingSelector sel = true /\
   partitionSelectors sel [] [] = Js.Throw (TypeError "categoryTools is not iterable")) \/
  (existsb throwingSelector sel = false /\
   partitionSelectors sel [] []
   = Js.Return (flat_map internalOfSelector sel, filter actorSelector sel)).
Proof.
  destruct (existsb throwingSelector sel) eqn:E.
  - left. split; [reflexivity|]. now apply partitionSelectors_throws.
  - right. split; [reflexivity|]. now rewrite partitionSelectors_spec.
Qed.

(** The tools that the loader returns have pairwise distinct names.  Each
    of them is a tool of the internal catalog or one of the tools that the
    platform lookup gave for the resolved Actor names, and every tool of
    the lookup is in the result by its name. *)
Theorem loadToolsFromInput_provenance
        (getActorsAsTools : list string -> Js.Completion Exn (list ToolEntry))
        (input : Input) (result : list ToolEntry) :
  loadToolsFromInput getActorsAsTools input = Js.Return result ->
  NoDup (map name result) /\
  exists (names : list string) (actorTools : list ToolEntry),
    resolvedActorNames input = Js.Return names /\
    match names with
    | [] => actorTools = []
    | _ :: _ => getActorsAsTools names = Js.Return actorTools
    end /\
    (forall e, In e result ->
               In e (getExpectedToolsByCategories (Js.keys toolCategories))
               \/ In e actorTools) /\
    (forall e, In e actorTools -> In (name e) (map name result)).
Proof.
  unfold loadToolsFromInput, resolvedActorNames.
  set (selectors := normalizeSelectors (Types.tools input)).
  set (sel := match selectors with Some l => l | None => [] end).
  destruct (partitionSelectors_cases sel) as [[_ ->]|[_ ->]]; [discriminate|].
  cbn [Js.bind fst snd].
  set (names := actorNamesToLoad input _ _).
  set (internalTools := internalPart input selectors (flat_map internalOfSelector sel)).
  destruct (match names with [] => Js.Return [] | _ :: _ => getActorsAsTools names end)
    as [actorTools|] eqn:EG; [|discriminate].
  cbn [Js.bind]. intros [= <-].
  split; [apply dedupe_NoDup|].
  exists names, actorTools. split; [reflexivity|].
  split; [destruct names; [now injection EG as <- | exact EG]|].
  split.
  - intros e I. apply dedupe_in in I.
    assert (I' : In e (internalTools ++ actorTools)%list \/ e = getActorOutput).
    { destruct (needsActorOutput _); [|now left].
      apply in_app_or in I as [I|[<-|[]]]; [now left | now right]. }
    destruct I' as [I'| ->].
    + apply in_app_or in I' as [I'|I']; [left | now right].
      now apply internalPart_catalog in I'.
    + left. vm_compute. tauto.
  - intros e I. apply dedupe_keeps; [|tauto].
    apply in_map.
    destruct (needsActorOutput _); repeat (apply in_or_app; (now right) || left);
      apply in_or_app; now right.
Qed.

Lemma loadToolsFromInput_provenance_witness :
  NoDup ["add-actor"; "get-actor-output"].
Proof.
  exact (proj1 (loadToolsFromInput_provenance
                  (fun _ => Js.Return []) (mkInput None (Some (Bool true)) None)
                  [addTool; getActorOutput] eq_refl)).
Defined.

(** The loader fails in two ways only: a selector that makes the partition
    throw, or a failure of the platform lookup for the resolved names; in
    both it fails with the same exception. *)
Theorem loadToolsFromInput_failure
        (getActorsAsTools : list string -> Js.Completion Exn (list ToolEntry))
        (input : Input) (e : Exn) :
  loadToolsFromInput getActorsAsTools input = Js.Throw e <->
  resolvedActorNames input = Js.Throw e \/
  exists names, resolvedActorNames input = Js.Return names /\ names <> [] /\
                getActorsAsTools names = Js.Throw e.
Proof.
  unfold loadToolsFromInput, resolvedActorNames.
  set (selectors := normalizeSelectors (Types.tools input)).
  set (sel := match selectors with Some l => l | None => [] end).
  destruct (partitionSelectors_cases sel) as [[_ ->]|[_ ->]]; cbn [Js.bind fst snd].
  - split; [intros [= <-]; now left|].
    intros [[= <-]|(names & H & _)]; [reflexivity | discriminate].
  - set (names := actorNamesToLoad input _ _).
    split.
    + intros H. right. exists names. split; [reflexivity|].
      destruct names as [|n names']; [discriminate|].
      split; [discriminate|].
      destruct (getActorsAsTools (n :: names')); [discriminate | exact H].
    + intros [H|(names' & [= <-] & NE & H)]; [discriminate|].
      destruct names as [|n names'] eqn:En; [contradiction|].
      fold names. now rewrite H.
Qed.

End LoaderProvenance.

(** ** From the raw input to the loaded tools *)

Section ProcessedInput.
Import Types Const Tools ToolsLoader.

Lemma catalog_internal (e : ToolEntry) :
  In e (getExpectedToolsByCategories (Js.keys toolCategories)) -> type e = internal.
Proof.
  intros I. apply (in_map type) in I. revert I. generalize (type e).
  vm_compute. intuition congruence.
Qed.

Lemma normalizeSelectors_clean (merged : option (list string)) :
  match merged with
  | Some l => Forall (fun s => s <> "" /\ Js.trim s = s) l
  | None => True
  end ->
  normalizeSelectors (option_map Arr merged) = merged.
Proof.
  destruct merged as [l|]; [|reflexivity].
  intros H. cbn [option_map normalizeSelectors]. f_equal. now apply filter_trim_fixed.
Qed.

(** The loader on an input without Actor names to resolve. *)
Lemma loadToolsFromInput_no_names
      (getActorsAsTools : list string -> Js.Completion Exn (list ToolEntry))
      (input : Input) :
  let selectors := normalizeSelectors (Types.tools input) in
  let sel := match selectors with Some l => l | None => [] end in
  existsb throwingSelector sel = false ->
  actorNamesToLoad input (match selectors with Some _ => true | None => false end)
                   (filter actorSelector sel) = [] ->
  loadToolsFromInput getActorsAsTools input
  = let result := internalPart input selectors (flat_map internalOfSelector sel) in
    Js.Return (dedupe [] (if needsActorOutput result
                          then (result ++ [getActorOutput])%list else result)).
Proof.
  intros selectors sel Hok Hn. unfold loadToolsFromInput. fold selectors. fold sel.
  rewrite (partitionSelectors_spec sel [] [] Hok). cbn [Js.bind fst snd app].
  rewrite Hn. cbn [Js.bind]. now rewrite app_nil_r.
Qed.

(** The loader after [processInput].  Its own normalisation of the
    selectors changes nothing.  When the given [actors] normalise to the
    empty list, the platform is not consulted, every loaded tool is an
    internal one, and without [tools] nothing is loaded.  Otherwise the
    Actor names are the merged selectors that are neither a category nor
    an internal tool, or, without any selector, the default Actor unless
    Actors may be added. *)
Theorem processed_input_loading
        (getActorsAsTools : list string -> Js.Completion Exn (list ToolEntry))
        (raw : InputProcessing.PartialInput) :
  let input := InputProcessing.toInput (InputProcessing.processInput raw) in
  let selectors := normalizeSelectors (Types.tools input) in
  option_map Arr selectors = Types.tools input /\
  (InputProcessing.normalizeList (InputProcessing.actors raw) = Some [] ->
   (forall getActorsAsTools',
       loadToolsFromInput getActorsAsTools' input
       = loadToolsFromInput getActorsAsTools input) /\
   (forall result e,
       loadToolsFromInput getActorsAsTools input = Js.Return result ->
       In e result -> type e = internal) /\
   (InputProcessing.normalizeList (InputProcessing.tools raw) = None ->
    loadToolsFromInput getActorsAsTools input = Js.Return [])) /\
  (InputProcessing.normalizeList (InputProcessing.actors raw) <> Some [] ->
   match selectors with
   | Some l =>
       existsb throwingSelector l = false ->
       resolvedActorNames input = Js.Return (filter actorSelector l)
   | None =>
       resolvedActorNames input
       = Js.Return (if addActorEnabled input then [] else defaults_actors)
   end).
Proof.
  destruct (processInput_shape raw) as (A & b & merged & E & HA & Hiff & Hm & Hc).
  cbn zeta. rewrite E. unfold InputProcessing.toInput.
  cbn [InputProcessing.actors InputProcessing.enableAddingActors InputProcessing.tools].
  cbn [Types.tools]. rewrite (normalizeSelectors_clean merged Hc).
  split; [reflexivity|]. split.
  - intros Hempty. pose proof (proj2 Hiff Hempty) as HA'. subst A.
    set (input := mkInput (Some (Arr [])) (Some (Bool b)) (option_map Arr merged)).
    assert (Hsel : normalizeSelectors (Types.tools input) = merged)
      by apply (normalizeSelectors_clean merged Hc).
    assert (Hload : forall G,
               loadToolsFromInput G input =
               if existsb throwingSelector
                          (match merged with Some l => l | None => [] end)
               then Js.Throw (TypeError "categoryTools is not iterable")
               else
                 let result :=
                   internalPart input merged
                     (flat_map internalOfSelector
                               (match merged with Some l => l | None => [] end)) in
                 Js.Return (dedupe [] (if needsActorOutput result
                                       then (result ++ [getActorOutput])%list
                                       else result))).
    { intros G.
      destruct (existsb throwingSelector
                        (match merged with Some l => l | None => [] end)) eqn:T.
      - unfold loadToolsFromInput. rewrite Hsel.
        now rewrite (partitionSelectors_throws _ [] [] T).
      - pose proof (loadToolsFromInput_no_names G input) as H.
        cbn zeta in H. rewrite Hsel in H. apply H; [exact T | reflexivity]. }
    split; [|split].
    + intros G'. now rewrite !Hload.
    + intros result e. rewrite Hload.
      destruct (existsb throwingSelector _); [discriminate|].
      cbn zeta. intros [= <-] I. apply dedupe_in in I.
      apply catalog_internal.
      assert (I' : In e (internalPart input merged
                           (flat_map internalOfSelector
                              (match merged with Some l => l | None => [] end)))
                   \/ e = getActorOutput).
      { destruct (needsActorOutput _); [|now left].
        apply in_app_or in I as [I|[<-|[]]]; [now left | now right]. }
      destruct I' as [I'| ->]; [|vm_compute; tauto].
      now apply internalPart_catalog in I'.
    + intros Ht. rewrite Hempty, Ht in Hm. subst merged.
      rewrite Hload. cbn [existsb flat_map].
      unfold internalPart, actorsExplicitlyEmpty. cbn [Types.actors input].
      rewrite !andb_false_r. reflexivity.
  - intros Hne.
    assert (A = None) as ->.
    { destruct HA as [->| ->]; [reflexivity|]. exfalso. apply Hne. now apply Hiff. }
    unfold resolvedActorNames. cbn [Types.tools].
    rewrite (normalizeSelectors_clean merged Hc).
    destruct merged as [l|].
    + intros Hok. rewrite (partitionSelectors_spec l [] [] Hok).
      cbn [Js.bind snd app]. unfold actorNamesToLoad, actorsFromField.
      cbn [Types.actors negb]. now destruct (filter actorSelector l).
    + cbn [partitionSelectors Js.bind snd]. reflexivity.
Qed.

Lemma processed_input_loading_witness :
  loadToolsFromInput (fun _ => Js.Throw (Error "offline"))
    (InputProcessing.toInput
       (InputProcessing.processInput
          (InputProcessing.mkPartial (Some (Str " , ")) None (Some (BoolStr "TRUE")) None)))
  = Js.Return [].
Proof.
  refine (proj2 (proj2 (proj1 (proj2 (processed_input_loading
            (fun _ => Js.Throw (Error "offline"))
            (InputProcessing.mkPartial (Some (Str " , ")) None (Some (BoolStr "TRUE")) None)))
          _)) _); reflexivity.
Defined.

End ProcessedInput.

(** ** The path of the MCP endpoint of an Actor *)

Section PathFacts.
Import McpPaths.

Lemma find_streamable (paths : list string) :
  find (fun path => String.eqb path MCP_STREAMABLE_ENDPOINT) paths
  = if existsb (String.eqb MCP_STREAMABLE_ENDPOINT) paths
    then Some MCP_STREAMABLE_ENDPOINT else None.
Proof.
  induction paths as [|p paths IH]; [reflexivity|].
  cbn [find existsb]. rewrite (String.eqb_sym MCP_STREAMABLE_ENDPOINT p).
  destruct (String.eqb_spec p MCP_STREAMABLE_ENDPOINT) as [->|_]; [reflexivity|].
  exact IH.
Qed.

Lemma parseCommaSeparatedList_entries (input : option string) :
  Forall (fun p => p <> "" /\ Js.trim p = p /\ Js.includesChar "," p = false)
         (parseCommaSeparatedList input).
Proof.
  destruct input as [[|a s]|]; cbn [parseCommaSeparatedList]; try constructor.
  pose proof (splitChar_parts "," (String a s)) as H.
  induction H as [|x l Hx _ IH]; cbn [map filter]; [constructor|].
  destruct (Js.trim x) as [|b t] eqn:E; cbn [String.length Nat.eqb negb]; [exact IH|].
  constructor; [|exact IH]. rewrite <- E.
  split; [rewrite E; discriminate|].
  split; [apply trim_idempotent | now apply includesChar_trim].
Qed.

(** The path that [getActorMCPServerPath] chooses.  Without the field the
    answer is [null].  With it, the candidates are the non-empty trimmed
    parts between commas; the answer is the streamable endpoint [/mcp] when
    it is among them, otherwise the first candidate, and [undefined] when
    there is none.  The branch for a single candidate does not change
    this. *)
Theorem getActorMCPServerPath_choice (raw : string) :
  let paths := parseCommaSeparatedList (Some (Js.trim raw)) in
  getActorMCPServerPath None = PathNull /\
  Forall (fun p => p <> "" /\ Js.trim p = p /\ Js.includesChar "," p = false) paths /\
  getActorMCPServerPath (Some raw)
  = if existsb (String.eqb MCP_STREAMABLE_ENDPOINT) paths
    then Path MCP_STREAMABLE_ENDPOINT
    else match paths with
         | [] => PathUndefined
         | first :: _ => Path first
         end.
Proof.
  cbn zeta. split; [reflexivity|]. split; [apply parseCommaSeparatedList_entries|].
  unfold getActorMCPServerPath.
  destruct (parseCommaSeparatedList (Some (Js.trim raw))) as [|p [|q rest]].
  - reflexivity.
  - cbn [existsb]. rewrite orb_false_r.
    destruct (String.eqb_spec MCP_STREAMABLE_ENDPOINT p) as [<-|_]; reflexivity.
  - rewrite find_streamable.
    destruct (existsb (String.eqb MCP_STREAMABLE_ENDPOINT) (p :: q :: rest)); reflexivity.
Qed.

Example getActorMCPServerPath_examples :
  getActorMCPServerPath (Some " /sse , /mcp ") = Path "/mcp" /\
  getActorMCPServerPath (Some "/sse,/stream") = Path "/sse" /\
  getActorMCPServerPath (Some "/sse") = Path "/sse" /\
  getActorMCPServerPath (Some " , ") = PathUndefined /\
  getActorMCPServerPath (Some "") = PathUndefined.
Proof. vm_compute. repeat split. Qed.

End PathFacts.

(** ** The registry of tools *)

Section RegistryUpdates.
Import Types Server.

Lemma find_app_last {A} (p : A -> bool) (l : list A) (x : A) :
  find p (l ++ [x])%list
  = match find p l with
    | Some y => Some y
    | None => if p x then Some x else None
    end.
Proof.
  induction l as [|a l IH]; simpl; [reflexivity|].
  destruct (p a); [reflexivity | exact IH].
Qed.

Lemma upsert_get (entries : list ToolEntry) (m : list (string * ToolEntry)) (n : string) :
  Js.get n (fold_left (fun m wrap => Js.set (name wrap) wrap m) entries m)
  = match find (fun e => String.eqb (name e) n) (rev entries) with
    | Some e => Some e
    | None => Js.get n m
    end.
Proof.
  revert m. induction entries as [|e entries IH]; intros m; [reflexivity|].
  cbn [fold_left rev]. rewrite IH, find_app_last.
  destruct (find _ (rev entries)); [reflexivity|].
  destruct (String.eqb_spec (name e) n) as [<-|N].
  - apply get_set_same.
  - now apply get_set_other.
Qed.

Lemma upsert_keys (entries : list ToolEntry) (m : list (string * ToolEntry)) :
  exists added,
    Js.keys (fold_left (fun m wrap => Js.set (name wrap) wrap m) entries m)
    = (Js.keys m ++ added)%list /\
    forall n, In n added -> In n (map name entries).
Proof.
  revert m. induction entries as [|e entries IH]; intros m.
  - exists []. split; [now rewrite app_nil_r | intros n []].
  - cbn [fold_left]. destruct (IH (Js.set (name e) e m)) as (added & E & I).
    rewrite E, keys_set. destruct (Js.has (name e) m).
    + exists added. split; [reflexivity|]. intros n H. right. now apply I.
    + exists (name e :: added). split; [now rewrite <- app_assoc|].
      intros n [<-|H]; [now left | right; now apply I].
Qed.

Lemma upsert_NoDup (entries : list ToolEntry) (m : list (string * ToolEntry)) :
  NoDup (Js.keys m) ->
  NoDup (Js.keys (fold_left (fun m wrap => Js.set (name wrap) wrap m) entries m)).
Proof.
  revert m. induction entries as [|e entries IH]; intros m ND; [exact ND|].
  cbn [fold_left]. apply IH. now apply NoDup_keys_set.
Qed.

(** [upsertTools]: the last entry written under a name is the one found,
    and the other names keep their entries; the names that were there keep
    their places and the new ones come after them; distinct names stay
    distinct; the handler of changes is called only when asked for and
    registered, once, with the names after the change. *)
Theorem upsertTools_registry (entries : list ToolEntry) (notify : bool)
        (s : ActorsMcpServer) :
  let s' := upsertTools entries notify s in
  (forall n, Js.get n (tools s')
             = match find (fun e => String.eqb (name e) n) (rev entries) with
               | Some e => Some e
               | None => Js.get n (tools s)
               end) /\
  (exists added, listToolNames s' = (listToolNames s ++ added)%list /\
                 forall n, In n added -> In n (map name entries)) /\
  (NoDup (listToolNames s) -> NoDup (listToolNames s')) /\
  toolsChangedHandler s' = toolsChangedHandler s /\
  handlerCalls s'
  = if notify && toolsChangedHandler s
    then (handlerCalls s ++ [listAllToolNames s'])%list
    else handlerCalls s.
Proof.
  cbn zeta.
  set (m' := fold_left (fun m wrap => Js.set (name wrap) wrap m) entries (tools s)).
  assert (T : tools (upsertTools entries notify s) = m').
  { unfold upsertTools, notifyToolsChangedHandler. fold m'.
    destruct notify; [|reflexivity].
    cbn [toolsChangedHandler]. now destruct (toolsChangedHandler s). }
  unfold listToolNames. rewrite T.
  split; [intros n; apply upsert_get|].
  split; [apply upsert_keys|].
  split; [apply upsert_NoDup|].
  unfold upsertTools, notifyToolsChangedHandler. fold m'.
  destruct notify; cbn [andb]; [|split; reflexivity].
  cbn [toolsChangedHandler].
  destruct (toolsChangedHandler s) eqn:H; cbn [toolsChangedHandler handlerCalls];
    split; auto.
Qed.

Lemma delete_filter {V} (k : string) (o : list (string * V)) :
  Js.delete k o = filter (fun kv => negb (String.eqb (fst kv) k)) o.
Proof.
  induction o as [|[k' v'] o IH]; simpl; [reflexivity|].
  destruct (String.eqb k' k); simpl; now rewrite IH.
Qed.

Lemma has_in_keys {V} (k : string) (o : list (string * V)) :
  Js.has k o = true <-> In k (Js.keys o).
Proof.
  unfold Js.has. destruct (Js.get k o) eqn:G.
  - split; [intros _; now apply present_in_keys in G | reflexivity].
  - split; [discriminate|]. intros I. now apply absent_not_in_keys in G.
Qed.

Lemma in_keys_filter {V} (p : string -> bool) (o : list (string * V)) (n : string) :
  In n (Js.keys (filter (fun kv => p (fst kv)) o)) <-> p n = true /\ In n (Js.keys o).
Proof.
  unfold Js.keys. rewrite !in_map_iff. split.
  - intros ([k v] & <- & I). apply filter_In in I as [I P]. cbn [fst] in *.
    split; [exact P|]. now exists (k, v).
  - intros (P & [k v] & <- & I). exists (k, v). split; [reflexivity|].
    apply filter_In. now split.
Qed.

(** The loop of [removeToolsByName]. *)
Lemma removeLoop_registry (toolNames acc : list string) (s : ActorsMcpServer) :
  exists removed,
    removeLoop toolNames acc s
    = ((acc ++ removed)%list,
       mkServer (filter (fun kv => negb (existsb (String.eqb (fst kv)) toolNames)) (tools s))
                (toolsChangedHandler s) (handlerCalls s)) /\
    NoDup removed /\
    (forall n, In n removed <-> In n toolNames /\ In n (Js.keys (tools s))).
Proof.
  revert acc s. induction toolNames as [|t rest IH]; intros acc s.
  - exists []. cbn [removeLoop existsb negb]. rewrite app_nil_r.
    split; [|split; [constructor | intros n; simpl; tauto]].
    f_equal. destruct s as [m h c]. cbn. f_equal.
    induction m as [|kv m IHm]; simpl; [reflexivity | now rewrite <- IHm].
  - cbn [removeLoop]. unfold removeToolByName.
    assert (F : forall m : list (string * ToolEntry),
               filter (fun kv => negb (existsb (String.eqb (fst kv)) rest))
                      (Js.delete t m)
               = filter (fun kv => negb (existsb (String.eqb (fst kv)) (t :: rest))) m).
    { intros m. rewrite delete_filter.
      induction m as [|[k v] m IHm]; [reflexivity|].
      cbn [filter fst existsb]. rewrite (String.eqb_sym k t).
      destruct (String.eqb t k); cbn [negb orb filter fst]; [exact IHm|].
      now rewrite IHm. }
    destruct (Js.has t (tools s)) eqn:H.
    + destruct (IH (acc ++ [t])%list
                   (mkServer (Js.delete t (tools s)) (toolsChangedHandler s)
                             (handlerCalls s)))
        as (removed & E & ND & I).
      exists (t :: removed). rewrite E. cbn [tools toolsChangedHandler handlerCalls].
      rewrite F, <- app_assoc. split; [reflexivity|].
      cbn [tools] in I. rewrite delete_filter in I.
      split.
      * constructor; [|exact ND]. intros C. apply I in C as [_ C].
        apply (in_keys_filter (fun k => negb (String.eqb k t))) in C as [C _].
        now rewrite String.eqb_refl in C.
      * intros n. split.
        -- intros [<-|C]; [split; [now left | now apply has_in_keys]|].
           apply I in C as [C1 C2].
           apply (in_keys_filter (fun k => negb (String.eqb k t))) in C2 as [_ C2].
           split; [now right | exact C2].
        -- intros [[<-|C1] C2]; [now left|].
           destruct (String.eqb_spec n t) as [->|N]; [now left|].
           right. apply I. split; [exact C1|].
           apply (in_keys_filter (fun k => negb (String.eqb k t))). split; [|exact C2].
           now apply negb_true_iff, String.eqb_neq.
    + destruct (IH acc s) as (removed & E & ND & I).
      exists removed. rewrite E. split.
      * f_equal. f_equal. rewrite <- F. f_equal. symmetry. apply delete_absent.
        unfold Js.has in H. now destruct (Js.get t (tools s)).
      * split; [exact ND|]. intros n. rewrite I. split.
        -- intros [C1 C2]. split; [now right | exact C2].
        -- intros [[<-|C1] C2]; [|now split].
           apply has_in_keys in C2. congruence.
Qed.

(** [removeToolsByName]: the entries under the given names are gone and
    the others stay, in their order; the names returned are distinct and
    are the given names that were registered; the handler of changes is
    called only when asked for, registered, and a name was removed. *)
Theorem removeToolsByName_registry (toolNames : list string) (notify : bool)
        (s : ActorsMcpServer) :
  let removed := fst (removeToolsByName toolNames notify s) in
  let s' := snd (removeToolsByName toolNames notify s) in
  tools s' = filter (fun kv => negb (existsb (String.eqb (fst kv)) toolNames)) (tools s) /\
  (forall n, In n toolNames -> Js.has n (tools s') = false) /\
  NoDup removed /\
  (forall n, In n removed <-> In n toolNames /\ In n (listToolNames s)) /\
  toolsChangedHandler s' = toolsChangedHandler s /\
  handlerCalls s'
  = if notify && toolsChangedHandler s && negb (Nat.eqb (List.length removed) 0)
    then (handlerCalls s ++ [listAllToolNames s'])%list
    else handlerCalls s.
Proof.
  cbn zeta. unfold removeToolsByName.
  destruct (removeLoop_registry toolNames [] s) as (removed & E & ND & I).
  rewrite E. cbn [app].
  set (m' := filter (fun kv => negb (existsb (String.eqb (fst kv)) toolNames)) (tools s)).
  assert (Hgone : forall n, In n toolNames -> Js.has n m' = false).
  { intros n Hn. destruct (Js.has n m') eqn:H; [|reflexivity].
    apply has_in_keys in H.
    apply (in_keys_filter (fun k => negb (existsb (String.eqb k) toolNames))) in H
      as [H _].
    apply negb_true_iff in H.
    assert (existsb (String.eqb n) toolNames = true).
    { apply existsb_exists. exists n. split; [exact Hn | apply String.eqb_refl]. }
    congruence. }
  destruct removed as [|r removed].
  - cbn [fst snd tools toolsChangedHandler handlerCalls List.length Nat.eqb negb].
    rewrite andb_false_r.
    (split; [reflexivity|]; split; [exact Hgone|]; split; [exact ND|];
       split; [exact I|]; split; reflexivity).
  - cbn [fst snd List.length Nat.eqb negb]. rewrite andb_true_r.
    unfold notifyToolsChangedHandler.
    destruct notify; cbn [andb tools toolsChangedHandler handlerCalls].
    + destruct (toolsChangedHandler s) eqn:Hh;
        cbn [tools toolsChangedHandler handlerCalls];
        (split; [reflexivity|]; split; [exact Hgone|]; split; [exact ND|];
       split; [exact I|]; split; reflexivity).
    + (split; [reflexivity|]; split; [exact Hgone|]; split; [exact ND|];
       split; [exact I|]; split; reflexivity).
Qed.

End RegistryUpdates.

(** ** Loading tools by name *)

Section LoadingByName.
Import Types Tools Server ServerLoading.

Variable getActorsAsTools : list string -> Js.Completion Exn (list ToolEntry).

Lemma selectMissing_spec (loadedTools toolNames : list string)
      (toolsToLoad : list ToolEntry) (actorsToLoad : list string) :
  selectMissing loadedTools toolNames toolsToLoad actorsToLoad
  = ((toolsToLoad
      ++ flat_map (fun n => if existsb (String.eqb n) loadedTools then []
                            else match Js.get n internalToolMap with
                                 | Some entry => [entry]
                                 | None => []
                                 end) toolNames)%list,
     (actorsToLoad
      ++ filter (fun n => negb (existsb (String.eqb n) loadedTools)
                          && negb (Js.has n internalToolMap)) toolNames)%list).
Proof.
  revert toolsToLoad actorsToLoad.
  induction toolNames as [|t rest IH]; intros tl al.
  - cbn. now rewrite !app_nil_r.
  - cbn [selectMissing flat_map filter]. unfold Js.has.
    destruct (existsb (String.eqb t) loadedTools); cbn [negb andb app].
    + apply IH.
    + destruct (Js.get t internalToolMap); cbn [negb]; rewrite IH.
      * now rewrite <- app_assoc.
      * now rewrite <- app_assoc.
Qed.

(** The key of an internal tool in the map is its name. *)
Lemma internalToolMap_names (n : string) (e : ToolEntry) :
  Js.get n internalToolMap = Some e -> name e = n.
Proof.
  intros G. apply get_in in G.
  assert (F : Forall (fun kv => name (snd kv) = fst kv) internalToolMap).
  { vm_compute. repeat constructor. }
  rewrite Forall_forall in F. exact (F _ G).
Qed.

Lemma upsert_keeps_names (entries : list ToolEntry) (notify : bool)
      (s : ActorsMcpServer) (n : string) :
  In n (listToolNames s) -> In n (listToolNames (upsertTools entries notify s)).
Proof.
  intros I. unfold listToolNames.
  assert (T : tools (upsertTools entries notify s)
              = fold_left (fun m wrap => Js.set (name wrap) wrap m) entries (tools s)).
  { unfold upsertTools, notifyToolsChangedHandler.
    destruct notify; [|reflexivity].
    cbn [toolsChangedHandler]. now destruct (toolsChangedHandler s). }
  rewrite T. destruct (upsert_keys entries (tools s)) as (added & -> & _).
  apply in_or_app. now left.
Qed.

Lemma upsert_registers (entries : list ToolEntry) (notify : bool)
      (s : ActorsMcpServer) (e : ToolEntry) :
  In e entries -> In (name e) (listToolNames (upsertTools entries notify s)).
Proof.
  intros I. unfold listToolNames.
  assert (T : tools (upsertTools entries notify s)
              = fold_left (fun m wrap => Js.set (name wrap) wrap m) entries (tools s)).
  { unfold upsertTools, notifyToolsChangedHandler.
    destruct notify; [|reflexivity].
    cbn [toolsChangedHandler]. now destruct (toolsChangedHandler s). }
  rewrite T.
  destruct (Js.get (name e)
              (fold_left (fun m wrap => Js.set (name wrap) wrap m) entries (tools s)))
    as [v|] eqn:G.
  - now apply present_in_keys in G.
  - rewrite upsert_get in G.
    destruct (find (fun e0 => String.eqb (name e0) (name e)) (rev entries)) eqn:F;
      [discriminate|].
    apply find_none with (x := e) in F; [|now apply in_rev in I].
    now rewrite String.eqb_refl in F.
Qed.

Lemma upsert_quiet (entries : list ToolEntry) (s : ActorsMcpServer) :
  handlerCalls (upsertTools entries false s) = handlerCalls s.
Proof. reflexivity. Qed.

(** [loadToolsByName] loads what is missing and nothing else.  Names that
    are all loaded leave the server as it is, without a platform lookup.
    The names that are neither loaded nor internal tools are looked up
    together, in one call; when there is none, the handler of changes is
    not called, although internal tools may have been added.  When the
    lookup fails the call fails with the same exception, and when it
    succeeds its tools are registered.  No registered name is lost. *)
Theorem loadToolsByName_missing (toolNames : list string) (s : ActorsMcpServer) :
  let loaded := fun n => existsb (String.eqb n) (listAllToolNames s) in
  let actorsToLoad :=
    filter (fun n => negb (loaded n) && negb (Js.has n internalToolMap)) toolNames in
  let s' := fst (loadToolsByName getActorsAsTools toolNames s) in
  let completion := snd (loadToolsByName getActorsAsTools toolNames s) in
  ((forall n, In n toolNames -> In n (listAllToolNames s)) ->
   loadToolsByName getActorsAsTools toolNames s = (s, Js.Return tt)) /\
  (forall n, In n (listToolNames s) -> In n (listToolNames s')) /\
  (forall n, In n toolNames -> loaded n = false -> Js.has n internalToolMap = true ->
             In n (listToolNames s')) /\
  (actorsToLoad = [] ->
   completion = Js.Return tt /\ handlerCalls s' = handlerCalls s) /\
  (forall e, actorsToLoad <> [] -> getActorsAsTools actorsToLoad = Js.Throw e ->
             completion = Js.Throw e /\ handlerCalls s' = handlerCalls s) /\
  (forall actorTools,
      actorsToLoad <> [] -> getActorsAsTools actorsToLoad = Js.Return actorTools ->
      completion = Js.Return tt /\
      forall e, In e actorTools -> In (name e) (listToolNames s')).
Proof.
  cbn zeta. unfold loadToolsByName, loadActorsAsTools.
  rewrite selectMissing_spec. cbn [app].
  set (loaded := fun n => existsb (String.eqb n) (listAllToolNames s)).
  set (toolsToLoad :=
         flat_map (fun n => if existsb (String.eqb n) (listAllToolNames s) then []
                            else match Js.get n internalToolMap with
                                 | Some entry => [entry]
                                 | None => []
                                 end) toolNames).
  set (actorsToLoad :=
         filter (fun n => negb (existsb (String.eqb n) (listAllToolNames s))
                          && negb (Js.has n internalToolMap)) toolNames).
  set (s1 := match toolsToLoad with
             | _ :: _ => upsertTools toolsToLoad false s
             | [] => s
             end).
  assert (H1 : forall n, In n (listToolNames s) -> In n (listToolNames s1)).
  { intros n I. unfold s1. destruct toolsToLoad; [exact I|].
    now apply upsert_keeps_names. }
  assert (Hq : handlerCalls s1 = handlerCalls s).
  { unfold s1. now destruct toolsToLoad. }
  assert (Hint : forall n, In n toolNames -> loaded n = false ->
                           Js.has n internalToolMap = true ->
                           In n (listToolNames s1)).
  { intros n I L M. unfold Js.has in M.
    destruct (Js.get n internalToolMap) as [entry|] eqn:G; [|discriminate].
    assert (In entry toolsToLoad) as Ie.
    { unfold toolsToLoad. apply in_flat_map. exists n. split; [exact I|].
      unfold loaded in L. rewrite L, G. now left. }
    rewrite <- (internalToolMap_names n entry G).
    unfold s1. destruct toolsToLoad as [|t0 tl0] eqn:Et; [destruct Ie|].
    now apply upsert_registers. }
  split; [|split; [|split; [|split; [|split]]]].
  - intros Hall.
    assert (Ht : toolsToLoad = []).
    { unfold toolsToLoad. clear -Hall.
      induction toolNames as [|t rest IH]; [reflexivity|].
      cbn [flat_map].
      assert (existsb (String.eqb t) (listAllToolNames s) = true) as ->.
      { apply existsb_exists. exists t. split; [apply Hall; now left|].
        apply String.eqb_refl. }
      cbn [app]. apply IH. intros n I. apply Hall. now right. }
    assert (Ha : actorsToLoad = []).
    { unfold actorsToLoad. clear -Hall.
      induction toolNames as [|t rest IH]; [reflexivity|].
      cbn [filter].
      assert (existsb (String.eqb t) (listAllToolNames s) = true) as ->.
      { apply existsb_exists. exists t. split; [apply Hall; now left|].
        apply String.eqb_refl. }
      cbn [negb andb]. apply IH. intros n I. apply Hall. now right. }
    unfold s1. now rewrite Ha, Ht.
  - intros n I. destruct actorsToLoad as [|a al]; [now apply H1|].
    destruct (getActorsAsTools (a :: al)) as [[|t ts]|e]; cbn [fst];
      try now apply H1.
    apply upsert_keeps_names. now apply H1.
  - intros n I L M. destruct actorsToLoad as [|a al]; [now apply Hint|].
    destruct (getActorsAsTools (a :: al)) as [[|t ts]|e]; cbn [fst];
      try now apply Hint.
    apply upsert_keeps_names. now apply Hint.
  - intros ->. split; [reflexivity | exact Hq].
  - intros e NE G. destruct actorsToLoad as [|a al]; [contradiction|].
    rewrite G. split; [reflexivity | exact Hq].
  - intros actorTools NE G. destruct actorsToLoad as [|a al]; [contradiction|].
    rewrite G. split; [reflexivity|].
    intros e I. destruct actorTools as [|t ts]; [destruct I|].
    cbn [fst]. now apply upsert_registers.
Qed.

End LoadingByName.

Lemma loadToolsByName_missing_witness :
  ServerLoading.loadToolsByName (fun _ => Js.Throw (Types.Error "offline"))
    ["search-actors"; "apify/rag-web-browser"] Scenario.server
  = (Scenario.server, Js.Return tt).
Proof.
  refine (proj1 (loadToolsByName_missing (fun _ => Js.Throw (Types.Error "offline"))
                  ["search-actors"; "apify/rag-web-browser"] Scenario.server) _).
  intros n [<-|[<-|[]]]; vm_compute; tauto.
Defined.

(** ** What the dispatcher does besides completing *)

Section TraceFacts.
Import Types Effects ActorTools Server Trace.
Local Open Scope eff_scope.

Lemma events_bind {A B} (m : Eff A) (k : A -> Eff B) :
  events (Effects.bind m k)
  = (events m ++ match completion m with
                 | Js.Return a => events (k a)
                 | Js.Throw _ => []
                 end)%list.
Proof.
  unfold Effects.bind, events, completion. destruct m as [tr [a|e]]; cbn [fst snd].
  - now destruct (k a).
  - now rewrite app_nil_r.
Qed.

Lemma events_tryCatch {A} (body : Eff A) (handler : Exn -> Eff A) :
  events (tryCatch body handler)
  = (events body ++ match completion body with
                    | Js.Return _ => []
                    | Js.Throw e => events (handler e)
                    end)%list.
Proof.
  unfold tryCatch, events, completion. destruct body as [tr [a|e]]; cbn [fst snd].
  - now rewrite app_nil_r.
  - now destruct (handler e).
Qed.

Lemma events_tryFinally {A} (body : Eff A) (final : list Event) :
  events (tryFinally body final) = (events body ++ final)%list.
Proof. reflexivity. Qed.

Lemma events_quiet {A} (b : bool) (ev : Event) (k : unit -> Eff A) :
  events (Effects.bind (if b then emit ev else ret tt) k)
  = ((if b then [ev] else []) ++ events (k tt))%list.
Proof. destruct b; [now rewrite bind_emit | now rewrite bind_ret]. Qed.

Lemma invalidParams_events {A} (msg : string) :
  events (@invalidParams A msg) = [LogError msg; SendLoggingMessage "error" msg].
Proof. reflexivity. Qed.

Lemma onError_events (name : string) (error : Exn) (ev : Event) :
  In ev (events (onError name error)) -> isToolCall ev = false.
Proof. destruct error; cbn; intros [<-|[]]; reflexivity. Qed.

(** The events of a call that passes the checks. *)
Lemma handler_events (s : ActorsMcpServer) (env : Env) (request : CallToolRequest)
      (signal : option AbortSignal) (c : ascii) (r : string)
      (tool : ToolEntry) (args : Args) :
  orElse (apifyToken request) (APIFY_TOKEN env) = Some (String c r) ->
  findTool (normalizeToolName (request_name request)) s = Some tool ->
  arguments request = Some args ->
  ajvValidate env tool (ToolsUtils.decodeDotPropertyNames args) = true ->
  events (callToolHandler s env request signal)
  = ((if Js.startsWith "local__" (request_name request)
      then [LogDebug "Tool name with prefix detected"] else [])
     ++ LogDebug "Validate arguments for tool"
     :: events (tryCatch (callByType env tool (ToolsUtils.decodeDotPropertyNames args)
                                     (String c r) (progressToken request) signal)
                         (onError (normalizeToolName (request_name request)))))%list.
Proof.
  intros Htok Hfind Hargs Hval. unfold callToolHandler.
  rewrite Htok, events_quiet, Hfind, Hargs, bind_emit, Hval.
  reflexivity.
Qed.

(** A call that does not pass the checks calls no tool. *)
Lemma handler_checks (s : ActorsMcpServer) (env : Env) (request : CallToolRequest)
      (signal : option AbortSignal) (ev : Event) :
  In ev (events (callToolHandler s env request signal)) ->
  isToolCall ev = true ->
  exists (c : ascii) (r : string) (tool : ToolEntry) (args : Args),
    orElse (apifyToken request) (APIFY_TOKEN env) = Some (String c r) /\
    findTool (normalizeToolName (request_name request)) s = Some tool /\
    arguments request = Some args /\
    ajvValidate env tool (ToolsUtils.decodeDotPropertyNames args) = true /\
    In ev (events (callByType env tool (ToolsUtils.decodeDotPropertyNames args)
                              (String c r) (progressToken request) signal)).
Proof.
  unfold callToolHandler.
  destruct (orElse (apifyToken request) (APIFY_TOKEN env)) as [[|c r]|] eqn:Htok.
  - rewrite invalidParams_events. intros [<-|[<-|[]]]; discriminate.
  - rewrite events_quiet.
    destruct (findTool (normalizeToolName (request_name request)) s) as [tool|] eqn:Hf.
    + destruct (arguments request) as [args|] eqn:Ha.
      * rewrite bind_emit. cbn [events fst].
        destruct (ajvValidate env tool (ToolsUtils.decodeDotPropertyNames args)) eqn:Hv;
          cbn [negb].
        -- intros I T. exists c, r, tool, args.
           split; [reflexivity|]. split; [reflexivity|]. split; [reflexivity|].
           split; [exact Hv|].
           apply in_app_or in I as [I|[<-|I]].
           ++ destruct (Js.startsWith _ _); [destruct I as [<-|[]]; discriminate | destruct I].
           ++ discriminate.
           ++ fold (events (tryCatch
                              (callByType env tool (ToolsUtils.decodeDotPropertyNames args)
                                          (String c r) (progressToken request) signal)
                              (onError (normalizeToolName (request_name request))))) in I.
              rewrite events_tryCatch in I. apply in_app_or in I as [I|I]; [exact I|].
              destruct (completion _); [destruct I|].
              apply onError_events in I. congruence.
        -- intros I T. exfalso. apply in_app_or in I as [I|[<-|I]].
           ++ destruct (Js.startsWith _ _); [destruct I as [<-|[]]; discriminate | destruct I].
           ++ discriminate.
           ++ fold (events (@invalidParams CallToolResult
                              ("Invalid arguments for tool " ++ name tool ++ ": args: "
                               ++ stringifyArgs env (ToolsUtils.decodeDotPropertyNames args)
                               ++ " error: "
                               ++ stringifyErrors env tool
                                    (ToolsUtils.decodeDotPropertyNames args)))) in I.
              rewrite invalidParams_events in I.
              destruct I as [<-|[<-|[]]]; discriminate.
      * intros I T. exfalso. apply in_app_or in I as [I|I].
        -- destruct (Js.startsWith _ _); [destruct I as [<-|[]]; discriminate | destruct I].
        -- rewrite invalidParams_events in I. destruct I as [<-|[<-|[]]]; discriminate.
    + intros I T. exfalso. apply in_app_or in I as [I|I].
      * destruct (Js.startsWith _ _); [destruct I as [<-|[]]; discriminate | destruct I].
      * rewrite invalidParams_events in I. destruct I as [<-|[<-|[]]]; discriminate.
  - rewrite invalidParams_events. intros [<-|[<-|[]]]; discriminate.
Qed.

End TraceFacts.

Section DispatchTrace.
Import Types Effects ActorTools Server Trace.
Local Open Scope eff_scope.

Ltac platform_cases :=
  repeat match goal with
         | |- context [match ?x with Js.Return _ => _ | Js.Throw _ => _ end] =>
             destruct x
         end.

(** A call of [callActorGetDataset] starts one run, first of all, and
    stops no progress tracker. *)
Lemma callActorGetDataset_trace (platform : Platform) (actorName : string)
      (input : Args) (callOptions : option Z) (progressTracker : bool)
      (abortSignal : option AbortSignal) :
  exists rest,
    events (callActorGetDataset platform actorName input callOptions
                                progressTracker abortSignal)
    = ActorStart actorName callOptions :: rest /\
    filter isToolCall rest = [] /\
    filter isTrackerStop rest = [] /\
    filter isMcpClose rest = [] /\
    filter isLoggingMessage rest = [].
Proof.
  unfold callActorGetDataset, processCompletedRun, abortListener.
  rewrite events_tryCatch, bind_emit. cbn [events completion fst snd app].
  eexists. split; [reflexivity|].
  unfold Effects.bind, lift, emit, ret, throw.
  destruct (start platform actorName input callOptions) as [actorRun|e];
    [|split; [|split; [|split]]; reflexivity].
  destruct progressTracker;
    destruct abortSignal as [[| |[|]]|];
    cbn [fst snd app];
    platform_cases;
    cbn [fst snd app filter isToolCall isTrackerStop isMcpClose isLoggingMessage];
    (split; [|split; [|split]]; reflexivity).
Qed.

Lemma filter_none_in {A} (p : A -> bool) (l : list A) (x : A) :
  filter p l = [] -> In x l -> p x = false.
Proof.
  intros F I. destruct (p x) eqn:P; [|reflexivity].
  assert (In x (filter p l)) by (apply filter_In; now split).
  rewrite F in H. destruct H.
Qed.

(** The tool calls of the [try] block. *)
Lemma callByType_calls (env : Env) (tool : ToolEntry) (args : Args) (token : string)
      (progressToken : option string) (signal : option AbortSignal) :
  filter isToolCall (events (callByType env tool args token progressToken signal))
  = match tool with
    | Internal t => [InternalCall (helper_name t)]
    | Actor t => [ActorStart (actorFullName t) (Some (memoryMbytes t))]
    | ActorMcp t =>
        McpConnect (serverUrl t)
        :: match connectMCPClient env (serverUrl t) with
           | Js.Return _ => [McpCallTool (originToolName t)]
           | Js.Throw _ => []
           end
    end.
Proof.
  destruct tool as [t|t|t]; cbn [callByType].
  - rewrite !bind_emit. cbn [events fst filter isToolCall].
    unfold Effects.bind, lift, emit, ret.
    destruct (internalCall env t args); cbn [fst snd app filter]; [|reflexivity].
    destruct (if String.eqb (helper_name t) "call-actor"
              then createProgressTracker progressToken else false); reflexivity.
  - rewrite events_tryFinally, bind_emit. cbn [events fst app filter isToolCall].
    rewrite filter_app, events_bind, filter_app.
    destruct (callActorGetDataset_trace (platform env) (actorFullName t) args
                (Some (memoryMbytes t)) (createProgressTracker progressToken) signal)
      as (rest & -> & F & _).
    cbn [filter isToolCall]. rewrite F.
    destruct (completion _) as [[res|]|]; cbn [events ret fst filter app];
      destruct (createProgressTracker progressToken); reflexivity.
  - rewrite bind_emit. cbn [events fst filter isToolCall]. f_equal.
    unfold Effects.bind, lift, tryFinally, emit, ret.
    destruct (connectMCPClient env (serverUrl t)); cbn [fst snd app filter];
      [|reflexivity].
    destruct (callTool env t args); reflexivity.
Qed.

(** Every call of a tool comes after the checks: a token is there, the
    name resolves to a registered tool, the arguments are present and the
    validator of the tool accepts them once decoded.  The call goes to the
    resolved tool: an internal tool by its name, an Actor by its full name
    with the memory limit of the tool, the MCP server of an Actor at the
    address of the tool and under the name that the tool has there. *)
Theorem tool_calls_validated (s : ActorsMcpServer) (env : Env)
        (request : CallToolRequest) (signal : option AbortSignal) (ev : Event) :
  In ev (events (callToolHandler s env request signal)) ->
  isToolCall ev = true ->
  exists (tool : ToolEntry) (args : Args),
    (exists c r, orElse (apifyToken request) (APIFY_TOKEN env) = Some (String c r)) /\
    findTool (normalizeToolName (request_name request)) s = Some tool /\
    arguments request = Some args /\
    ajvValidate env tool (ToolsUtils.decodeDotPropertyNames args) = true /\
    match tool with
    | Internal t => ev = InternalCall (helper_name t)
    | Actor t => ev = ActorStart (actorFullName t) (Some (memoryMbytes t))
    | ActorMcp t => ev = McpConnect (serverUrl t) \/ ev = McpCallTool (originToolName t)
    end.
Proof.
  intros I T.
  destruct (handler_checks s env request signal ev I T)
    as (c & r & tool & args & Htok & Hf & Ha & Hv & Iev).
  exists tool, args. split; [now exists c, r|]. repeat (split; [assumption|]).
  assert (F : In ev (filter isToolCall
                       (events (callByType env tool (ToolsUtils.decodeDotPropertyNames args)
                                           (String c r) (progressToken request) signal))))
    by (apply filter_In; now split).
  rewrite callByType_calls in F.
  destruct tool as [t|t|t].
  - now destruct F as [<-|[]].
  - now destruct F as [<-|[]].
  - destruct F as [<-|F]; [now left|].
    destruct (connectMCPClient env (serverUrl t)); [|destruct F].
    destruct F as [<-|[]]. now right.
Qed.

Lemma tool_calls_validated_witness :
  let s := Scenario.server in
  let env := Scenario.envWith Scenario.platformOk in
  let request := Scenario.request in
  let ev := ActorStart "apify/rag-web-browser" (Some 1024%Z) in
  exists (tool : ToolEntry) (args : Args),
    (exists c r, orElse (apifyToken request) (APIFY_TOKEN env) = Some (String c r)) /\
    findTool (normalizeToolName (request_name request)) s = Some tool /\
    arguments request = Some args /\
    ajvValidate env tool (ToolsUtils.decodeDotPropertyNames args) = true /\
    match tool with
    | Internal t => ev = InternalCall (helper_name t)
    | Actor t => ev = ActorStart (actorFullName t) (Some (memoryMbytes t))
    | ActorMcp t => ev = McpConnect (serverUrl t) \/ ev = McpCallTool (originToolName t)
    end.
Proof.
  apply (tool_calls_validated Scenario.server (Scenario.envWith Scenario.platformOk)
           Scenario.request None (ActorStart "apify/rag-web-browser" (Some 1024%Z))).
  - vm_compute. tauto.
  - reflexivity.
Defined.

End DispatchTrace.

Section Releases.
Import Types Effects ActorTools Server Trace.
Local Open Scope eff_scope.

(** Outside the [try] block no connection is closed and no tracker is
    stopped. *)
Lemma handler_filter (p : Event -> bool) (s : ActorsMcpServer) (env : Env)
      (request : CallToolRequest) (signal : option AbortSignal) (c : ascii) (r : string)
      (tool : ToolEntry) (args : Args) :
  (forall m, p (LogDebug m) = false) ->
  (forall m, p (LogError m) = false) ->
  orElse (apifyToken request) (APIFY_TOKEN env) = Some (String c r) ->
  findTool (normalizeToolName (request_name request)) s = Some tool ->
  arguments request = Some args ->
  ajvValidate env tool (ToolsUtils.decodeDotPropertyNames args) = true ->
  filter p (events (callToolHandler s env request signal))
  = filter p (events (callByType env tool (ToolsUtils.decodeDotPropertyNames args)
                                 (String c r) (progressToken request) signal)).
Proof.
  intros Pd Pe Htok Hf Ha Hv.
  rewrite (handler_events s env request signal c r tool args Htok Hf Ha Hv).
  rewrite filter_app. cbn [filter]. rewrite Pd.
  assert ((filter p (if Js.startsWith "local__" (request_name request)
                     then [LogDebug "Tool name with prefix detected"] else [])) = []) as ->.
  { destruct (Js.startsWith _ _); [|reflexivity]. cbn [filter]. now rewrite Pd. }
  cbn [app]. rewrite events_tryCatch, filter_app.
  destruct (completion _) as [res|e]; cbn [filter]; [apply app_nil_r|].
  assert (filter p (events (onError (normalizeToolName (request_name request)) e)) = [])
    as ->.
  { destruct e; cbn; now rewrite Pe. }
  apply app_nil_r.
Qed.

(** The connection to the MCP server of an Actor is closed once when it
    was opened, whether the call of the tool there returns or throws, and
    no connection is closed otherwise. *)
Theorem proxy_client_closed (s : ActorsMcpServer) (env : Env)
        (request : CallToolRequest) (signal : option AbortSignal) (c : ascii) (r : string)
        (tool : ToolEntry) (args : Args) :
  orElse (apifyToken request) (APIFY_TOKEN env) = Some (String c r) ->
  findTool (normalizeToolName (request_name request)) s = Some tool ->
  arguments request = Some args ->
  ajvValidate env tool (ToolsUtils.decodeDotPropertyNames args) = true ->
  filter isMcpClose (events (callToolHandler s env request signal))
  = match tool with
    | ActorMcp t =>
        match connectMCPClient env (serverUrl t) with
        | Js.Return _ => [McpClose]
        | Js.Throw _ => []
        end
    | _ => []
    end.
Proof.
  intros Htok Hf Ha Hv.
  rewrite (handler_filter isMcpClose s env request signal c r tool args); auto.
  destruct tool as [t|t|t]; cbn [callByType].
  - rewrite !bind_emit. cbn [events fst filter isMcpClose].
    unfold Effects.bind, lift, emit, ret.
    destruct (internalCall env t _); cbn [fst snd app filter]; [|reflexivity].
    destruct (if String.eqb (helper_name t) "call-actor"
              then createProgressTracker (progressToken request) else false); reflexivity.
  - rewrite events_tryFinally, bind_emit. cbn [events fst app filter isMcpClose].
    rewrite filter_app, events_bind, filter_app.
    destruct (callActorGetDataset_trace (platform env) (actorFullName t)
                (ToolsUtils.decodeDotPropertyNames args)
                (Some (memoryMbytes t)) (createProgressTracker (progressToken request))
                signal)
      as (rest & -> & _ & _ & F & _).
    cbn [filter isMcpClose]. rewrite F.
    destruct (completion _) as [[res|]|]; cbn [events ret fst filter app];
      destruct (createProgressTracker (progressToken request)); reflexivity.
  - rewrite bind_emit. cbn [events fst filter isMcpClose].
    unfold Effects.bind, lift, tryFinally, emit, ret.
    destruct (connectMCPClient env (serverUrl t)); cbn [fst snd app filter];
      [|reflexivity].
    destruct (callTool env t _); reflexivity.
Qed.

(** The progress tracker.  A call of an Actor tool with a progress token
    stops the tracker once, however the call ends, also when the run could
    not be started.  The internal tool [call-actor] stops it only when the
    tool returns; when the tool throws, the tracker is not stopped.
    Nothing else stops a tracker. *)
Theorem progress_tracker_stopped (s : ActorsMcpServer) (env : Env)
        (request : CallToolRequest) (signal : option AbortSignal) (c : ascii) (r : string)
        (tool : ToolEntry) (args : Args) :
  orElse (apifyToken request) (APIFY_TOKEN env) = Some (String c r) ->
  findTool (normalizeToolName (request_name request)) s = Some tool ->
  arguments request = Some args ->
  ajvValidate env tool (ToolsUtils.decodeDotPropertyNames args) = true ->
  filter isTrackerStop (events (callToolHandler s env request signal))
  = match tool with
    | Actor _ =>
        if createProgressTracker (progressToken request) then [TrackerStop] else []
    | Internal t =>
        if String.eqb (helper_name t) "call-actor"
           && createProgressTracker (progressToken request)
        then match internalCall env t (ToolsUtils.decodeDotPropertyNames args) with
             | Js.Return _ => [TrackerStop]
             | Js.Throw _ => []
             end
        else []
    | ActorMcp _ => []
    end.
Proof.
  intros Htok Hf Ha Hv.
  rewrite (handler_filter isTrackerStop s env request signal c r tool args); auto.
  destruct tool as [t|t|t]; cbn [callByType].
  - rewrite !bind_emit. cbn [events fst filter isTrackerStop].
    unfold Effects.bind, lift, emit, ret.
    destruct (internalCall env t _); cbn [fst snd app filter].
    + destruct (String.eqb (helper_name t) "call-actor"); cbn [andb]; [|reflexivity].
      destruct (createProgressTracker (progressToken request)); reflexivity.
    + destruct (String.eqb (helper_name t) "call-actor"); cbn [andb]; [|reflexivity].
      destruct (createProgressTracker (progressToken request)); reflexivity.
  - rewrite events_tryFinally, bind_emit. cbn [events fst app filter isTrackerStop].
    rewrite filter_app, events_bind, filter_app.
    destruct (callActorGetDataset_trace (platform env) (actorFullName t)
                (ToolsUtils.decodeDotPropertyNames args)
                (Some (memoryMbytes t)) (createProgressTracker (progressToken request))
                signal)
      as (rest & -> & _ & F & _).
    cbn [filter isTrackerStop]. rewrite F.
    destruct (completion _) as [[res|]|]; cbn [events ret fst filter app];
      destruct (createProgressTracker (progressToken request)); reflexivity.
  - rewrite bind_emit. cbn [events fst filter isTrackerStop].
    unfold Effects.bind, lift, tryFinally, emit, ret.
    destruct (connectMCPClient env (serverUrl t)); cbn [fst snd app filter];
      [|reflexivity].
    destruct (callTool env t _); reflexivity.
Qed.

End Releases.

Lemma proxy_client_closed_witness :
  let proxied := Types.mkMcpTool "fetch" "fetch-page" "actor-1" "server-1"
                                 "https://actor-1.apify.actor/mcp" in
  let s := Server.mkServer [("fetch", Types.ActorMcp proxied)] false [] in
  let env := Server.mkEnv None (fun _ _ => true) (fun _ => "{}") (fun _ _ => "[]")
               (fun _ _ => Js.Return (Server.mkResult None))
               (fun _ => Js.Return tt)
               (fun _ _ => Js.Throw (Types.Error "timeout"))
               Scenario.platformOk (fun _ _ => []) in
  let request := Server.mkRequest "local__apify__fetch" (Some []) None (Some "token") in
  filter Trace.isMcpClose
         (Effects.events (Server.callToolHandler s env request None))
  = [Effects.McpClose].
Proof.
  exact (proxy_client_closed
           (Server.mkServer
              [("fetch", Types.ActorMcp (Types.mkMcpTool "fetch" "fetch-page" "actor-1"
                                           "server-1" "https://actor-1.apify.actor/mcp"))]
              false [])
           (Server.mkEnv None (fun _ _ => true) (fun _ => "{}") (fun _ _ => "[]")
              (fun _ _ => Js.Return (Server.mkResult None))
              (fun _ => Js.Return tt)
              (fun _ _ => Js.Throw (Types.Error "timeout"))
              Scenario.platformOk (fun _ _ => []))
           (Server.mkRequest "local__apify__fetch" (Some []) None (Some "token"))
           None "t" "oken" _ [] eq_refl eq_refl eq_refl eq_refl).
Defined.

Lemma progress_tracker_stopped_witness :
  let request := Server.mkRequest "apify/rag-web-browser" (Some []) (Some "progress-1")
                                  (Some "token") in
  filter Trace.isTrackerStop
         (Effects.events (Server.callToolHandler Scenario.server
                            (Scenario.envWith Scenario.platformRefusing) request None))
  = [Effects.TrackerStop].
Proof.
  exact (progress_tracker_stopped Scenario.server
           (Scenario.envWith Scenario.platformRefusing)
           (Server.mkRequest "apify/rag-web-browser" (Some []) (Some "progress-1")
                             (Some "token"))
           None "t" "oken" _ [] eq_refl eq_refl eq_refl eq_refl).
Defined.

(** ** The fields of a dataset item *)

Section FieldSelection.
Import JsValue ActorOutput.

Lemma assign_keys (k : string) (v : Value) (o : list (string * Value)) (n : string) :
  In n (Js.keys (assign k v o)) <-> In n (Js.keys o) \/ (n = k /\ k <> "__proto__").
Proof.
  unfold assign. destruct (String.eqb_spec k "__proto__") as [->|N].
  - split; [now left | intros [H|[_ H]]; [exact H | congruence]].
  - rewrite keys_set. destruct (Js.has k o) eqn:H.
    + split; [now left|]. intros [I|[-> _]]; [exact I | now apply has_in_keys].
    + rewrite in_app_iff. cbn [In]. split.
      * intros [I|[<-|[]]]; [now left | right; now split].
      * intros [I|[-> _]]; [now left | right; now left].
Qed.

Lemma assign_NoDup (k : string) (v : Value) (o : list (string * Value)) :
  NoDup (Js.keys o) -> NoDup (Js.keys (assign k v o)).
Proof.
  unfold assign. destruct (String.eqb k "__proto__"); [auto|]. apply NoDup_keys_set.
Qed.

Lemma assign_get (k : string) (v : Value) (o : list (string * Value)) (n : string) :
  Js.get n (assign k v o)
  = if String.eqb n k && negb (String.eqb k "__proto__") then Some v else Js.get n o.
Proof.
  unfold assign. destruct (String.eqb k "__proto__"); cbn [negb].
  - now rewrite andb_false_r.
  - rewrite andb_true_r. destruct (String.eqb_spec n k) as [->|N].
    + apply get_set_same.
    + apply get_set_other. congruence.
Qed.

Lemma select_fold (g : string -> Value) (keys : list string)
      (acc : list (string * Value)) :
  let result := fold_left (fun result key => assign key (g key) result) keys acc in
  (NoDup (Js.keys acc) -> NoDup (Js.keys result)) /\
  (forall n, In n (Js.keys result)
             <-> In n (Js.keys acc) \/ (In n keys /\ n <> "__proto__")) /\
  (forall n, Js.get n result
             = if existsb (String.eqb n) keys && negb (String.eqb n "__proto__")
               then Some (g n) else Js.get n acc).
Proof.
  revert acc. induction keys as [|k keys IH]; intros acc; cbn zeta.
  - cbn [fold_left existsb andb]. split; [auto|]. split; [|reflexivity].
    intros n. cbn [In]. tauto.
  - cbn [fold_left]. destruct (IH (assign k (g k) acc)) as (ND & I & G).
    split; [|split].
    + intros H. apply ND. now apply assign_NoDup.
    + intros n. rewrite I, assign_keys. cbn [In]. split.
      * intros [[H|[-> H]]|[H1 H2]]; [now left | right; split; [now left | exact H]
                                        | right; split; [now right | exact H2]].
      * intros [H|[[<-|H1] H2]]; [left; now left | left; right; now split
                                    | right; now split].
    + intros n. rewrite G, assign_get. cbn [existsb].
      destruct (existsb (String.eqb n) keys) eqn:E; cbn [andb].
      * rewrite orb_true_r. cbn [andb].
        destruct (negb (String.eqb n "__proto__")) eqn:P; [reflexivity|].
        destruct (String.eqb_spec n k) as [->|N]; cbn [andb orb]; [|reflexivity].
        now rewrite P.
      * rewrite orb_false_r.
        destruct (String.eqb_spec n k) as [->|N]; cbn [andb]; reflexivity.
Qed.

Lemma splitChar_head (c : ascii) (s : string) :
  exists first rest, JsText.splitChar c s = first :: rest /\
                     Js.includesChar c first = false /\
                     (Js.includesChar c s = false -> first = s /\ rest = []).
Proof.
  induction s as [|a s (first & rest & E & F & W)]; cbn [JsText.splitChar].
  - exists "", []. repeat split; reflexivity.
  - cbn [Js.includesChar]. destruct (Ascii.eqb a c) eqn:Ea.
    + exists "", (JsText.splitChar c s). split; [reflexivity|]. split; [reflexivity|].
      cbn [orb]. discriminate.
    + rewrite E. exists (String a first), rest. split; [reflexivity|].
      cbn [Js.includesChar orb]. rewrite Ea. split; [exact F|].
      cbn [orb]. intros H. destruct (W H) as [-> ->]. now split.
Qed.

(** [getValuesByDotKeys] returns an object with the given keys, each once
    (the name [__proto__] apart, which an assignment does not create).
    Under a key it holds what the path of the key leads to.  A key without a
    dot selects the own property of this name, or [undefined].  A key with a
    dot is always read as a path, so that it does not select a property
    whose own name has the dot: on an object of which every property name
    has a dot, every key with a dot gives [undefined]. *)
Theorem getValuesByDotKeys_selection (obj : Value) (keys : list string) :
  let result := getValuesByDotKeys obj keys in
  NoDup (Js.keys result) /\
  (forall k, In k (Js.keys result) <-> In k keys /\ k <> "__proto__") /\
  (forall k, In k keys -> k <> "__proto__" ->
             Js.get k result = Some (walk obj (JsText.splitChar "." k))) /\
  (forall k, Js.includesChar "." k = false ->
             walk obj (JsText.splitChar "." k)
             = match ownProperty obj k with Some v => v | None => VUndefined end) /\
  (forall o k, obj = VObject o -> In k keys -> Js.includesChar "." k = true ->
               (forall k', In k' (Js.keys o) -> Js.includesChar "." k' = true) ->
               Js.get k result = Some VUndefined).
Proof.
  cbn zeta. unfold getValuesByDotKeys.
  destruct (select_fold (fun key => walk obj (JsText.splitChar "." key)) keys [])
    as (ND & I & G).
  assert (Hget : forall k, In k keys -> k <> "__proto__" ->
                           Js.get k (fold_left
                                       (fun result key =>
                                          assign key (walk obj (JsText.splitChar "." key))
                                                 result) keys [])
                           = Some (walk obj (JsText.splitChar "." k))).
  { intros k Hk Hp. rewrite G.
    assert (existsb (String.eqb k) keys = true) as ->.
    { apply existsb_exists. exists k. split; [exact Hk | apply String.eqb_refl]. }
    apply String.eqb_neq in Hp. now rewrite Hp. }
  split; [apply ND; constructor|].
  split; [intros k; rewrite I; cbn [Js.keys map In]; tauto|].
  split; [exact Hget|]. split.
  - intros k Hk. destruct (splitChar_head "." k) as (first & rest & E & _ & W).
    destruct (W Hk) as [-> ->]. rewrite E. cbn [walk].
    now destruct (ownProperty obj k).
  - intros o k -> Hk Hdot Hall.
    assert (Hp : k <> "__proto__") by (intros ->; discriminate).
    rewrite (Hget k Hk Hp). f_equal.
    destruct (splitChar_head "." k) as (first & rest & E & F & _).
    rewrite E. cbn [walk ownProperty].
    destruct (Js.get first o) as [v|] eqn:Gf; [|reflexivity].
    apply present_in_keys in Gf. apply Hall in Gf. congruence.
Qed.

Lemma getValuesByDotKeys_keys_in (obj : Value) (keys : list string) (k : string) :
  In k (Js.keys (getValuesByDotKeys obj keys)) -> In k keys.
Proof.
  unfold getValuesByDotKeys.
  destruct (select_fold (fun key => walk obj (JsText.splitChar "." key)) keys [])
    as (_ & I & _).
  intros H. apply I in H as [[]|[H _]]. exact H.
Qed.

Example getValuesByDotKeys_examples :
  let item := VObject [("crawl", VObject [("statusCode", VNumber 200)]);
                       ("crawl.statusCode", VNumber 404);
                       ("links", VArray [VString "a"; VString "b"])] in
  getValuesByDotKeys item ["crawl.statusCode"; "links.1"; "links.length"; "links.01"; "text"]
  = [("crawl.statusCode", VNumber 200); ("links.1", VString "b");
     ("links.length", VNumber 2); ("links.01", VUndefined); ("text", VUndefined)].
Proof. reflexivity. Qed.

End FieldSelection.

(** ** The preview of the output, within a limit *)

Section OutputLimit.
Import JsValue ActorOutput.

Variable stringifyLength : list Value -> nat.

Lemma concat_plain (result : list Value) (item : Value) :
  isArray item = false -> concat result item = (result ++ [item])%list.
Proof. now destruct item. Qed.

(** The last loop takes the longest initial segment of the source each
    extension of which fits. *)
Lemma fill_spec (charLimit : nat) (sourceItems result : list Value) :
  exists taken rest,
    sourceItems = (taken ++ rest)%list /\
    fill stringifyLength charLimit sourceItems result = (result ++ taken)%list /\
    (taken <> [] -> (forall item, In item taken -> isArray item = false) ->
     stringifyLength (result ++ taken) <= charLimit) /\
    match rest with
    | [] => True
    | item :: _ => charLimit < stringifyLength (concat (result ++ taken) item)
    end.
Proof.
  revert result. induction sourceItems as [|item src IH]; intros result.
  - exists [], []. cbn [fill app]. rewrite app_nil_r.
    split; [reflexivity|]. split; [reflexivity|]. split; [congruence | exact I].
  - cbn [fill].
    destruct (Nat.ltb_spec charLimit (stringifyLength (concat result item))) as [L|L].
    + exists [], (item :: src). rewrite app_nil_r.
      split; [reflexivity|]. split; [reflexivity|]. split; [congruence | exact L].
    + destruct (IH (result ++ [item])%list) as (taken & rest & E & F & Fit & Max).
      exists (item :: taken), rest. rewrite F, E, <- !app_assoc. cbn [app].
      split; [reflexivity|]. split; [reflexivity|]. split.
      * intros _ Hplain. destruct taken as [|t taken'].
        -- rewrite <- (concat_plain result item); [exact L|]. apply Hplain. now left.
        -- rewrite <- app_assoc in Fit. cbn [app] in Fit.
           apply Fit; [discriminate|]. intros x Hx. apply Hplain. now right.
      * rewrite <- app_assoc in Max. exact Max.
Qed.

(** [ensureOutputWithinCharLimit] returns the items when they fit;
    otherwise an initial segment of the items or, when important fields are
    given, of the items reduced to these fields (all of them when they
    fit).  When the segment stops before the end, the next item would
    exceed the limit.  The result fits the limit or is empty, as long as no
    item is an array (which [concat] would spread). *)
Theorem ensureOutputWithinCharLimit_preview (items : list Value)
        (importantFields : list string) (charLimit : nat) :
  let result := ensureOutputWithinCharLimit stringifyLength items importantFields charLimit in
  let importantItems :=
    map (fun item => VObject (getValuesByDotKeys item importantFields)) items in
  (stringifyLength items <= charLimit -> result = items) /\
  (charLimit < stringifyLength items -> importantFields <> [] ->
   stringifyLength importantItems <= charLimit -> result = importantItems) /\
  (exists sourceItems rest,
      (sourceItems = items \/ (importantFields <> [] /\ sourceItems = importantItems)) /\
      sourceItems = (result ++ rest)%list /\
      match rest with
      | [] => True
      | item :: _ => charLimit < stringifyLength (concat result item)
      end) /\
  ((forall item, In item items -> isArray item = false) ->
   result = [] \/ stringifyLength result <= charLimit).
Proof.
  cbn zeta. unfold ensureOutputWithinCharLimit.
  set (importantItems := map (fun item => VObject (getValuesByDotKeys item importantFields))
                             items).
  destruct (Nat.leb_spec (stringifyLength items) charLimit) as [L|L].
  - split; [reflexivity|]. split; [lia|]. split.
    + exists items, []. rewrite app_nil_r. split; [now left|]. now split.
    + intros _. now right.
  - split; [lia|].
    destruct importantFields as [|f fields].
    + split; [congruence|].
      destruct (fill_spec charLimit items []) as (taken & rest & E & F & Fit & Max).
      cbn [app] in F, Fit, Max. rewrite F. split.
      * exists items, rest. split; [now left|]. split; [exact E | exact Max].
      * intros Hplain. destruct taken as [|t taken']; [now left|]. right.
        apply Fit; [discriminate|]. intros x Hx. apply Hplain. rewrite E.
        apply in_or_app. now left.
    + destruct (Nat.leb_spec (stringifyLength importantItems) charLimit) as [L'|L'].
      * split; [reflexivity|]. split.
        -- exists importantItems, []. rewrite app_nil_r.
           split; [right; split; [discriminate | reflexivity]|]. now split.
        -- intros _. now right.
      * split; [lia|].
        destruct (fill_spec charLimit importantItems [])
          as (taken & rest & E & F & Fit & Max).
        cbn [app] in F, Fit, Max. rewrite F. split.
        -- exists importantItems, rest.
           split; [right; split; [discriminate | reflexivity]|].
           split; [exact E | exact Max].
        -- intros _. destruct taken as [|t taken']; [now left|]. right.
           apply Fit; [discriminate|]. intros x Hx.
           assert (In x importantItems) as Hi by (rewrite E; apply in_or_app; now left).
           unfold importantItems in Hi. apply in_map_iff in Hi as (y & <- & _).
           reflexivity.
Qed.

End OutputLimit.

(** ** Cleaning the empty parts of a value *)

Section Cleaning.
Import JsValue ActorOutput.

(** Induction on values, with the hypothesis for the elements of an array
    and for the values of the properties of an object. *)
Lemma Value_induction (P : Value -> Prop) :
  P VUndefined -> P VNull -> (forall b, P (VBoolean b)) -> (forall n, P (VNumber n)) ->
  (forall s, P (VString s)) ->
  (forall l, Forall P l -> P (VArray l)) ->
  (forall o, Forall (fun kv => P (snd kv)) o -> P (VObject o)) ->
  forall v, P v.
Proof.
  intros Hu Hn Hb Hz Hs Ha Ho.
  fix IH 1. intros [| |b|n|s|l|o].
  - exact Hu.
  - exact Hn.
  - apply Hb.
  - apply Hz.
  - apply Hs.
  - apply Ha. induction l as [|x l IHl]; constructor; [apply IH | exact IHl].
  - apply Ho. induction o as [|[k x] o IHo]; constructor; [apply IH | exact IHo].
Qed.

Lemma distinct_NoDup (l : list string) : distinct l = true <-> NoDup l.
Proof.
  induction l as [|x l IH]; cbn [distinct].
  - split; [constructor | reflexivity].
  - rewrite andb_true_iff, negb_true_iff, IH. split.
    + intros [E ND]. constructor; [|exact ND]. intros I.
      apply existsb_eqb_in in I. congruence.
    + intros ND. inversion ND as [|y m Hx Hl]; subst. split; [|exact Hl].
      destruct (existsb (String.eqb x) l) eqn:E; [|reflexivity].
      apply existsb_eqb_in in E. contradiction.
Qed.

Lemma in_set {V} (k : string) (v : V) (o : list (string * V)) (kv : string * V) :
  In kv (Js.set k v o) -> In kv o \/ kv = (k, v).
Proof.
  induction o as [|[k' v'] o IH]; cbn [Js.set].
  - intros [<-|[]]. now right.
  - destruct (String.eqb_spec k' k) as [->|N].
    + intros [<-|H]; [now right | left; now right].
    + intros [<-|H]; [left; now left|].
      destruct (IH H) as [H'|H']; [left; now right | now right].
Qed.

(** The loop over the properties of an object. *)
Lemma clean_fold (o acc : list (string * Value)) :
  let cleaned :=
    fold_left (fun cleaned kv =>
                 let cleanedValue := cleanEmptyProperties (snd kv) in
                 if isUndefined cleanedValue then cleaned
                 else assign (fst kv) cleanedValue cleaned) o acc in
  (NoDup (Js.keys acc) -> NoDup (Js.keys cleaned)) /\
  (~ In "__proto__" (Js.keys acc) -> ~ In "__proto__" (Js.keys cleaned)) /\
  (forall kv, In kv cleaned ->
              In kv acc \/
              exists v, In (fst kv, v) o /\ snd kv = cleanEmptyProperties v /\
                        isUndefined (cleanEmptyProperties v) = false).
Proof.
  revert acc. induction o as [|[k v] o IH]; intros acc; cbn zeta.
  - cbn [fold_left]. split; [auto|]. split; [auto|]. intros kv H. now left.
  - cbn [fold_left fst snd].
    destruct (isUndefined (cleanEmptyProperties v)) eqn:U.
    + destruct (IH acc) as (ND & NP & I). split; [exact ND|]. split; [exact NP|].
      intros kv H. destruct (I kv H) as [H'|(v' & H1 & H2 & H3)]; [now left|].
      right. exists v'. split; [now right | now split].
    + destruct (IH (assign k (cleanEmptyProperties v) acc)) as (ND & NP & I).
      split; [|split].
      * intros H. apply ND. now apply assign_NoDup.
      * intros H. apply NP. intros C. apply assign_keys in C as [C|[C1 C2]].
        -- contradiction.
        -- congruence.
      * intros kv H. destruct (I kv H) as [H'|(v' & H1 & H2 & H3)].
        -- unfold assign in H'. destruct (String.eqb k "__proto__"); [now left|].
           apply in_set in H' as [H'| ->]; [now left|].
           right. exists v. split; [now left | now split].
        -- right. exists v'. split; [now right | now split].
Qed.

(** On an object that needs no cleaning the loop rebuilds the object. *)
Lemma clean_fold_fixed (o acc : list (string * Value)) :
  Forall (fun kv => cleanEmptyProperties (snd kv) = snd kv
                    /\ isUndefined (snd kv) = false) o ->
  NoDup (Js.keys o) ->
  ~ In "__proto__" (Js.keys o) ->
  (forall k, In k (Js.keys o) -> ~ In k (Js.keys acc)) ->
  fold_left (fun cleaned kv =>
               let cleanedValue := cleanEmptyProperties (snd kv) in
               if isUndefined cleanedValue then cleaned
               else assign (fst kv) cleanedValue cleaned) o acc
  = (acc ++ o)%list.
Proof.
  revert acc. induction o as [|[k v] o IH]; intros acc F ND NP D.
  - cbn [fold_left]. now rewrite app_nil_r.
  - cbn [fold_left fst snd]. inversion F as [|x l [Fc Fu] Fo]; subst.
    cbn [snd] in Fc, Fu. rewrite Fc, Fu.
    cbn [Js.keys map fst] in ND, NP, D. inversion ND as [|x l Hk Hnd]; subst.
    assert (Hp : k <> "__proto__") by (intros ->; apply NP; now left).
    unfold assign. apply String.eqb_neq in Hp. rewrite Hp.
    rewrite set_fresh.
    + rewrite IH; [now rewrite <- app_assoc | exact Fo | exact Hnd | |].
      * intros C. apply NP. now right.
      * intros n Hn C. unfold Js.keys in C. rewrite map_app, in_app_iff in C.
        destruct C as [C|[<-|[]]].
        -- apply (D n); [now right | exact C].
        -- contradiction.
    + apply not_in_keys_absent. intros C. apply (D k); [now left | exact C].
Qed.

Lemma noEmpty_defined (v : Value) : noEmpty v = true -> isUndefined v = false.
Proof. now destruct v. Qed.

(** What [cleanEmptyProperties] returns is [undefined] or has no empty
    part at any depth, and its objects are plain; a value without empty
    part whose objects are plain is returned as it is. *)
Lemma cleanEmptyProperties_spec (v : Value) :
  (cleanEmptyProperties v = VUndefined \/ noEmpty (cleanEmptyProperties v) = true) /\
  plainObjects (cleanEmptyProperties v) = true /\
  (noEmpty v = true -> plainObjects v = true -> cleanEmptyProperties v = v).
Proof.
  induction v as [| |b|n|s|l IH|o IH] using Value_induction.
  - repeat split; auto; discriminate.
  - repeat split; auto; discriminate.
  - repeat split; auto.
  - repeat split; auto.
  - destruct s; repeat split; auto; discriminate.
  - cbn [cleanEmptyProperties].
    set (cleaned := filter (fun item => negb (isUndefined item))
                           (map cleanEmptyProperties l)).
    assert (Hall : Forall (fun x => noEmpty x = true /\ plainObjects x = true) cleaned).
    { unfold cleaned. clear cleaned.
      induction IH as [|x l [[Hu|Hn] [Hp _]] _ IHl]; cbn [map filter]; [constructor| |].
      - rewrite Hu. exact IHl.
      - rewrite (noEmpty_defined _ Hn). cbn [negb]. constructor; [now split | exact IHl]. }
    split; [|split].
    + destruct cleaned as [|x r] eqn:E; [now left|]. right.
      cbn [noEmpty]. apply forallb_forall. intros y Hy.
      rewrite Forall_forall in Hall. now apply Hall.
    + destruct cleaned as [|x r] eqn:E; [reflexivity|].
      cbn [plainObjects]. apply forallb_forall. intros y Hy.
      rewrite Forall_forall in Hall. now apply Hall.
    + intros Hn Hp.
      assert (Hl : cleaned = l).
      { unfold cleaned. clear cleaned Hall.
        assert (Hn' : forallb noEmpty l = true) by (destruct l; [discriminate | exact Hn]).
        cbn [plainObjects] in Hp. clear Hn.
        induction IH as [|x l [_ [_ Hx]] _ IHl]; [reflexivity|].
        cbn [forallb] in Hn', Hp.
        apply andb_true_iff in Hn' as [Hn1 Hn2]. apply andb_true_iff in Hp as [Hp1 Hp2].
        cbn [map filter]. rewrite (Hx Hn1 Hp1), (noEmpty_defined _ Hn1). cbn [negb].
        now rewrite IHl. }
      rewrite Hl. destruct l; [discriminate | reflexivity].
  - cbn [cleanEmptyProperties].
    destruct (clean_fold o []) as (ND & NP & I). cbn zeta in ND, NP, I.
    set (cleaned := fold_left _ o []) in *.
    assert (Hall : forall kv, In kv cleaned ->
                              noEmpty (snd kv) = true /\ plainObjects (snd kv) = true).
    { intros kv H. destruct (I kv H) as [[]|(v & Hv & E & U)].
      rewrite Forall_forall in IH. destruct (IH _ Hv) as ([Hu|Hn] & Hp & _).
      - cbn [snd] in Hu. rewrite Hu in U. discriminate.
      - cbn [snd] in Hn, Hp. rewrite E. now split. }
    split; [|split].
    + destruct cleaned as [|x r] eqn:E; [now left|]. right.
      cbn [noEmpty]. apply forallb_forall. intros y Hy. now apply Hall.
    + destruct cleaned as [|x r] eqn:E; [reflexivity|].
      cbn [plainObjects]. rewrite !andb_true_iff. split; [split|].
      * apply distinct_NoDup, ND. constructor.
      * apply negb_true_iff. destruct (existsb _ _) eqn:X; [|reflexivity].
        apply existsb_eqb_in in X. exfalso. apply NP; [intros [] | exact X].
      * apply forallb_forall. intros y Hy. now apply Hall.
    + intros Hn Hp. cbn [plainObjects] in Hp.
      apply andb_true_iff in Hp as [Hp Hp3]. apply andb_true_iff in Hp as [Hp1 Hp2].
      assert (Hn' : forallb (fun kv => noEmpty (snd kv)) o = true)
        by (destruct o; [discriminate | exact Hn]).
      assert (Hfix : cleaned = o).
      { unfold cleaned. rewrite clean_fold_fixed; [reflexivity| | | |].
        - rewrite Forall_forall in *. intros kv Hkv.
          rewrite forallb_forall in Hn', Hp3.
          destruct (IH kv Hkv) as (_ & _ & Hx).
          split; [apply Hx; auto | apply noEmpty_defined; auto].
        - now apply distinct_NoDup.
        - apply negb_true_iff in Hp2. intros C. apply existsb_eqb_in in C. congruence.
        - intros k _ []. }
      rewrite Hfix. destruct o; [discriminate | reflexivity].
Qed.

(** [cleanEmptyProperties] returns [undefined] or a value that has no
    empty part at any depth: no [null], no [undefined], no empty string,
    array or object.  A value without empty part, the objects of which have
    distinct property names other than [__proto__], is returned as it is,
    and cleaning is idempotent. *)
Theorem cleanEmptyProperties_clean (v : Value) :
  (cleanEmptyProperties v = VUndefined \/ noEmpty (cleanEmptyProperties v) = true) /\
  (noEmpty v = true -> plainObjects v = true -> cleanEmptyProperties v = v) /\
  cleanEmptyProperties (cleanEmptyProperties v) = cleanEmptyProperties v.
Proof.
  destruct (cleanEmptyProperties_spec v) as (H1 & H2 & H3).
  split; [exact H1|]. split; [exact H3|].
  destruct H1 as [->|Hn]; [reflexivity|].
  now apply (cleanEmptyProperties_spec (cleanEmptyProperties v)).
Qed.

Example cleanEmptyProperties_examples :
  cleanEmptyProperties
    (VObject [("title", VString "Apify"); ("tags", VArray [VString ""; VNull]);
              ("meta", VObject [("lang", VNull); ("size", VNumber 0)]);
              ("flag", VBoolean false); ("note", VString "")])
  = VObject [("title", VString "Apify"); ("meta", VObject [("size", VNumber 0)]);
             ("flag", VBoolean false)] /\
  cleanEmptyProperties (VObject [("a", VArray [VObject []])]) = VUndefined.
Proof. split; reflexivity. Qed.

End Cleaning.

(** ** The mark of the required properties *)

Section Marking.
Import ToolsUtils SchemaMarking.

Lemma set_app_absent {V} (k : string) (v : V) (o o' : list (string * V)) :
  Js.get k o = None -> Js.set k v (o ++ o')%list = (o ++ Js.set k v o')%list.
Proof.
  induction o as [|[k' v'] o IH]; cbn [Js.get Js.set app]; [reflexivity|].
  destruct (String.eqb k' k); [discriminate|]. intros H. now rewrite IH.
Qed.

Lemma slice0_app_prefix (n : nat) (p x : string) :
  String.length p <= n ->
  Js.slice0 n (p ++ x) = p ++ Js.slice0 (n - String.length p) x.
Proof.
  revert n. induction p as [|a p IH]; intros n H; cbn [String.length append].
  - now rewrite Nat.sub_0_r.
  - destruct n as [|n]; [cbn [String.length] in H; lia|].
    cbn [Js.slice0 Nat.sub]. rewrite IH; [reflexivity|]. cbn [String.length] in H. lia.
Qed.

Lemma shortenDescription_prefix (p d : string) :
  String.length p <= Const.ACTOR_MAX_DESCRIPTION_LENGTH ->
  Js.startsWith p (shortenDescription (p ++ d)) = true.
Proof.
  intros H. unfold shortenDescription.
  destruct (Const.ACTOR_MAX_DESCRIPTION_LENGTH <? String.length (p ++ d))%nat.
  - rewrite (slice0_app_prefix _ p d H), app_assoc_string. apply startsWith_app.
  - apply startsWith_app.
Qed.

(** The loop of [markInputPropertiesAsRequired], when the names before
    the current one are done. *)
Lemma mark_loop (required : list string)
      (done todo : list (string * ISchemaProperties)) :
  let mark := fun kv : string * ISchemaProperties =>
                if existsb (String.eqb (fst kv)) required
                then (fst kv, markRequired (snd kv)) else kv in
  NoDup (Js.keys (done ++ todo)%list) ->
  fold_left (fun properties property =>
               if existsb (String.eqb property) required
               then match Js.get property properties with
                    | Some p => Js.set property (markRequired p) properties
                    | None => properties
                    end
               else properties)
            (Js.keys todo) (map mark done ++ todo)%list
  = map mark (done ++ todo)%list.
Proof.
  cbn zeta. revert done. induction todo as [|[k p] todo IH]; intros done ND.
  - cbn [Js.keys map fold_left]. now rewrite !app_nil_r.
  - cbn [Js.keys map fold_left fst].
    set (mark := fun kv : string * ISchemaProperties =>
                   if existsb (String.eqb (fst kv)) required
                   then (fst kv, markRequired (snd kv)) else kv).
    assert (Habs : Js.get k (map mark done) = None).
    { apply not_in_keys_absent. unfold Js.keys. rewrite map_map.
      assert (E : map (fun x => fst (mark x)) done = map fst done).
      { apply map_ext. intros [k' p']. unfold mark. cbn [fst snd].
        now destruct (existsb (String.eqb k') required). }
      rewrite E. unfold Js.keys in ND. rewrite map_app in ND.
      apply NoDup_remove_2 in ND. intros C. apply ND.
      apply in_or_app. now left. }
    assert (Hnext : (if existsb (String.eqb k) required
                     then match Js.get k (map mark done ++ (k, p) :: todo)%list with
                          | Some p0 => Js.set k (markRequired p0)
                                              (map mark done ++ (k, p) :: todo)%list
                          | None => (map mark done ++ (k, p) :: todo)%list
                          end
                     else (map mark done ++ (k, p) :: todo)%list)
                    = (map mark (done ++ [(k, p)]) ++ todo)%list).
    { rewrite map_app, <- app_assoc. cbn [map app].
      change (mark (k, p))
        with (if existsb (String.eqb k) required then (k, markRequired p) else (k, p)).
      destruct (existsb (String.eqb k) required); [|reflexivity].
      rewrite get_app, Habs. cbn [Js.get]. rewrite String.eqb_refl.
      rewrite set_app_absent by exact Habs. cbn [Js.set].
      now rewrite String.eqb_refl. }
    rewrite Hnext.
    fold (Js.keys todo). subst mark.
    rewrite (IH (done ++ [(k, p)])%list).
    + now rewrite <- app_assoc.
    + now rewrite <- app_assoc.
Qed.

(** On a schema with distinct property names [markInputPropertiesAsRequired]
    puts the mark before the description of each required property, once,
    and leaves the other properties and the order as they are.  The mark
    survives the shortening pass that follows: the description of every
    required property of the shortened schema starts with the mark. *)
Theorem markInputPropertiesAsRequired_marks (required : option (list string))
        (properties : list (string * ISchemaProperties)) :
  NoDup (Js.keys properties) ->
  let isRequired := fun k => existsb (String.eqb k)
                                     (match required with Some r => r | None => [] end) in
  let marked := markInputPropertiesAsRequired required properties in
  marked = map (fun kv => if isRequired (fst kv)
                          then (fst kv, markRequired (snd kv)) else kv) properties /\
  Js.keys marked = Js.keys properties /\
  (forall k p, In (k, p) (shortenProperties marked) -> isRequired k = true ->
               Js.startsWith "**REQUIRED** " (description p) = true).
Proof.
  intros ND. cbn zeta.
  set (req := match required with Some r => r | None => [] end).
  assert (E : markInputPropertiesAsRequired required properties
              = map (fun kv => if existsb (String.eqb (fst kv)) req
                               then (fst kv, markRequired (snd kv)) else kv) properties).
  { unfold markInputPropertiesAsRequired. fold req.
    exact (mark_loop req [] properties ND). }
  rewrite E. split; [reflexivity|]. split.
  - unfold Js.keys. rewrite map_map. apply map_ext. intros [k p]. cbn [fst].
    now destruct (existsb (String.eqb k) req).
  - intros k p I R. unfold shortenProperties in I. rewrite map_map in I.
    apply in_map_iff in I as ([k0 p0] & Eq & _). cbn [fst snd] in Eq.
    destruct (existsb (String.eqb k0) req) eqn:R0; cbn [fst snd] in Eq;
      injection Eq as <- <-; [|congruence].
    cbn [shortenProperty description markRequired].
    apply shortenDescription_prefix. vm_compute. lia.
Qed.

End Marking.

Lemma markInputPropertiesAsRequired_marks_witness :
  SchemaMarking.markInputPropertiesAsRequired (Some ["query"])
    [("query", ToolsUtils.mkProperty "string" "Query" "Search term" None None);
     ("maxResults", ToolsUtils.mkProperty "integer" "Max" "Limit" None None)]
  = [("query", ToolsUtils.mkProperty "string" "Query" "**REQUIRED** Search term" None None);
     ("maxResults", ToolsUtils.mkProperty "integer" "Max" "Limit" None None)].
Proof.
  refine (proj1 (markInputPropertiesAsRequired_marks (Some ["query"])
            [("query", ToolsUtils.mkProperty "string" "Query" "Search term" None None);
             ("maxResults", ToolsUtils.mkProperty "integer" "Max" "Limit" None None)] _)).
  repeat constructor; simpl; intuition discriminate.
Defined.

(** ** Progress notifications *)

Section ProgressFacts.
Import Progress.

Lemma tick_progress (actorName : string)
      (answer : Js.Completion Types.Exn (option RunInfo)) (t : ProgressTracker) :
  let sent := fst (tick actorName answer t) in
  let t' := snd (tick actorName answer t) in
  map fst sent = seq (S (currentProgress t)) (List.length sent) /\
  currentProgress t' = currentProgress t + List.length sent.
Proof.
  cbn zeta. unfold tick.
  destruct answer as [[run|]|e]; cbn [fst snd map List.length seq];
    try (split; [reflexivity | lia]).
  destruct (negb (status run =? lastStatus t)
            || messageChanged (statusMessage run) (lastStatusMessage t));
    cbn [fst snd map List.length seq currentProgress]; split; try reflexivity; lia.
Qed.

Lemma ticks_stopped (actorName : string)
      (answers : list (Js.Completion Types.Exn (option RunInfo))) (t : ProgressTracker) :
  polling t = false -> ticks actorName answers t = ([], t).
Proof. intros H. destruct answers; cbn [ticks]; [reflexivity | now rewrite H]. Qed.

Lemma ticks_app (actorName : string)
      (answers more : list (Js.Completion Types.Exn (option RunInfo)))
      (t : ProgressTracker) :
  ticks actorName (answers ++ more)%list t
  = ((fst (ticks actorName answers t)
      ++ fst (ticks actorName more (snd (ticks actorName answers t))))%list,
     snd (ticks actorName more (snd (ticks actorName answers t)))).
Proof.
  revert t. induction answers as [|a answers IH]; intros t.
  - cbn [app ticks fst snd]. now destruct (ticks actorName more t).
  - cbn [app ticks]. destruct (polling t) eqn:P.
    + destruct (tick actorName a t) as [sent t1]. rewrite IH.
      destruct (ticks actorName answers t1) as [sent1 t2]. cbn [fst snd].
      now rewrite app_assoc.
    + cbn [fst snd app]. now rewrite (ticks_stopped actorName more t P).
Qed.

(** The notifications of a progress tracker.  They are numbered one by
    one from the progress reached before.  A tick sends nothing when the
    status and a status message are the ones seen last; a run without
    status message is reported at every tick.  Once a finished status was
    reported the interval is cleared, and nothing more is sent. *)
Theorem progress_notifications (actorName : string)
        (answers : list (Js.Completion Types.Exn (option RunInfo)))
        (t : ProgressTracker) :
  let sent := fst (ticks actorName answers t) in
  let t' := snd (ticks actorName answers t) in
  map fst sent = seq (S (currentProgress t)) (List.length sent) /\
  currentProgress t' = currentProgress t + List.length sent /\
  (forall run m, status run = lastStatus t -> statusMessage run = Some m ->
                 m = lastStatusMessage t ->
                 tick actorName (Js.Return (Some run)) t = ([], t)) /\
  (forall run, statusMessage run = None ->
               fst (tick actorName (Js.Return (Some run)) t)
               = [(S (currentProgress t), actorName ++ ": " ++ status run)]) /\
  (forall run, isFinished (status run) = true ->
               fst (tick actorName (Js.Return (Some run)) t) <> [] ->
               polling (snd (tick actorName (Js.Return (Some run)) t)) = false) /\
  (polling t' = false ->
   forall more, ticks actorName (answers ++ more)%list t = ticks actorName answers t).
Proof.
  cbn zeta. split; [|split; [|split; [|split; [|split]]]].
  - revert t. induction answers as [|a answers IH]; intros t; [reflexivity|].
    cbn [ticks]. destruct (polling t); [|reflexivity].
    pose proof (tick_progress actorName a t) as (H1 & H2). cbn zeta in H1, H2.
    destruct (tick actorName a t) as [sent t1]. cbn [fst snd] in H1, H2.
    specialize (IH t1). destruct (ticks actorName answers t1) as [sent1 t2].
    cbn [fst snd] in *. unfold Notification in *.
    rewrite map_app, List.length_app, seq_app, H1, IH, H2.
    reflexivity.
  - revert t. induction answers as [|a answers IH]; intros t; [cbn; lia|].
    cbn [ticks]. destruct (polling t); [|cbn; lia].
    pose proof (tick_progress actorName a t) as (_ & H2). cbn zeta in H2.
    destruct (tick actorName a t) as [sent t1]. cbn [fst snd] in H2.
    specialize (IH t1). destruct (ticks actorName answers t1) as [sent1 t2].
    cbn [fst snd] in *. rewrite List.length_app. lia.
  - intros run m Hs Hm ->. unfold tick, messageChanged.
    now rewrite Hs, Hm, !String.eqb_refl.
  - intros run Hm. unfold tick, messageChanged. rewrite Hm, orb_true_r. reflexivity.
  - intros run Hf. unfold tick.
    destruct (negb (status run =? lastStatus t)
              || messageChanged (statusMessage run) (lastStatusMessage t));
      cbn [fst snd polling]; [now rewrite Hf | congruence].
  - intros P more. rewrite ticks_app, (ticks_stopped actorName more _ P).
    cbn [fst snd]. rewrite app_nil_r. now destruct (ticks actorName answers t).
Qed.

Example progress_examples :
  let running := Js.Return (Some (mkRunInfo "RUNNING" None)) in
  let crawling := Js.Return (Some (mkRunInfo "RUNNING" (Some "Crawled 10 pages"))) in
  let succeeded := Js.Return (Some (mkRunInfo "SUCCEEDED" (Some "Done"))) in
  let fresh := startActorRunUpdates (mkTracker 0 false "" "") in
  fst (ticks "apify/rag-web-browser" [crawling; crawling; succeeded; crawling] fresh)
  = [(1, "apify/rag-web-browser: Crawled 10 pages"); (2, "apify/rag-web-browser: Done")] /\
  fst (ticks "apify/rag-web-browser" [running; running; running] fresh)
  = [(1, "apify/rag-web-browser: RUNNING"); (2, "apify/rag-web-browser: RUNNING");
     (3, "apify/rag-web-browser: RUNNING")].
Proof. split; reflexivity. Qed.

End ProgressFacts.

(** ** The tool [add-actor] *)

Section AddActorFacts.
Import Types Server ServerLoading AddActor.

Variable getActorsAsTools : list string -> Js.Completion Exn (list ToolEntry).
Variable sendNotification : Js.Completion Exn unit.

Lemma upsert_tools (entries : list ToolEntry) (notify : bool) (s : ActorsMcpServer) :
  tools (upsertTools entries notify s)
  = fold_left (fun m wrap => Js.set (name wrap) wrap m) entries (tools s).
Proof.
  unfold upsertTools, notifyToolsChangedHandler.
  destruct notify; [|reflexivity].
  cbn [toolsChangedHandler]. now destruct (toolsChangedHandler s).
Qed.

Lemma registered_actor_listed (s : ActorsMcpServer) (t : ActorTool) (n : string) :
  Js.get n (tools s) = Some (Actor t) -> In (actorFullName t) (listAllToolNames s).
Proof.
  intros G. apply get_in in G. unfold listAllToolNames.
  apply in_or_app. right. apply in_or_app. left.
  unfold listActorToolNames. apply in_flat_map. exists (Actor t).
  split; [|now left]. unfold Js.values. apply in_map_iff. now exists (n, Actor t).
Qed.

(** A call of [add-actor].  For an Actor that is listed nothing is looked
    up and nothing changes.  Otherwise the Actor is looked up: the list of
    tools is announced as changed exactly when the lookup gave tools, which
    are then registered, with a call of the handler of changes when one is
    registered; when the lookup gives nothing or fails, the server stays as
    it is.  After an Actor was added under its full name, adding it again
    changes nothing. *)
Theorem addTool_call (actor : string) (s : ActorsMcpServer) :
  let outcome := call getActorsAsTools sendNotification actor s in
  (In actor (listAllToolNames s) ->
   server outcome = s /\ listChanged outcome = false /\
   completion outcome
   = Js.Return (text ("Actor " ++ actor
                      ++ " is already available. No new tools were added."))) /\
  (listChanged outcome = true <->
   ~ In actor (listAllToolNames s) /\
   exists t ts, getActorsAsTools [actor] = Js.Return (t :: ts)) /\
  (listChanged outcome = false -> server outcome = s) /\
  (forall t ts,
      ~ In actor (listAllToolNames s) ->
      getActorsAsTools [actor] = Js.Return (t :: ts) ->
      server outcome = upsertTools (t :: ts) true s /\
      (forall e, In e (t :: ts) -> In (name e) (listToolNames (server outcome)))) /\
  (forall t,
      ~ In actor (listAllToolNames s) ->
      getActorsAsTools [actor] = Js.Return [Actor t] ->
      actorFullName t = actor ->
      call getActorsAsTools sendNotification actor (server outcome)
      = mkOutcome (server outcome) false
          (Js.Return (text ("Actor " ++ actor
                            ++ " is already available. No new tools were added.")))).
Proof.
  cbn zeta. unfold call, loadActorsAsTools.
  destruct (existsb (String.eqb actor) (listAllToolNames s)) eqn:L.
  - apply existsb_eqb_in in L. cbn [server listChanged completion].
    split; [intros _; repeat split|]. split.
    + split; [discriminate | intros [C _]; contradiction].
    + split; [reflexivity|]. split; intros; contradiction.
  - assert (NL : ~ In actor (listAllToolNames s)).
    { intros C. apply existsb_eqb_in in C. congruence. }
    split; [intros C; contradiction|].
    destruct (getActorsAsTools [actor]) as [[|t ts]|e] eqn:G;
      cbn [server listChanged completion].
    + split; [split; [discriminate | intros (_ & t & ts & C); discriminate]|].
      split; [reflexivity|]. split; [intros t ts _ C; discriminate|].
      intros t _ C; discriminate.
    + split; [split; [intros _; split; [exact NL | now exists t, ts] | reflexivity]|].
      split; [discriminate|]. split.
      * intros t' ts' _ [= <- <-]. split; [reflexivity|].
        intros e I. now apply upsert_registers.
      * intros t' _ [= -> ->] Hfull.
        assert (Hin : In actor (listAllToolNames (upsertTools [Actor t'] true s))).
        { rewrite <- Hfull.
          apply registered_actor_listed with (n := name (Actor t')).
          rewrite upsert_tools. cbn [fold_left]. apply get_set_same. }
        apply existsb_eqb_in in Hin. now rewrite Hin.
    + split; [split; [discriminate | intros (_ & t & ts & C); discriminate]|].
      split; [reflexivity|]. split; [intros t ts _ C; discriminate|].
      intros t _ C; discriminate.
Qed.

End AddActorFacts.

(** ** The memory of an Actor tool *)

Section MemoryFacts.
Import Types Const Effects ActorTools Server Trace.

Lemma actorToolOf_memory (d : ActorDefinitionPruned) :
  exists t, actorToolOf d = Actor t /\
            actorFullName t = definition_actorFullName d /\
            (memoryMbytes t <= ACTOR_MAX_MEMORY_MBYTES)%Z /\
            memoryMbytes t
            = match defaultRunOptions_memoryMbytes d with
              | Some m => if (m =? 0)%Z then ACTOR_MAX_MEMORY_MBYTES
                          else Z.min m ACTOR_MAX_MEMORY_MBYTES
              | None => ACTOR_MAX_MEMORY_MBYTES
              end.
Proof.
  unfold actorToolOf. eexists. split; [reflexivity|]. cbn [actorFullName memoryMbytes].
  split; [reflexivity|]. unfold ACTOR_MAX_MEMORY_MBYTES.
  destruct (defaultRunOptions_memoryMbytes d) as [m|].
  - destruct (Z.eqb_spec m 0) as [->|N]; [split; reflexivity|].
    destruct (Z.ltb_spec 4096 m); split; lia.
  - split; reflexivity.
Qed.

(** The memory of the tool made from an Actor definition is the default
    memory of the definition, cut to 4096; it is 4096 when the definition
    gives none, or 0.  A call of the tool starts one run, of the Actor of
    the definition, with this memory. *)
Theorem actor_tool_memory (d : ActorDefinitionPruned) (s : ActorsMcpServer) (env : Env)
        (request : CallToolRequest) (signal : option AbortSignal) (c : ascii) (r : string)
        (args : Args) :
  orElse (apifyToken request) (APIFY_TOKEN env) = Some (String c r) ->
  findTool (normalizeToolName (request_name request)) s = Some (actorToolOf d) ->
  arguments request = Some args ->
  ajvValidate env (actorToolOf d) (ToolsUtils.decodeDotPropertyNames args) = true ->
  exists memory,
    filter isToolCall (events (callToolHandler s env request signal))
    = [ActorStart (definition_actorFullName d) (Some memory)] /\
    (memory <= ACTOR_MAX_MEMORY_MBYTES)%Z /\
    memory = match defaultRunOptions_memoryMbytes d with
             | Some m => if (m =? 0)%Z then ACTOR_MAX_MEMORY_MBYTES
                         else Z.min m ACTOR_MAX_MEMORY_MBYTES
             | None => ACTOR_MAX_MEMORY_MBYTES
             end.
Proof.
  intros Htok Hf Ha Hv.
  destruct (actorToolOf_memory d) as (t & Et & Hn & Hle & Hm).
  exists (memoryMbytes t). split; [|split; [exact Hle | exact Hm]].
  rewrite (handler_filter isToolCall s env request signal c r (actorToolOf d) args);
    auto.
  rewrite callByType_calls, Et. now rewrite Hn.
Qed.

End MemoryFacts.

Lemma actor_tool_memory_witness :
  exists memory,
    filter Trace.isToolCall
           (Effects.events (Server.callToolHandler Scenario.server
                              (Scenario.envWith Scenario.platformOk)
                              Scenario.request None))
    = [Effects.ActorStart "apify/rag-web-browser" (Some memory)] /\
    (memory <= 4096)%Z /\ memory = 1024%Z.
Proof.
  exact (actor_tool_memory Scenario.ragWebBrowser Scenario.server
           (Scenario.envWith Scenario.platformOk) Scenario.request None
           "a" "pify_api_token" _ eq_refl eq_refl eq_refl eq_refl).
Defined.

(** ** The level of the log *)

Section LoggingFacts.
Import Types Effects ActorTools Server Trace Logging.
Local Open Scope eff_scope.

Lemma levelValue_known (nativeSource : string -> string) (level : string) (n : Z) :
  levelValue nativeSource level = Level n <-> Js.get level LOG_LEVEL_MAP = Some n.
Proof.
  unfold levelValue. destruct (Js.get level LOG_LEVEL_MAP) as [m|].
  - split; intros [= ->]; reflexivity.
  - destruct (existsb _ _); split; discriminate.
Qed.

(** The messages that the dispatcher sends have the level [error]. *)
Lemma handler_logging (s : ActorsMcpServer) (env : Env) (request : CallToolRequest)
      (signal : option AbortSignal) (level data : string) :
  In (SendLoggingMessage level data) (events (callToolHandler s env request signal)) ->
  level = "error".
Proof.
  assert (Hinv : forall msg, In (SendLoggingMessage level data)
                                [LogError msg; SendLoggingMessage "error" msg] ->
                             level = "error").
  { intros msg [C|[[= <- _]|[]]]; [discriminate | reflexivity]. }
  assert (Hpre : forall l, In (SendLoggingMessage level data)
                              (if Js.startsWith "local__" (request_name request)
                               then [LogDebug "Tool name with prefix detected"] else [])
                           -> l = level -> level = "error").
  { intros l I _. destruct (Js.startsWith _ _); [destruct I as [C|[]]; discriminate|].
    destruct I. }
  unfold callToolHandler.
  destruct (orElse (apifyToken request) (APIFY_TOKEN env)) as [[|c r]|] eqn:Htok.
  - rewrite invalidParams_events. apply Hinv.
  - rewrite events_quiet.
    destruct (findTool (normalizeToolName (request_name request)) s) as [tool|] eqn:Hf.
    + destruct (arguments request) as [args|] eqn:Ha.
      * rewrite bind_emit. cbn [events fst].
        destruct (ajvValidate env tool (ToolsUtils.decodeDotPropertyNames args)) eqn:Hv;
          cbn [negb].
        -- intros I. apply in_app_or in I as [I|[C|I]];
             [now apply (Hpre level) | discriminate|].
           exfalso.
           fold (events (tryCatch
                           (callByType env tool (ToolsUtils.decodeDotPropertyNames args)
                                       (String c r) (progressToken request) signal)
                           (onError (normalizeToolName (request_name request))))) in I.
           assert (F : filter isLoggingMessage
                         (events (tryCatch
                                    (callByType env tool
                                                (ToolsUtils.decodeDotPropertyNames args)
                                                (String c r) (progressToken request) signal)
                                    (onError (normalizeToolName (request_name request)))))
                       = []).
           { rewrite events_tryCatch, filter_app.
             assert (filter isLoggingMessage
                       (events (callByType env tool (ToolsUtils.decodeDotPropertyNames args)
                                           (String c r) (progressToken request) signal))
                     = []) as ->.
             { destruct tool as [t|t|t]; cbn [callByType].
               - rewrite !bind_emit. cbn [events fst filter isLoggingMessage].
                 unfold Effects.bind, lift, emit, ret.
                 destruct (internalCall env t _); cbn [fst snd app filter];
                   [|reflexivity].
                 destruct (if String.eqb (helper_name t) "call-actor"
                           then createProgressTracker (progressToken request) else false);
                   reflexivity.
               - rewrite events_tryFinally, bind_emit.
                 cbn [events fst app filter isLoggingMessage].
                 rewrite filter_app, events_bind, filter_app.
                 destruct (callActorGetDataset_trace (platform env) (actorFullName t)
                             (ToolsUtils.decodeDotPropertyNames args)
                             (Some (memoryMbytes t))
                             (createProgressTracker (progressToken request)) signal)
                   as (rest & -> & _ & _ & _ & F).
                 cbn [filter isLoggingMessage]. rewrite F.
                 destruct (completion _) as [[res|]|]; cbn [events ret fst filter app];
                   destruct (createProgressTracker (progressToken request)); reflexivity.
               - rewrite bind_emit. cbn [events fst filter isLoggingMessage].
                 unfold Effects.bind, lift, tryFinally, emit, ret.
                 destruct (connectMCPClient env (serverUrl t)); cbn [fst snd app filter];
                   [|reflexivity].
                 destruct (callTool env t _); reflexivity. }
             cbn [app]. destruct (completion _) as [res|e]; [reflexivity|].
             destruct e; reflexivity. }
           apply (filter_none_in _ _ _ F) in I. discriminate.
        -- intros I. apply in_app_or in I as [I|[C|I]];
             [now apply (Hpre level) | discriminate|].
           fold (events (@invalidParams CallToolResult
                           ("Invalid arguments for tool " ++ name tool ++ ": args: "
                            ++ stringifyArgs env (ToolsUtils.decodeDotPropertyNames args)
                            ++ " error: "
                            ++ stringifyErrors env tool
                                 (ToolsUtils.decodeDotPropertyNames args)))) in I.
           rewrite invalidParams_events in I. now apply Hinv in I.
      * intros I. apply in_app_or in I as [I|I]; [now apply (Hpre level)|].
        rewrite invalidParams_events in I. now apply Hinv in I.
    + intros I. apply in_app_or in I as [I|I]; [now apply (Hpre level)|].
      rewrite invalidParams_events in I. now apply Hinv in I.
  - rewrite invalidParams_events. apply Hinv.
Qed.

(** The filter of the log.  A message is forwarded exactly in two cases.
    Either its level is one of the eight levels, the current level is one
    of them or is no property of the map at all (it then counts as
    [info]), and the level of the message is not below the current one.
    Or both levels name members of [Object.prototype], and the text of
    the current one is not after the text of the message's one in the
    order of strings; so a message whose level is the same member as the
    current level is forwarded.  A level of the eight and a member are
    never forwarded to one another.  Among the eight levels a lower
    current level forwards more.  A request for a level that is no
    property of the map leaves the level as it is, and a request for any
    other level, a member of the prototype included, sets it.  The
    messages of the dispatcher have the level [error]: they are forwarded
    at the levels from [debug] to [error], among them the initial level
    [info], and not at the levels above. *)
Theorem logging_filter (nativeSource : string -> string)
        (currentLogLevel level : string) :
  let forwards := forwards nativeSource in
  let levelValue := levelValue nativeSource in
  (forwards currentLogLevel level = true <->
   (exists m c, Js.get level LOG_LEVEL_MAP = Some m /\
                (Js.get currentLogLevel LOG_LEVEL_MAP = Some c
                 \/ (levelValue currentLogLevel = Absent /\ c = 1%Z)) /\
                (c <= m)%Z)
   \/
   (exists tm tc, levelValue level = Member tm /\
                  levelValue currentLogLevel = Member tc /\
                  String.leb tc tm = true)) /\
  (forall t, levelValue level = Member t -> forwards level level = true) /\
  (forall lower c1 c2,
      Js.get lower LOG_LEVEL_MAP = Some c1 ->
      Js.get currentLogLevel LOG_LEVEL_MAP = Some c2 -> (c1 <= c2)%Z ->
      forwards currentLogLevel level = true -> forwards lower level = true) /\
  (levelValue level = Absent ->
   setLevel nativeSource level currentLogLevel = currentLogLevel) /\
  (levelValue level <> Absent ->
   setLevel nativeSource level currentLogLevel = level) /\
  (forall s env request signal ev,
      In ev (forwarded nativeSource currentLogLevel
                       (events (callToolHandler s env request signal))) <->
      In ev (events (callToolHandler s env request signal)) /\
      (exists data, ev = SendLoggingMessage "error" data) /\
      forwards currentLogLevel "error" = true).
Proof.
  intros fw lv. subst fw lv.
  assert (Hf : forall current lvl,
             forwards nativeSource current lvl = true <->
             (exists m c, Js.get lvl LOG_LEVEL_MAP = Some m /\
                          (Js.get current LOG_LEVEL_MAP = Some c
                           \/ (levelValue nativeSource current = Absent /\ c = 1%Z)) /\
                          (c <= m)%Z)
             \/
             (exists tm tc, levelValue nativeSource lvl = Member tm /\
                            levelValue nativeSource current = Member tc /\
                            String.leb tc tm = true)).
  { intros current lvl. unfold forwards.
    destruct (levelValue nativeSource lvl) as [m|tm|] eqn:Lm.
    - apply levelValue_known in Lm.
      destruct (levelValue nativeSource current) as [c|tc|] eqn:Lc.
      + apply levelValue_known in Lc. rewrite Z.leb_le. split.
        * intros H. left. exists m, c. split; [exact Lm|]. split; [now left | exact H].
        * intros [(m' & c' & Hm & [Hc|[Hc _]] & H)|(tm & tc & C & _)];
            [congruence | discriminate | discriminate].
      + split; [discriminate|].
        intros [(m' & c' & _ & [Hc|[Hc _]] & _)|(tm & tc' & C & _)];
          [|discriminate|discriminate].
        apply (levelValue_known nativeSource) in Hc. congruence.
      + rewrite Z.leb_le. split.
        * intros H. left. exists m, 1%Z. split; [exact Lm|]. split; [now right | exact H].
        * intros [(m' & c' & Hm & [Hc|[_ ->]] & H)|(tm & tc & C & _)];
            [|congruence|discriminate].
          apply (levelValue_known nativeSource) in Hc. congruence.
    - destruct (levelValue nativeSource current) as [c|tc|] eqn:Lc.
      + split; [discriminate|].
        intros [(m' & c' & Hm & _)|(tm' & tc & _ & C & _)]; [|discriminate].
        apply (levelValue_known nativeSource) in Hm. congruence.
      + split.
        * intros H. right. exists tm, tc. now repeat split.
        * intros [(m' & c' & Hm & _)|(tm' & tc' & [= <-] & [= <-] & H)]; [|exact H].
          apply (levelValue_known nativeSource) in Hm. congruence.
      + split; [discriminate|].
        intros [(m' & c' & Hm & _)|(tm' & tc & _ & C & _)]; [|discriminate].
        apply (levelValue_known nativeSource) in Hm. congruence.
    - split.
      + destruct (levelValue nativeSource current) as [c|tc|] eqn:Lc; try discriminate.
        rewrite Z.leb_le. apply levelValue_known in Lc. intros H. exfalso.
        revert Lc H. unfold LOG_LEVEL_MAP. cbn [Js.get].
        repeat (destruct (String.eqb _ current); [intros [= <-]; lia|]).
        discriminate.
      + intros [(m' & c' & Hm & _)|(tm & tc & C & _)]; [|discriminate].
        apply (levelValue_known nativeSource) in Hm. congruence. }
  split; [apply Hf|]. split; [|split; [|split; [|split]]].
  - intros t Ht. apply Hf. right. exists t, t. split; [exact Ht|]. split; [exact Ht|].
    destruct (String.leb_total t t); assumption.
  - intros lower c1 c2 H1 H2 Hle H.
    apply Hf in H as [(m & c & Hm & [Hc|[Hc _]] & Hcm)|(tm & tc & _ & C & _)].
    + apply Hf. left. exists m, c1. split; [exact Hm|]. split; [now left|].
      assert (c = c2) by congruence. lia.
    + apply (levelValue_known nativeSource) in H2. congruence.
    + apply (levelValue_known nativeSource) in H2. congruence.
  - unfold setLevel. now intros ->.
  - unfold setLevel. destruct (levelValue nativeSource level); [reflexivity..|].
    intros C. now contradiction C.
  - intros s env request signal ev. unfold forwarded. rewrite filter_In. split.
    + intros [I F]. split; [exact I|]. destruct ev; try discriminate.
      pose proof (handler_logging s env request signal level0 data I) as ->.
      split; [now exists data | exact F].
    + intros (I & (data & ->) & F). split; [exact I | exact F].
Qed.

(** With the current level [constructor], a member of the prototype, a
    message of the level [constructor] is forwarded, and so is one of the
    level [toString], whose text comes later; a message of the level
    [error] is not, and nor is one of a level unknown to the map. *)
Example logging_members :
  let nativeSource (name : string) :=
    (if String.eqb name "constructor" then " Object" else " " ++ name)
    ++ "() { [native code] }" in
  setLevel nativeSource "constructor" "info" = "constructor" /\
  forwards nativeSource "constructor" "constructor" = true /\
  forwards nativeSource "constructor" "toString" = true /\
  forwards nativeSource "toString" "constructor" = false /\
  forwards nativeSource "constructor" "error" = false /\
  forwards nativeSource "constructor" "verbose" = false /\
  forwards nativeSource "info" "constructor" = false.
Proof. vm_compute. repeat split. Qed.

End LoggingFacts.

(** ** The tool [get-actor-output] *)

Section GetActorOutputFacts.
Import Types Server JsValue ActorOutput GetActorOutput.

Variable stringify : list Value -> string.
Variable listItems : string -> Z -> Z -> option (list string)
                     -> Js.Completion Exn (option (list Value)).

(** Cleaning an object keeps no property that the object does not have. *)
Lemma clean_object_keys (o : list (string * Value)) :
  cleanEmptyProperties (VObject o) = VUndefined \/
  exists cleaned, cleanEmptyProperties (VObject o) = VObject cleaned /\
                  forall k, In k (Js.keys cleaned) -> In k (Js.keys o).
Proof.
  cbn [cleanEmptyProperties].
  destruct (clean_fold o []) as (_ & _ & I). cbn zeta in I.
  destruct (fold_left _ o []) as [|kv cleaned] eqn:E; [now left|].
  right. eexists. split; [reflexivity|].
  intros k Hk. unfold Js.keys in Hk. apply in_map_iff in Hk as (kv' & <- & Hkv).
  destruct (I kv' Hkv) as [[]|(v & Hv & _)].
  unfold Js.keys. apply in_map_iff. now exists (fst kv', v).
Qed.

(** The answer of [get-actor-output].  The platform is asked to filter
    the fields only when fields are given and none of them has a dot.  Every
    item of the answer has no empty part at any depth and, when fields are
    given, is an object with no other property than these fields.  A
    failure of the platform is the failure of the call.  The text of the
    answer is the serialized items when they have at most 80000 units, and
    otherwise their first 80000 units followed by the notice. *)
Theorem getActorOutput_call (datasetId : string) (fields : option string)
        (offset limit : Z) :
  let fieldsArray := McpPaths.parseCommaSeparatedList fields in
  (forall asked, apiFields fieldsArray = Some asked ->
                 asked = fieldsArray /\ fieldsArray <> [] /\
                 Forall (fun f => Js.includesChar "." f = false) asked) /\
  (forall items item,
      In item (cleanedItems fieldsArray items) ->
      noEmpty item = true /\
      (fieldsArray <> [] ->
       exists o, item = VObject o /\ forall k, In k (Js.keys o) -> In k fieldsArray)) /\
  (forall e, listItems datasetId offset limit (apiFields fieldsArray) = Js.Throw e ->
             call stringify listItems datasetId fields offset limit = Js.Throw e) /\
  (forall items,
      listItems datasetId offset limit (apiFields fieldsArray) = Js.Return (Some items) ->
      exists t,
        call stringify listItems datasetId fields offset limit
        = Js.Return (mkResult (Some [Text t])) /\
        String.length t <= TOOL_MAX_OUTPUT_CHARS + String.length truncationNotice /\
        (String.length (stringify (cleanedItems fieldsArray items)) <= TOOL_MAX_OUTPUT_CHARS ->
         t = stringify (cleanedItems fieldsArray items)) /\
        (TOOL_MAX_OUTPUT_CHARS < String.length (stringify (cleanedItems fieldsArray items)) ->
         t = Js.slice0 TOOL_MAX_OUTPUT_CHARS (stringify (cleanedItems fieldsArray items))
             ++ truncationNotice)).
Proof.
  cbn zeta. set (fieldsArray := McpPaths.parseCommaSeparatedList fields).
  split; [|split; [|split]].
  - intros asked. unfold apiFields.
    destruct fieldsArray as [|f rest] eqn:E; [discriminate|].
    destruct (existsb (Js.includesChar ".") (f :: rest)) eqn:X; cbn [negb];
      [discriminate|].
    intros [= <-]. split; [reflexivity|]. split; [discriminate|].
    apply Forall_forall. intros x Hx.
    destruct (Js.includesChar "." x) eqn:D; [|reflexivity].
    assert (existsb (Js.includesChar ".") (f :: rest) = true).
    { apply existsb_exists. now exists x. }
    congruence.
  - intros items item I. unfold cleanedItems in I.
    apply filter_In in I as [I U]. apply in_map_iff in I as (x & <- & Hx).
    apply negb_true_iff in U.
    destruct (cleanEmptyProperties_spec x) as ([C|C] & _ & _).
    + rewrite C in U. discriminate.
    + split; [exact C|]. intros NE.
      destruct fieldsArray as [|f rest] eqn:E; [contradiction|].
      apply in_map_iff in Hx as (y & <- & _).
      destruct (clean_object_keys (getValuesByDotKeys y (f :: rest))) as [Hu|(o & -> & Hk)].
      * rewrite Hu in U. discriminate.
      * exists o. split; [reflexivity|]. intros k Ik. apply Hk in Ik.
        now apply (getValuesByDotKeys_keys_in y (f :: rest)) in Ik.
  - intros e H. unfold call. fold fieldsArray. now rewrite H.
  - intros items H. unfold call. fold fieldsArray. rewrite H. cbn [Js.bind].
    set (outputText := stringify (cleanedItems fieldsArray items)).
    set (M := TOOL_MAX_OUTPUT_CHARS).
    eexists. split; [reflexivity|].
    destruct (Nat.ltb_spec M (String.length outputText)) as [L|L].
    + split; [|split; [lia | reflexivity]].
      rewrite length_app, length_slice0. lia.
    + split; [lia|]. split; [reflexivity | lia].
Qed.

End GetActorOutputFacts.

(** ** The tool [call-actor] *)

Section CallActorFacts.
Import Types Effects ActorTools Server Trace CallActorTool.
Local Open Scope eff_scope.

Variable fetchActorDetails : string -> Js.Completion Exn (option string).
Variable getActorsAsTools : list string -> Js.Completion Exn (list ToolEntry).
Variable validate : ToolEntry -> Args -> bool.
Variable errorMessages : ToolEntry -> Args -> list string.
Variable schemaText : ToolEntry -> string.
Variable messageOf : Exn -> string.
Variable platform : Platform.
Variable buildActorResponseContent : string -> CallActorGetDatasetResult -> list Content.

Local Abbreviation callTool' :=
  (callActorCall fetchActorDetails getActorsAsTools validate errorMessages
                 schemaText messageOf platform buildActorResponseContent).

(** The branch of [callByType] for an internal tool. *)
Lemma callByType_internal (env : Env) (t : HelperTool) (args : Args) (token : string)
      (progressToken : option string) (signal : option AbortSignal) :
  callByType env (Internal t) args token progressToken signal
  = (([LogInfo "Calling internal tool"; InternalCall (helper_name t)]
      ++ match internalCall env t args with
         | Js.Return _ =>
             if String.eqb (helper_name t) "call-actor"
                && createProgressTracker progressToken
             then [TrackerStop] else []
         | Js.Throw _ => []
         end)%list,
     internalCall env t args).
Proof.
  cbn [callByType]. unfold Effects.bind, lift, emit, ret.
  destruct (internalCall env t args); cbn [fst snd app]; [|reflexivity].
  destruct (String.eqb (helper_name t) "call-actor"); cbn [andb]; [|reflexivity].
  destruct (createProgressTracker progressToken); reflexivity.
Qed.

Lemma bind_lift_return {A B} (a : A) (k : A -> Eff B) :
  Effects.bind (lift (Js.Return a)) k = k a.
Proof. unfold Effects.bind, lift. now destruct (k a). Qed.

(** Whether the tool goes on to start a run. *)
Lemma callActorCall_cases (args : CallActorArgs) (progressTracker : bool)
      (signal : option AbortSignal) :
  let run := callTool' args progressTracker signal in
  let dataset := callActorGetDataset platform (actor args)
                   (match input args with Some i => i | None => [] end)
                   (callOptions args) progressTracker signal in
  let starts :=
    match step args, input args with
    | call, Some i =>
        match getActorsAsTools [actor args] with
        | Js.Return (tool :: _) =>
            match validate tool i, errorMessages tool i with
            | false, _ :: _ => false
            | _, _ => true
            end
        | _ => false
        end
    | _, _ => false
    end in
  (exists result, completion run = Js.Return result) /\
  (starts = true ->
   events run = (events dataset
                 ++ match completion dataset with
                    | Js.Throw _ => [LogError "Error with Actor operation"]
                    | Js.Return _ => []
                    end)%list) /\
  (starts = false -> filter isToolCall (events run) = [] /\
                     filter isTrackerStop (events run) = []).
Proof.
  cbn zeta. unfold callActorCall.
  destruct (step args).
  - unfold tryCatch, Effects.bind, lift, emit, ret.
    destruct (fetchActorDetails (actor args)) as [[schema|]|e]; cbn [fst snd completion];
      (split; [eexists; reflexivity|]); (split; [discriminate|]); intros _;
      split; reflexivity.
  - destruct (input args) as [i|].
    + destruct (getActorsAsTools [actor args]) as [[|tool tools]|e] eqn:G.
      * unfold tryCatch, Effects.bind, lift, emit, ret. cbn [fst snd completion].
        split; [eexists; reflexivity|]. split; [discriminate|]. intros _.
        split; reflexivity.
      * rewrite bind_lift_return.
        destruct (validate tool i) eqn:V; [|destruct (errorMessages tool i) eqn:Em].
        -- match goal with
           | |- context [callActorGetDataset ?p ?a ?b ?c ?d ?e] =>
               destruct (callActorGetDataset p a b c d e) as [tr [[res|]|e']]
           end;
             unfold tryCatch, Effects.bind, emit, ret;
             cbn [fst snd completion events app];
             (split; [eexists; reflexivity|]); (split; [|discriminate]); intros _;
             rewrite ?app_nil_r; reflexivity.
        -- match goal with
           | |- context [callActorGetDataset ?p ?a ?b ?c ?d ?e] =>
               destruct (callActorGetDataset p a b c d e) as [tr [[res|]|e']]
           end;
             unfold tryCatch, Effects.bind, emit, ret;
             cbn [fst snd completion events app];
             (split; [eexists; reflexivity|]); (split; [|discriminate]); intros _;
             rewrite ?app_nil_r; reflexivity.
        -- unfold tryCatch, Effects.bind, lift, emit, ret. cbn [fst snd completion].
           split; [eexists; reflexivity|]. split; [discriminate|]. intros _.
           split; reflexivity.
      * unfold tryCatch, Effects.bind, lift, emit, ret. cbn [fst snd completion].
        split; [eexists; reflexivity|]. split; [discriminate|]. intros _.
        split; reflexivity.
    + unfold tryCatch, Effects.bind, lift, emit, ret. cbn [fst snd completion].
      split; [eexists; reflexivity|]. split; [discriminate|]. intros _.
      split; reflexivity.
Qed.

(** The tool [call-actor].  Once its arguments are parsed it does not
    throw: every failure becomes a text.  It starts at most one run, and
    starts it exactly at the step [call] with an input, for an Actor that
    the lookup finds, when the validator accepts the input or names no
    error; the run is started under the name and with the memory that the
    caller gave.  At the step [info] no run is started.  Called through the
    dispatcher, it has its progress tracker stopped in every case. *)
Theorem callActor_call (args : CallActorArgs) (progressTracker : bool)
        (signal : option AbortSignal) :
  let run := callTool' args progressTracker signal in
  (exists result, completion run = Js.Return result) /\
  (filter isToolCall (events run) = [ActorStart (actor args) (callOptions args)] <->
   step args = call /\
   exists i tool tools,
     input args = Some i /\
     getActorsAsTools [actor args] = Js.Return (tool :: tools) /\
     (validate tool i = true \/ errorMessages tool i = [])) /\
  (filter isToolCall (events run) <> [ActorStart (actor args) (callOptions args)] ->
   filter isToolCall (events run) = []) /\
  (forall (s : ActorsMcpServer) (env : Env) (request : CallToolRequest) c r a,
      orElse (apifyToken request) (APIFY_TOKEN env) = Some (String c r) ->
      findTool (normalizeToolName (request_name request)) s = Some Tools.callActor ->
      arguments request = Some a ->
      ajvValidate env Tools.callActor (ToolsUtils.decodeDotPropertyNames a) = true ->
      internalCall env (mkHelper "call-actor") (ToolsUtils.decodeDotPropertyNames a)
      = completion (callTool' args (createProgressTracker (progressToken request)) signal) ->
      filter isTrackerStop (events (callToolHandler s env request signal))
      = (if createProgressTracker (progressToken request) then [TrackerStop] else []) /\
      exists result, completion (callToolHandler s env request signal) = Js.Return result).
Proof.
  cbn zeta.
  destruct (callActorCall_cases args progressTracker signal) as (Hret & Hstart & Hnot).
  cbn zeta in Hstart, Hnot.
  set (starts := match step args, input args with
                 | call, Some i =>
                     match getActorsAsTools [actor args] with
                     | Js.Return (tool :: _) =>
                         match validate tool i, errorMessages tool i with
                         | false, _ :: _ => false
                         | _, _ => true
                         end
                     | _ => false
                     end
                 | _, _ => false
                 end) in *.
  assert (Hiff : starts = true <->
                 step args = call /\
                 exists i tool tools,
                   input args = Some i /\
                   getActorsAsTools [actor args] = Js.Return (tool :: tools) /\
                   (validate tool i = true \/ errorMessages tool i = [])).
  { unfold starts. destruct (step args).
    - split; [discriminate | intros [C _]; discriminate].
    - destruct (input args) as [i|].
      + destruct (getActorsAsTools [actor args]) as [[|tool tools]|e].
        * split; [discriminate | intros (_ & ? & ? & ? & _ & C & _); discriminate].
        * destruct (validate tool i) eqn:V; [|destruct (errorMessages tool i) eqn:Em].
          -- split; [|reflexivity]. intros _. split; [reflexivity|].
             exists i, tool, tools. repeat split. now left.
          -- split; [|reflexivity]. intros _. split; [reflexivity|].
             exists i, tool, tools. repeat split. now right.
          -- split; [discriminate|].
             intros (_ & i' & tool' & tools' & [= <-] & [= <- <-] & [C|C]); congruence.
        * split; [discriminate | intros (_ & ? & ? & ? & _ & C & _); discriminate].
      + split; [discriminate | intros (_ & ? & ? & ? & C & _); discriminate]. }
  assert (Hcalls : starts = true ->
                   filter isToolCall (events (callTool' args progressTracker signal))
                   = [ActorStart (actor args) (callOptions args)]).
  { intros S. rewrite (Hstart S), filter_app.
    destruct (callActorGetDataset_trace platform (actor args)
                (match input args with Some i => i | None => [] end)
                (callOptions args) progressTracker signal) as (rest & -> & F & _).
    cbn [filter isToolCall]. rewrite F.
    destruct (completion (callActorGetDataset _ _ _ _ _ _)); reflexivity. }
  split; [exact Hret|]. split; [|split].
  - rewrite <- Hiff. split; [|exact Hcalls].
    intros H. destruct starts eqn:S; [reflexivity|].
    destruct (Hnot eq_refl) as [H0 _]. rewrite H0 in H. discriminate.
  - intros H. destruct starts eqn:S; [now rewrite Hcalls in H | now apply Hnot].
  - intros s env request c r a Htok Hf Ha Hv Hcall.
    destruct (callActorCall_cases args (createProgressTracker (progressToken request))
                signal) as ((result & Hres) & _).
    rewrite Hres in Hcall. split.
    + rewrite (handler_filter isTrackerStop s env request signal c r Tools.callActor a);
        auto.
      unfold Tools.callActor, Tools.helper. rewrite callByType_internal.
      unfold Const.HelperTools.ACTOR_CALL. rewrite Hcall. cbn [events fst helper_name].
      cbn [app filter isTrackerStop].
      change (String.eqb "call-actor" "call-actor") with true. cbn [andb].
      now destruct (createProgressTracker (progressToken request)).
    + exists result.
      rewrite (handler_reaches_try s env request signal c r Tools.callActor a);
        auto.
      rewrite completion_tryCatch.
      unfold Tools.callActor, Tools.helper. rewrite callByType_internal.
      unfold Const.HelperTools.ACTOR_CALL. cbn [completion snd]. now rewrite Hcall.
Qed.

End CallActorFacts.

(** ** From the names of Actors to tools *)

Section ActorLoadingFacts.
Import Types ActorTools McpPaths ActorLoading.

Variable definitionOf : string -> Js.Completion Exn (option (ActorDefinitionPruned * option string)).
Variable compiles : ActorDefinitionPruned -> bool.
Variable serverTools : ActorInfo -> Js.Completion Exn (list ToolEntry).

(** An Actor counts as an MCP server when its definition names a path. *)
Lemma hasMcpPath_paths (d : ActorDefinitionPruned) (path : option string) :
  hasMcpPath (mkInfo d (getActorMCPServerPath path)) = true <->
  exists raw, path = Some raw /\ parseCommaSeparatedList (Some (Js.trim raw)) <> [].
Proof.
  unfold hasMcpPath. cbn [webServerMcpPath]. destruct path as [raw|].
  - assert (R : (exists raw0, Some raw = Some raw0 /\
                              parseCommaSeparatedList (Some (Js.trim raw0)) <> [])
                <-> parseCommaSeparatedList (Some (Js.trim raw)) <> []).
    { split; [intros (r0 & [= <-] & H); exact H | intros H; exists raw; now split]. }
    rewrite R. clear R. unfold getActorMCPServerPath.
    pose proof (parseCommaSeparatedList_entries (Some (Js.trim raw))) as E.
    destruct (parseCommaSeparatedList (Some (Js.trim raw))) as [|p [|q rest]].
    + cbn. split; [discriminate | intros C; contradiction].
    + inversion E as [|x l [Hp _] _]; subst.
      destruct p; [contradiction|]. split; [discriminate | reflexivity].
    + rewrite find_streamable.
      destruct (existsb (String.eqb MCP_STREAMABLE_ENDPOINT) (p :: q :: rest)).
      * split; [discriminate | reflexivity].
      * inversion E as [|x l [Hp _] _]; subst.
        destruct p; [contradiction|]. split; [discriminate | reflexivity].
  - cbn. split; [discriminate | intros (raw & C & _); discriminate].
Qed.

Lemma fetchAll_spec (names : list string) :
  match fetchAll definitionOf names with
  | Js.Return infos =>
      forall i, In (Some i) infos <->
                exists n d path, In n names /\ definitionOf n = Js.Return (Some (d, path)) /\
                                 i = mkInfo d (getActorMCPServerPath path)
  | Js.Throw e => exists n, In n names /\ definitionOf n = Js.Throw e
  end.
Proof.
  induction names as [|n names IH]; cbn [fetchAll].
  - intros i. split; [intros [] | intros (n & d & path & [] & _)].
  - destruct (definitionOf n) as [found|e] eqn:D; cbn [Js.bind].
    + destruct (fetchAll definitionOf names) as [others|e]; cbn [Js.bind].
      * intros i. cbn [In]. rewrite IH. split.
        -- intros [H|(n' & d & path & I & D' & ->)].
           ++ destruct found as [[d path]|]; [|discriminate]. injection H as <-.
              exists n, d, path. split; [now left | now split].
           ++ exists n', d, path. split; [now right | now split].
        -- intros (n' & d & path & [<-|I] & D' & ->).
           ++ left. rewrite D in D'. now injection D' as ->.
           ++ right. now exists n', d, path.
      * destruct IH as (n' & I & D'). exists n'. split; [now right | exact D'].
    + exists n. split; [now left | exact D].
Qed.

Lemma getMCPServersAsTools_spec (infos : list ActorInfo) :
  match getMCPServersAsTools serverTools infos with
  | Js.Return tools =>
      forall e, In e tools <->
                exists i ts, In i infos /\ hasMcpPath i = true /\
                             serverTools i = Js.Return ts /\ In e ts
  | Js.Throw e => exists i, In i infos /\ hasMcpPath i = true /\ serverTools i = Js.Throw e
  end.
Proof.
  induction infos as [|i infos IH]; cbn [getMCPServersAsTools].
  - intros e. split; [intros [] | intros (i & ts & [] & _)].
  - destruct (hasMcpPath i) eqn:H.
    + destruct (serverTools i) as [ts|e] eqn:S; cbn [Js.bind].
      * destruct (getMCPServersAsTools serverTools infos) as [others|e]; cbn [Js.bind].
        -- intros e. rewrite in_app_iff, IH. split.
           ++ intros [I|(i' & ts' & I & H' & S' & I')].
              ** exists i, ts. split; [now left | now split].
              ** exists i', ts'. split; [now right | now split].
           ++ intros (i' & ts' & [<-|I] & H' & S' & I').
              ** left. rewrite S in S'. now injection S' as ->.
              ** right. now exists i', ts'.
        -- destruct IH as (i' & I & H' & S'). exists i'. split; [now right | now split].
      * exists i. split; [now left | now split].
    + destruct (getMCPServersAsTools serverTools infos) as [others|e].
      * intros e. rewrite IH. split.
        -- intros (i' & ts & I & H' & S' & I'). exists i', ts. split; [now right | now split].
        -- intros (i' & ts & [<-|I] & H' & S' & I'); [congruence|]. now exists i', ts.
      * destruct IH as (i' & I & H' & S'). exists i'. split; [now right | now split].
Qed.

(** [getActorsAsTools].  An Actor that is not found gives no tool.  An
    Actor whose definition names no MCP path gives one tool of type
    [actor], when its schema compiles; an Actor whose definition names a
    path gives the tools of its MCP server; the tools of the first kind
    come first.  The call fails only with the failure of a definition or of
    the MCP server of an Actor that names a path. *)
Theorem getActorsAsTools_partition (names : list string) :
  match getActorsAsTools definitionOf compiles serverTools names with
  | Js.Return result =>
      exists normalTools mcpServerTools,
        result = (normalTools ++ mcpServerTools)%list /\
        (forall e, In e normalTools <->
                   exists n d path,
                     In n names /\ definitionOf n = Js.Return (Some (d, path)) /\
                     hasMcpPath (mkInfo d (getActorMCPServerPath path)) = false /\
                     compiles d = true /\ e = actorToolOf d) /\
        (forall e, In e mcpServerTools <->
                   exists n d path ts,
                     In n names /\ definitionOf n = Js.Return (Some (d, path)) /\
                     hasMcpPath (mkInfo d (getActorMCPServerPath path)) = true /\
                     serverTools (mkInfo d (getActorMCPServerPath path)) = Js.Return ts /\
                     In e ts)
  | Js.Throw e =>
      (exists n, In n names /\ definitionOf n = Js.Throw e) \/
      (exists n d path,
          In n names /\ definitionOf n = Js.Return (Some (d, path)) /\
          hasMcpPath (mkInfo d (getActorMCPServerPath path)) = true /\
          serverTools (mkInfo d (getActorMCPServerPath path)) = Js.Throw e)
  end /\
  (forall d path,
      hasMcpPath (mkInfo d (getActorMCPServerPath path)) = true <->
      exists raw, path = Some raw /\ parseCommaSeparatedList (Some (Js.trim raw)) <> []).
Proof.
  split; [|apply hasMcpPath_paths].
  unfold getActorsAsTools.
  pose proof (fetchAll_spec names) as F.
  destruct (fetchAll definitionOf names) as [infos|e]; cbn [Js.bind]; [|now left].
  set (found := flat_map (fun i => match i with Some i => [i] | None => [] end) infos).
  assert (Hfound : forall i, In i found <->
                             exists n d path,
                               In n names /\ definitionOf n = Js.Return (Some (d, path)) /\
                               i = mkInfo d (getActorMCPServerPath path)).
  { intros i. rewrite <- F. unfold found. rewrite in_flat_map. split.
    - intros ([x|] & I & H); [destruct H as [<-|[]]; exact I | destruct H].
    - intros I. exists (Some i). split; [exact I | now left]. }
  pose proof (getMCPServersAsTools_spec (filter hasMcpPath found)) as M.
  destruct (getMCPServersAsTools serverTools (filter hasMcpPath found)) as [mcp|e];
    cbn [Js.bind].
  - eexists. exists mcp. split; [reflexivity|]. split.
    + intros e. unfold getNormalActorsAsTools. rewrite in_flat_map. split.
      * intros (d & Hd & He). apply in_map_iff in Hd as (i & <- & Hi).
        apply filter_In in Hi as [Hi Hn]. apply negb_true_iff in Hn.
        apply Hfound in Hi as (n & d & path & In' & D & ->).
        cbn [actorDefinitionPruned] in He.
        destruct (compiles d) eqn:C; [|destruct He].
        destruct He as [<-|[]]. exists n, d, path. repeat split; auto.
      * intros (n & d & path & In' & D & Hn & C & ->).
        exists d. split.
        -- apply in_map_iff. exists (mkInfo d (getActorMCPServerPath path)).
           split; [reflexivity|]. apply filter_In. split.
           ++ apply Hfound. now exists n, d, path.
           ++ now rewrite Hn.
        -- rewrite C. now left.
    + intros e. rewrite M. split.
      * intros (i & ts & Hi & H & S & I). apply filter_In in Hi as [Hi _].
        apply Hfound in Hi as (n & d & path & In' & D & ->).
        exists n, d, path, ts. repeat split; auto.
      * intros (n & d & path & ts & In' & D & H & S & I).
        exists (mkInfo d (getActorMCPServerPath path)), ts.
        split; [|now split]. apply filter_In. split; [|exact H].
        apply Hfound. now exists n, d, path.
  - right. destruct M as (i & Hi & H & S). apply filter_In in Hi as [Hi _].
    apply Hfound in Hi as (n & d & path & In' & D & ->).
    exists n, d, path. repeat split; auto.
Qed.

End ActorLoadingFacts.
